(** * Temperature rendering pipeline and atlas job

    A shallow embedding of the thermal renderer (the shared rendering
    module and the self-contained atlas worker, which inlines a second
    copy of the same functions) and the properties its specification
    states about it.

    JavaScript numbers are abstracted by the interface [JSNumber].  Two
    instances are given: [ieee], IEEE-754 binary64 on primitive floats,
    which is what the program executes, and [exact], rational arithmetic
    with a NaN, the reading under which the algebraic identities of the
    specification hold.  Integer-valued numbers (pixel coordinates, sizes,
    grid indices, colour channels, byte values) are integers of [Z] or
    [nat]. *)

From Stdlib Require Import ZArith QArith Qround Floats Lia Lqa.
From stdpp Require Import base list strings.

Open Scope Z_scope.

(** ** Numbers *)

Class JSNumber : Type := {
  num : Type;
  NaN : num;
  of_Z : Z → num;
  neg : num → num;
  add : num → num → num;
  sub : num → num → num;
  mul : num → num → num;
  div : num → num → num;
  (** [<] and [<=]; both are false as soon as one side is NaN. *)
  ltb : num → num → bool;
  leb : num → num → bool;
  (** [x !== x] *)
  isNaN : num → bool;
  (** [Math.floor] and [Math.round] (ties go up) of a finite number.  On NaN
      and the infinities JavaScript answers NaN or the infinity itself; the
      renderer applies them to finite numbers only, and they are 0 here
      elsewhere. *)
  floor : num → Z;
  round : num → Z;
  (** [x | 0]: truncation to a signed 32-bit integer, 0 on NaN and the
      infinities. *)
  toInt32 : num → Z;
}.

Definition wrap32 (n : Z) : Z := (n + 2 ^ 31) mod 2 ^ 32 - 2 ^ 31.

(** *** IEEE-754 binary64 *)

Module IEEE.

Definition of_Z (z : Z) : float :=
  match z with
  | Z0 => PrimFloat.zero
  | Zpos _ => PrimFloat.of_uint63 (Uint63.of_Z z)
  | Zneg p => PrimFloat.opp (PrimFloat.of_uint63 (Uint63.of_Z (Zpos p)))
  end.

Definition signed (s : bool) (m : positive) : Z :=
  if s then Zneg m else Zpos m.

Definition floor (x : float) : Z :=
  match Prim2SF x with
  | S754_finite s m e =>
      if 0 <=? e then Z.shiftl (signed s m) e else Z.shiftr (signed s m) (- e)
  | _ => 0
  end.

Definition round (x : float) : Z :=
  match Prim2SF x with
  | S754_finite s m e =>
      if 0 <=? e then Z.shiftl (signed s m) e
      else Z.shiftr (2 * signed s m + Z.shiftl 1 (- e)) (- e + 1)
  | _ => 0
  end.

Definition trunc (x : float) : Z :=
  match Prim2SF x with
  | S754_finite s m e =>
      let mag := if 0 <=? e then Z.shiftl (Zpos m) e else Z.shiftr (Zpos m) (- e) in
      if s then - mag else mag
  | _ => 0
  end.

End IEEE.

(** Conversion from [Z] is exact below 2^53, which covers every size,
    index and table entry of the program. *)
Definition ieee : JSNumber := {|
  num := float;
  NaN := PrimFloat.nan;
  of_Z := IEEE.of_Z;
  neg := PrimFloat.opp;
  add := PrimFloat.add;
  sub := PrimFloat.sub;
  mul := PrimFloat.mul;
  div := PrimFloat.div;
  ltb := PrimFloat.ltb;
  leb := PrimFloat.leb;
  isNaN := PrimFloat.is_nan;
  floor := IEEE.floor;
  round := IEEE.round;
  toInt32 := fun x => wrap32 (IEEE.trunc x);
|}.

(** *** Exact rationals with a NaN *)

Inductive xnum : Type :=
  | XNaN
  | XFin (q : Q).

Module Exact.

Definition lift2 (f : Q → Q → Q) (x y : xnum) : xnum :=
  match x, y with
  | XFin a, XFin b => XFin (f a b)
  | _, _ => XNaN
  end.

Definition neg (x : xnum) : xnum :=
  match x with XFin a => XFin (- a)%Q | XNaN => XNaN end.

(** No infinities: a division by zero is NaN.  The renderer divides by
    positive sizes, by the grid step, by counts that are at least 1 and by
    the gap between two thresholds that bracket a value. *)
Definition div (x y : xnum) : xnum :=
  match x, y with
  | XFin a, XFin b => if Qeq_bool b 0%Q then XNaN else XFin (a / b)%Q
  | _, _ => XNaN
  end.

Definition ltb (x y : xnum) : bool :=
  match x, y with
  | XFin a, XFin b => negb (Qle_bool b a)
  | _, _ => false
  end.

Definition leb (x y : xnum) : bool :=
  match x, y with
  | XFin a, XFin b => Qle_bool a b
  | _, _ => false
  end.

Definition isNaN (x : xnum) : bool :=
  match x with XNaN => true | XFin _ => false end.

Definition floor (x : xnum) : Z :=
  match x with XFin a => Qfloor a | XNaN => 0 end.

Definition round (x : xnum) : Z :=
  match x with XFin a => Qfloor (a + (1 # 2))%Q | XNaN => 0 end.

Definition trunc (x : xnum) : Z :=
  match x with XFin a => Z.quot (Qnum a) (Zpos (Qden a)) | XNaN => 0 end.

(** Two exact numbers denote the same value. *)
Definition same (x y : xnum) : Prop :=
  match x, y with
  | XNaN, XNaN => True
  | XFin a, XFin b => (a == b)%Q
  | _, _ => False
  end.

End Exact.

Definition exact : JSNumber := {|
  num := xnum;
  NaN := XNaN;
  of_Z := fun z => XFin (inject_Z z);
  neg := Exact.neg;
  add := Exact.lift2 Qplus;
  sub := Exact.lift2 Qminus;
  mul := Exact.lift2 Qmult;
  div := Exact.div;
  ltb := Exact.ltb;
  leb := Exact.leb;
  isNaN := Exact.isNaN;
  floor := Exact.floor;
  round := Exact.round;
  toInt32 := fun x => wrap32 (Exact.trunc x);
|}.

(** ** Data model *)

Definition rgb : Type := Z * Z * Z.

(** A colour stop [{ t: threshold, c: [r, g, b] }]. *)
Module Stop.
Record stop `{JSNumber} : Type := mk { t : num; c : rgb }.
Arguments mk {_} _ _.
End Stop.
Abbreviation ColorStop := Stop.stop.

(** The options object.  [customStops = None] is an absent (falsy)
    property; an absent [blurRadius] compares like NaN. *)
Record RenderOpts `{JSNumber} : Type := {
  customStops : option (list ColorStop);
  colorway : string;
  blurRadius : num;
}.
Arguments Build_RenderOpts {_} _ _ _.

(** A value read from the grid: [None] is [undefined], what an index outside
    the buffer yields. *)
Definition cell `{JSNumber} : Type := option num.

(** [v !== v] and [v === v] on a value read from an array: only NaN differs
    from itself, [undefined] does not. *)
Definition notSelfEqual `{JSNumber} (v : cell) : bool :=
  match v with Some x => isNaN x | None => false end.
Definition selfEqual `{JSNumber} (v : cell) : bool := negb (notSelfEqual v).

(** ToNumber: [undefined] becomes NaN in arithmetic and in a Float64Array. *)
Definition toNumber `{JSNumber} (v : cell) : num :=
  match v with Some x => x | None => NaN end.

(** [a[i]] for an integer [i]. *)
Definition readZ {A} (a : list A) (i : Z) : option A :=
  if i <? 0 then None else a !! Z.to_nat i.

(** A store into a Uint8ClampedArray. *)
Definition clamp8 (v : Z) : Z := Z.max 0 (Z.min 255 v).

(** Loops whose body may throw. *)
Fixpoint foldM {S A} (f : S → A → option S) (l : list A) (s : S) : option S :=
  match l with
  | [] => Some s
  | a :: l' => match f s a with Some s' => foldM f l' s' | None => None end
  end.

Definition gtb `{JSNumber} (x y : num) : bool := ltb y x.
Definition geb `{JSNumber} (x y : num) : bool := leb y x.
Definition of_nat `{JSNumber} (n : nat) : num := of_Z (Z.of_nat n).
(** A decimal literal [n/d], the number nearest to the quotient. *)
Definition dec `{JSNumber} (n d : Z) : num := div (of_Z n) (of_Z d).

Definition white : rgb := (255, 255, 255).

Declare Scope js_scope.
Delimit Scope js_scope with js.
Infix "+" := add : js_scope.
Infix "-" := sub : js_scope.
Infix "*" := mul : js_scope.
Infix "/" := div : js_scope.
Notation "- x" := (neg x) : js_scope.

(** [a[i]] in an arithmetic expression. *)
Definition at_ `{JSNumber} (a : list num) (i : nat) : num := toNumber (a !! i).
Definition byteAt `{JSNumber} (a : list Z) (i : Z) : num :=
  toNumber (of_Z <$> readZ a i).

(** [o[k]] on an object literal used as a table. *)
Fixpoint property {A} (o : list (string * A)) (k : string) : option A :=
  match o with
  | [] => None
  | (k', v) :: o' => if String.eqb k' k then Some v else property o' k
  end.

(** [a.subarray(from, to)], both ends clamped to the buffer. *)
Definition subarray {A} (a : list A) (from to : nat) : list A :=
  take (to - from) (drop from a).

(** Four stores at [idx .. idx + 3]. *)
Definition setPixel (data : list Z) (idx : nat) (r g b a : Z) : list Z :=
  <[(idx + 3)%nat := clamp8 a]>
    (<[(idx + 2)%nat := clamp8 b]>
       (<[(idx + 1)%nat := clamp8 g]> (<[idx := clamp8 r]> data))).

Definition setRGB (data : list Z) (idx : nat) (r g b : Z) : list Z :=
  <[(idx + 2)%nat := clamp8 b]>
    (<[(idx + 1)%nat := clamp8 g]> (<[idx := clamp8 r]> data)).

(** ** The rendering module *)

Module Render.
Section Render.
Context {N : JSNumber}.

Definition GRID_STEP : Z := 2.
Definition LAT_MIN : Z := -90.
Definition LAT_MAX : Z := 90.
Definition LNG_MIN : Z := -180.
Definition LNG_MAX : Z := 180.
Definition NUM_LAT : Z := (LAT_MAX - LAT_MIN) / GRID_STEP + 1.
Definition NUM_LNG : Z := (LNG_MAX - LNG_MIN) / GRID_STEP + 1.
Definition NUM_POINTS : Z := NUM_LAT * NUM_LNG.

Definition RENDER_WIDTH : nat := 1024.
Definition RENDER_HEIGHT : nat := 512.

Definition THERMAL_STOPS : list ColorStop := [
  Stop.mk (of_Z (-30)) (20, 40, 150);
  Stop.mk (of_Z 5) (60, 130, 255);
  Stop.mk (of_Z 10) (255, 255, 255);
  Stop.mk (dec 155 10) (255, 255, 255);
  Stop.mk (of_Z 18) (255, 235, 50);
  Stop.mk (of_Z 25) (255, 220, 40);
  Stop.mk (dec 267 10) (255, 160, 20);
  Stop.mk (of_Z 32) (255, 40, 20);
  Stop.mk (of_Z 50) (150, 0, 0) ].

Definition CLASSIC_STOPS : list ColorStop := [
  Stop.mk (of_Z (-20)) (30, 100, 240);
  Stop.mk (of_Z (-5)) (50, 160, 200);
  Stop.mk (of_Z 10) (60, 200, 90);
  Stop.mk (of_Z 25) (235, 220, 55);
  Stop.mk (of_Z 40) (210, 50, 30) ].

Definition EARTH_STOPS : list ColorStop := [
  Stop.mk (of_Z (-30)) (15, 25, 110);
  Stop.mk (of_Z 5) (55, 110, 225);
  Stop.mk (of_Z 10) (200, 190, 85);
  Stop.mk (of_Z 16) (220, 190, 55);
  Stop.mk (of_Z 18) (225, 175, 40);
  Stop.mk (of_Z 25) (220, 145, 30);
  Stop.mk (of_Z 27) (215, 110, 20);
  Stop.mk (of_Z 32) (200, 40, 15);
  Stop.mk (of_Z 50) (120, 0, 0) ].

Definition VIVID_STOPS : list ColorStop := [
  Stop.mk (of_Z 4) (30, 100, 240);
  Stop.mk (of_Z 10) (80, 180, 255);
  Stop.mk (of_Z 18) (255, 235, 0);
  Stop.mk (of_Z 24) (255, 130, 0);
  Stop.mk (of_Z 32) (240, 10, 0) ].

Definition COLORWAY_MAP : list (string * list ColorStop) := [
  ("thermal"%string, THERMAL_STOPS);
  ("classic"%string, CLASSIC_STOPS);
  ("earth"%string, EARTH_STOPS);
  ("vivid"%string, VIVID_STOPS) ].

(** One channel of the interpolated colour. *)
Definition lerp (a b : Z) (p : num) : Z :=
  round (of_Z a + (of_Z b - of_Z a) * p)%js.

Definition interpolate (a b : ColorStop) (t : num) : rgb :=
  let p := ((t - Stop.t a) / (Stop.t b - Stop.t a))%js in
  let '(ar, ag, ab) := Stop.c a in
  let '(br, bg, bb) := Stop.c b in
  (lerp ar br p, lerp ag bg p, lerp ab bb p).

(** The [for] loop of [tempToRGB], [n] iterations from index [i]. *)
Fixpoint tempToRGB_scan (t : num) (stops : list ColorStop) (n i : nat) : rgb :=
  match n with
  | O => white
  | S n' =>
      match stops !! i, stops !! S i with
      | Some a, Some b =>
          if geb t (Stop.t a) && leb t (Stop.t b) then interpolate a b t
          else tempToRGB_scan t stops n' (S i)
      | _, _ => white
      end
  end.

(** [t = None] is [null]; [stops = None] is [undefined].  The result is
    [None] when the call throws a TypeError ([stops[0].t] on an undefined or
    empty table). *)
Definition tempToRGB (t : option num) (stops : option (list ColorStop)) : option rgb :=
  match t with
  | None => Some white
  | Some t =>
      if isNaN t then Some white
      else
        match stops with
        | None => None
        | Some stops =>
            match stops !! 0%nat, last stops with
            | Some first, Some final =>
                if leb t (Stop.t first) then Some (Stop.c first)
                else if geb t (Stop.t final) then Some (Stop.c final)
                else Some (tempToRGB_scan t stops (length stops - 1) 0)
            | _, _ => None
            end
        end
  end.

Definition catmullRomWeights (t : num) : list num :=
  let t2 := (t * t)%js in
  let t3 := (t2 * t)%js in
  [ ((- t3 + of_Z 2 * t2 - t) / of_Z 2)%js;
    ((of_Z 3 * t3 - of_Z 5 * t2 + of_Z 2) / of_Z 2)%js;
    ((of_Z (-3) * t3 + of_Z 4 * t2 + t) / of_Z 2)%js;
    ((t3 - t2) / of_Z 2)%js ].

(** The index [getGridTemp] reads: latitude clamped, longitude wrapped by
    one period at most. *)
Definition gridIndex (latIdx lngIdx : Z) : Z :=
  let latIdx := Z.max 0 (Z.min (NUM_LAT - 1) latIdx) in
  let lngIdx :=
    if lngIdx <? 0 then lngIdx + NUM_LNG
    else if NUM_LNG <=? lngIdx then lngIdx - NUM_LNG
    else lngIdx in
  latIdx * NUM_LNG + lngIdx.

Definition getGridTemp (temps : list num) (latIdx lngIdx : Z) : cell :=
  readZ temps (gridIndex latIdx lngIdx).

Definition offsets : list Z := [-1; 0; 1; 2].

(** The loop that gathers the 4 x 4 neighbourhood into [raw], with the sum
    and the count of the values that are not NaN. *)
Definition gather (temps : list num) (latBase lngBase : Z) : num * Z * list num :=
  fold_left (fun st dy =>
    fold_left (fun '(validSum, validCount, raw) dx =>
      let v := getGridTemp temps (latBase + dy) (lngBase + dx) in
      let idx := (dy + 1) * 4 + (dx + 1) in
      let raw := <[Z.to_nat idx := toNumber v]> raw in
      if selfEqual v then ((validSum + toNumber v)%js, validCount + 1, raw)
      else (validSum, validCount, raw))
    offsets st)
  offsets (of_Z 0, 0, replicate 16 (of_Z 0)).

(** The loop that replaces the NaN entries of [raw] by the mean of the
    others. *)
Definition fillMissing (validSum : num) (validCount : Z) (raw : list num) : list num :=
  if validCount <? 16 then
    let fallback := (validSum / of_Z validCount)%js in
    fold_left (fun raw i =>
      if isNaN (at_ raw i) then <[i := fallback]> raw else raw)
      (seq 0 16) raw
  else raw.

(** The two weighted sums: along each row, then across the rows. *)
Definition convolve (wLat wLng raw : list num) : num :=
  fold_left (fun result row =>
    let rowVal :=
      fold_left (fun rowVal col =>
        (rowVal + at_ wLng col * at_ raw (row * 4 + col))%js)
        (seq 0 4) (of_Z 0) in
    (result + at_ wLat row * rowVal)%js)
    (seq 0 4) (of_Z 0).

Definition bicubicSample (temps : list num) (lat lng : num) : num :=
  let gLat := ((of_Z LAT_MAX - lat) / of_Z GRID_STEP)%js in
  let gLng := ((lng - of_Z LNG_MIN) / of_Z GRID_STEP)%js in
  let latBase := floor gLat in
  let lngBase := floor gLng in
  let tLat := (gLat - of_Z latBase)%js in
  let tLng := (gLng - of_Z lngBase)%js in
  let '(validSum, validCount, raw) := gather temps latBase lngBase in
  if validCount =? 0 then NaN
  else
    let raw := fillMissing validSum validCount raw in
    let wLat := catmullRomWeights tLat in
    let wLng := catmullRomWeights tLng in
    convolve wLat wLng raw.

(** Horizontal pass: [data] is read, [dst] is written.  The first loop stops
    at the first [x] above [radius]; no later [x] passes its test. *)
Definition blurRows (data : list Z) (w h : nat) (radius : Z) (dst : list Z) : list Z :=
  fold_left (fun dst y =>
    let rowOff := Z.of_nat (y * w * 4) in
    fold_left (fun dst ch =>
      let '(sum, count) :=
        fold_left (fun '(sum, count) x =>
          if x <=? radius
          then ((sum + byteAt data (rowOff + x * 4 + ch))%js, count + 1)
          else (sum, count))
          (Z.of_nat <$> seq 0 w) (of_Z 0, 0) in
      fst (fold_left (fun '(dst, (sum, count)) x =>
        let dst :=
          <[Z.to_nat (rowOff + x * 4 + ch) :=
              clamp8 (toInt32 (sum / of_Z count + dec 1 2)%js)]> dst in
        let dst := <[Z.to_nat (rowOff + x * 4 + 3) := clamp8 255]> dst in
        let nx := x + radius + 1 in
        let '(sum, count) :=
          if nx <? Z.of_nat w
          then ((sum + byteAt data (rowOff + nx * 4 + ch))%js, count + 1)
          else (sum, count) in
        let ox := x - radius in
        let '(sum, count) :=
          if 0 <=? ox
          then ((sum - byteAt data (rowOff + ox * 4 + ch))%js, count - 1)
          else (sum, count) in
        (dst, (sum, count)))
        (Z.of_nat <$> seq 0 w) (dst, (sum, count))))
      [0; 1; 2] dst)
    (seq 0 h) dst.

(** Vertical pass: [dst] is read, [data] is written. *)
Definition blurCols (dst : list Z) (w h : nat) (radius : Z) (data : list Z) : list Z :=
  fold_left (fun data x =>
    fold_left (fun data ch =>
      let '(sum, count) :=
        fold_left (fun '(sum, count) y =>
          if y <=? radius
          then ((sum + byteAt dst ((y * Z.of_nat w + x) * 4 + ch))%js, count + 1)
          else (sum, count))
          (Z.of_nat <$> seq 0 h) (of_Z 0, 0) in
      fst (fold_left (fun '(data, (sum, count)) y =>
        let data :=
          <[Z.to_nat ((y * Z.of_nat w + x) * 4 + ch) :=
              clamp8 (toInt32 (sum / of_Z count + dec 1 2)%js)]> data in
        let ny := y + radius + 1 in
        let '(sum, count) :=
          if ny <? Z.of_nat h
          then ((sum + byteAt dst ((ny * Z.of_nat w + x) * 4 + ch))%js, count + 1)
          else (sum, count) in
        let oy := y - radius in
        let '(sum, count) :=
          if 0 <=? oy
          then ((sum - byteAt dst ((oy * Z.of_nat w + x) * 4 + ch))%js, count - 1)
          else (sum, count) in
        (data, (sum, count)))
        (Z.of_nat <$> seq 0 h) (data, (sum, count))))
      [0; 1; 2] data)
    (Z.of_nat <$> seq 0 w) data.

(** [boxBlur] updates [data] in place; the updated buffer is the result. *)
Definition boxBlur (data : list Z) (w h : nat) (radius : Z) (passes : nat) : list Z :=
  fst (Nat.iter passes (fun '(data, dst) =>
         let dst := blurRows data w h radius dst in
         let data := blurCols dst w h radius data in
         (data, dst))
       (data, replicate (length data) 0)).

(** The index [isOceanNearest] reads. *)
Definition nearestIndex (lat lng : num) : Z :=
  let latIdx := round ((of_Z LAT_MAX - lat) / of_Z GRID_STEP)%js in
  let lngIdx := round ((lng - of_Z LNG_MIN) / of_Z GRID_STEP)%js in
  let lngIdx :=
    if lngIdx <? 0 then lngIdx + NUM_LNG
    else if NUM_LNG <=? lngIdx then lngIdx - NUM_LNG
    else lngIdx in
  let clampedLat := Z.max 0 (Z.min (NUM_LAT - 1) latIdx) in
  clampedLat * NUM_LNG + lngIdx.

Definition isOceanNearest (temps : list num) (lat lng : num) : bool :=
  let v := readZ temps (nearestIndex lat lng) in
  notSelfEqual v.

(** Inverse projection of a pixel row and a pixel column. *)
Definition pixelLat (y h : nat) : num :=
  (of_Z 90 - (of_nat y / of_nat h) * of_Z 180)%js.
Definition pixelLng (x w : nat) : num :=
  ((of_nat x / of_nat w) * of_Z 360 - of_Z 180)%js.

(** [opts.customStops || COLORWAY_MAP[opts.colorway]] *)
Definition stopsOf (opts : RenderOpts) : option (list ColorStop) :=
  match customStops opts with
  | Some stops => Some stops
  | None => property COLORWAY_MAP (colorway opts)
  end.

(** The body of the two pixel loops, on the pair of [data] and
    [oceanMask]. *)
Definition renderPixel (temps : list num) (stops : option (list ColorStop))
    (w h y : nat) (st : list Z * list Z) (x : nat) : option (list Z * list Z) :=
  let '(data, oceanMask) := st in
  let lat := pixelLat y h in
  let lng := pixelLng x w in
  let ocean := isOceanNearest temps lat lng in
  let oceanMask := <[(y * w + x)%nat := if ocean then 1 else 0]> oceanMask in
  let idx := ((y * w + x) * 4)%nat in
  if ocean then Some (setPixel data idx 255 255 255 255, oceanMask)
  else
    let temp := bicubicSample temps lat lng in
    match tempToRGB (if isNaN temp then None else Some temp) stops with
    | Some (r, g, b) => Some (setPixel data idx r g b 255, oceanMask)
    | None => None
    end.

Definition renderRows (temps : list num) (stops : option (list ColorStop))
    (w h : nat) : option (list Z * list Z) :=
  foldM (fun st y => foldM (renderPixel temps stops w h y) (seq 0 w) st)
    (seq 0 h) (replicate (w * h * 4) 0, replicate (w * h) 0).

(** The loop that stamps the ocean pixels white again after the blur. *)
Definition restamp (oceanMask data : list Z) : list Z :=
  fold_left (fun data i =>
    match oceanMask !! i with
    | Some m => if m =? 0 then data else setRGB data (i * 4) 255 255 255
    | None => data
    end)
    (seq 0 (length oceanMask)) data.

(** [w] and [h] are optional arguments; the result is [None] when
    [tempToRGB] throws. *)
Definition renderPixelData (temps : list num) (opts : RenderOpts)
    (w h : option nat) : option (list Z) :=
  let w := default RENDER_WIDTH w in
  let h := default RENDER_HEIGHT h in
  let stops := stopsOf opts in
  match renderRows temps stops w h with
  | None => None
  | Some (data, oceanMask) =>
      if gtb (blurRadius opts) (of_Z 0) then
        let refSize := 2048 in
        let scaledRadius :=
          Z.max 1 (round (blurRadius opts * of_nat w / of_Z refSize)%js) in
        let data := boxBlur data w h scaledRadius 3 in
        Some (restamp oceanMask data)
      else Some data
  end.

End Render.
End Render.
(** ** The atlas worker

    The worker inlines its own copy of the rendering functions. *)

Module Worker.
Section Worker.
Context {N : JSNumber}.

Definition GRID_STEP : Z := 2.
Definition LAT_MIN : Z := -90.
Definition LNG_MIN : Z := -180.
Definition NUM_LAT : Z := (90 - LAT_MIN) / GRID_STEP + 1.
Definition NUM_LNG : Z := (180 - LNG_MIN) / GRID_STEP + 1.
Definition NUM_POINTS : Z := NUM_LAT * NUM_LNG.

Definition THERMAL_STOPS : list ColorStop := [
  Stop.mk (of_Z (-30)) (20, 40, 150);
  Stop.mk (of_Z 5) (60, 130, 255);
  Stop.mk (of_Z 10) (255, 255, 255);
  Stop.mk (dec 155 10) (255, 255, 255);
  Stop.mk (of_Z 18) (255, 235, 50);
  Stop.mk (of_Z 25) (255, 220, 40);
  Stop.mk (dec 267 10) (255, 160, 20);
  Stop.mk (of_Z 32) (255, 40, 20);
  Stop.mk (of_Z 50) (150, 0, 0) ].

Definition CLASSIC_STOPS : list ColorStop := [
  Stop.mk (of_Z (-20)) (30, 100, 240);
  Stop.mk (of_Z (-5)) (50, 160, 200);
  Stop.mk (of_Z 10) (60, 200, 90);
  Stop.mk (of_Z 25) (235, 220, 55);
  Stop.mk (of_Z 40) (210, 50, 30) ].

Definition EARTH_STOPS : list ColorStop := [
  Stop.mk (of_Z (-30)) (15, 25, 110);
  Stop.mk (of_Z 5) (55, 110, 225);
  Stop.mk (of_Z 10) (200, 190, 85);
  Stop.mk (of_Z 16) (220, 190, 55);
  Stop.mk (of_Z 18) (225, 175, 40);
  Stop.mk (of_Z 25) (220, 145, 30);
  Stop.mk (of_Z 27) (215, 110, 20);
  Stop.mk (of_Z 32) (200, 40, 15);
  Stop.mk (of_Z 50) (120, 0, 0) ].

Definition VIVID_STOPS : list ColorStop := [
  Stop.mk (of_Z 4) (30, 100, 240);
  Stop.mk (of_Z 10) (80, 180, 255);
  Stop.mk (of_Z 18) (255, 235, 0);
  Stop.mk (of_Z 24) (255, 130, 0);
  Stop.mk (of_Z 32) (240, 10, 0) ].

Definition COLORWAY_MAP : list (string * list ColorStop) := [
  ("thermal"%string, THERMAL_STOPS);
  ("classic"%string, CLASSIC_STOPS);
  ("earth"%string, EARTH_STOPS);
  ("vivid"%string, VIVID_STOPS) ].

(** One channel of the interpolated colour. *)
Definition lerp (a b : Z) (p : num) : Z :=
  round (of_Z a + (of_Z b - of_Z a) * p)%js.

Definition interpolate (a b : ColorStop) (t : num) : rgb :=
  let p := ((t - Stop.t a) / (Stop.t b - Stop.t a))%js in
  let '(ar, ag, ab) := Stop.c a in
  let '(br, bg, bb) := Stop.c b in
  (lerp ar br p, lerp ag bg p, lerp ab bb p).

(** The [for] loop of [tempToRGB], [n] iterations from index [i]. *)
Fixpoint tempToRGB_scan (t : num) (stops : list ColorStop) (n i : nat) : rgb :=
  match n with
  | O => white
  | S n' =>
      match stops !! i, stops !! S i with
      | Some a, Some b =>
          if geb t (Stop.t a) && leb t (Stop.t b) then interpolate a b t
          else tempToRGB_scan t stops n' (S i)
      | _, _ => white
      end
  end.

(** [t = None] is [null]; [stops = None] is [undefined].  The result is
    [None] when the call throws a TypeError ([stops[0].t] on an undefined or
    empty table). *)
Definition tempToRGB (t : option num) (stops : option (list ColorStop)) : option rgb :=
  match t with
  | None => Some white
  | Some t =>
      if isNaN t then Some white
      else
        match stops with
        | None => None
        | Some stops =>
            match stops !! 0%nat, last stops with
            | Some first, Some final =>
                if leb t (Stop.t first) then Some (Stop.c first)
                else if geb t (Stop.t final) then Some (Stop.c final)
                else Some (tempToRGB_scan t stops (length stops - 1) 0)
            | _, _ => None
            end
        end
  end.

Definition catmullRomWeights (t : num) : list num :=
  let t2 := (t * t)%js in
  let t3 := (t2 * t)%js in
  [ ((- t3 + of_Z 2 * t2 - t) / of_Z 2)%js;
    ((of_Z 3 * t3 - of_Z 5 * t2 + of_Z 2) / of_Z 2)%js;
    ((of_Z (-3) * t3 + of_Z 4 * t2 + t) / of_Z 2)%js;
    ((t3 - t2) / of_Z 2)%js ].

(** The index [getGridTemp] reads: latitude clamped, longitude wrapped by
    one period at most. *)
Definition gridIndex (latIdx lngIdx : Z) : Z :=
  let latIdx := Z.max 0 (Z.min (NUM_LAT - 1) latIdx) in
  let lngIdx :=
    if lngIdx <? 0 then lngIdx + NUM_LNG
    else if NUM_LNG <=? lngIdx then lngIdx - NUM_LNG
    else lngIdx in
  latIdx * NUM_LNG + lngIdx.

Definition getGridTemp (temps : list num) (latIdx lngIdx : Z) : cell :=
  readZ temps (gridIndex latIdx lngIdx).

Definition offsets : list Z := [-1; 0; 1; 2].

(** The loop that gathers the 4 x 4 neighbourhood into [raw], with the sum
    and the count of the values that are not NaN. *)
Definition gather (temps : list num) (latBase lngBase : Z) : num * Z * list num :=
  fold_left (fun st dy =>
    fold_left (fun '(validSum, validCount, raw) dx =>
      let v := getGridTemp temps (latBase + dy) (lngBase + dx) in
      let idx := (dy + 1) * 4 + (dx + 1) in
      let raw := <[Z.to_nat idx := toNumber v]> raw in
      if selfEqual v then ((validSum + toNumber v)%js, validCount + 1, raw)
      else (validSum, validCount, raw))
    offsets st)
  offsets (of_Z 0, 0, replicate 16 (of_Z 0)).

(** The loop that replaces the NaN entries of [raw] by the mean of the
    others. *)
Definition fillMissing (validSum : num) (validCount : Z) (raw : list num) : list num :=
  if validCount <? 16 then
    let fallback := (validSum / of_Z validCount)%js in
    fold_left (fun raw i =>
      if isNaN (at_ raw i) then <[i := fallback]> raw else raw)
      (seq 0 16) raw
  else raw.

(** The two weighted sums: along each row, then across the rows. *)
Definition convolve (wLat wLng raw : list num) : num :=
  fold_left (fun result row =>
    let rowVal :=
      fold_left (fun rowVal col =>
        (rowVal + at_ wLng col * at_ raw (row * 4 + col))%js)
        (seq 0 4) (of_Z 0) in
    (result + at_ wLat row * rowVal)%js)
    (seq 0 4) (of_Z 0).

Definition bicubicSample (temps : list num) (lat lng : num) : num :=
  let gLat := ((of_Z 90 - lat) / of_Z GRID_STEP)%js in
  let gLng := ((lng - of_Z LNG_MIN) / of_Z GRID_STEP)%js in
  let latBase := floor gLat in
  let lngBase := floor gLng in
  let tLat := (gLat - of_Z latBase)%js in
  let tLng := (gLng - of_Z lngBase)%js in
  let '(validSum, validCount, raw) := gather temps latBase lngBase in
  if validCount =? 0 then NaN
  else
    let raw := fillMissing validSum validCount raw in
    let wLat := catmullRomWeights tLat in
    let wLng := catmullRomWeights tLng in
    convolve wLat wLng raw.

(** Horizontal pass: [data] is read, [dst] is written.  The first loop stops
    at the first [x] above [radius]; no later [x] passes its test. *)
Definition blurRows (data : list Z) (w h : nat) (radius : Z) (dst : list Z) : list Z :=
  fold_left (fun dst y =>
    let rowOff := Z.of_nat (y * w * 4) in
    fold_left (fun dst ch =>
      let '(sum, count) :=
        fold_left (fun '(sum, count) x =>
          if x <=? radius
          then ((sum + byteAt data (rowOff + x * 4 + ch))%js, count + 1)
          else (sum, count))
          (Z.of_nat <$> seq 0 w) (of_Z 0, 0) in
      fst (fold_left (fun '(dst, (sum, count)) x =>
        let dst :=
          <[Z.to_nat (rowOff + x * 4 + ch) :=
              clamp8 (toInt32 (sum / of_Z count + dec 1 2)%js)]> dst in
        let dst := <[Z.to_nat (rowOff + x * 4 + 3) := clamp8 255]> dst in
        let nx := x + radius + 1 in
        let '(sum, count) :=
          if nx <? Z.of_nat w
          then ((sum + byteAt data (rowOff + nx * 4 + ch))%js, count + 1)
          else (sum, count) in
        let ox := x - radius in
        let '(sum, count) :=
          if 0 <=? ox
          then ((sum - byteAt data (rowOff + ox * 4 + ch))%js, count - 1)
          else (sum, count) in
        (dst, (sum, count)))
        (Z.of_nat <$> seq 0 w) (dst, (sum, count))))
      [0; 1; 2] dst)
    (seq 0 h) dst.

(** Vertical pass: [dst] is read, [data] is written. *)
Definition blurCols (dst : list Z) (w h : nat) (radius : Z) (data : list Z) : list Z :=
  fold_left (fun data x =>
    fold_left (fun data ch =>
      let '(sum, count) :=
        fold_left (fun '(sum, count) y =>
          if y <=? radius
          then ((sum + byteAt dst ((y * Z.of_nat w + x) * 4 + ch))%js, count + 1)
          else (sum, count))
          (Z.of_nat <$> seq 0 h) (of_Z 0, 0) in
      fst (fold_left (fun '(data, (sum, count)) y =>
        let data :=
          <[Z.to_nat ((y * Z.of_nat w + x) * 4 + ch) :=
              clamp8 (toInt32 (sum / of_Z count + dec 1 2)%js)]> data in
        let ny := y + radius + 1 in
        let '(sum, count) :=
          if ny <? Z.of_nat h
          then ((sum + byteAt dst ((ny * Z.of_nat w + x) * 4 + ch))%js, count + 1)
          else (sum, count) in
        let oy := y - radius in
        let '(sum, count) :=
          if 0 <=? oy
          then ((sum - byteAt dst ((oy * Z.of_nat w + x) * 4 + ch))%js, count - 1)
          else (sum, count) in
        (data, (sum, count)))
        (Z.of_nat <$> seq 0 h) (data, (sum, count))))
      [0; 1; 2] data)
    (Z.of_nat <$> seq 0 w) data.

(** [boxBlur] updates [data] in place; the updated buffer is the result. *)
Definition boxBlur (data : list Z) (w h : nat) (radius : Z) (passes : nat) : list Z :=
  fst (Nat.iter passes (fun '(data, dst) =>
         let dst := blurRows data w h radius dst in
         let data := blurCols dst w h radius data in
         (data, dst))
       (data, replicate (length data) 0)).

(** The index [isOceanNearest] reads. *)
Definition nearestIndex (lat lng : num) : Z :=
  let latIdx := round ((of_Z 90 - lat) / of_Z GRID_STEP)%js in
  let lngIdx := round ((lng - of_Z LNG_MIN) / of_Z GRID_STEP)%js in
  let lngIdx :=
    if lngIdx <? 0 then lngIdx + NUM_LNG
    else if NUM_LNG <=? lngIdx then lngIdx - NUM_LNG
    else lngIdx in
  let clampedLat := Z.max 0 (Z.min (NUM_LAT - 1) latIdx) in
  clampedLat * NUM_LNG + lngIdx.

Definition isOceanNearest (temps : list num) (lat lng : num) : bool :=
  let v := readZ temps (nearestIndex lat lng) in
  notSelfEqual v.

(** Inverse projection of a pixel row and a pixel column. *)
Definition pixelLat (y h : nat) : num :=
  (of_Z 90 - (of_nat y / of_nat h) * of_Z 180)%js.
Definition pixelLng (x w : nat) : num :=
  ((of_nat x / of_nat w) * of_Z 360 - of_Z 180)%js.

(** [opts.customStops || COLORWAY_MAP[opts.colorway]] *)
Definition stopsOf (opts : RenderOpts) : option (list ColorStop) :=
  match customStops opts with
  | Some stops => Some stops
  | None => property COLORWAY_MAP (colorway opts)
  end.

(** The body of the two pixel loops, on the pair of [data] and
    [oceanMask]. *)
Definition renderPixel (temps : list num) (stops : option (list ColorStop))
    (w h y : nat) (st : list Z * list Z) (x : nat) : option (list Z * list Z) :=
  let '(data, oceanMask) := st in
  let lat := pixelLat y h in
  let lng := pixelLng x w in
  let ocean := isOceanNearest temps lat lng in
  let oceanMask := <[(y * w + x)%nat := if ocean then 1 else 0]> oceanMask in
  let idx := ((y * w + x) * 4)%nat in
  if ocean then Some (setPixel data idx 255 255 255 255, oceanMask)
  else
    let temp := bicubicSample temps lat lng in
    match tempToRGB (if isNaN temp then None else Some temp) stops with
    | Some (r, g, b) => Some (setPixel data idx r g b 255, oceanMask)
    | None => None
    end.

Definition renderRows (temps : list num) (stops : option (list ColorStop))
    (w h : nat) : option (list Z * list Z) :=
  foldM (fun st y => foldM (renderPixel temps stops w h y) (seq 0 w) st)
    (seq 0 h) (replicate (w * h * 4) 0, replicate (w * h) 0).

(** The loop that stamps the ocean pixels white again after the blur. *)
Definition restamp (oceanMask data : list Z) : list Z :=
  fold_left (fun data i =>
    match oceanMask !! i with
    | Some m => if m =? 0 then data else setRGB data (i * 4) 255 255 255
    | None => data
    end)
    (seq 0 (length oceanMask)) data.

(** The result is [None] when [tempToRGB] throws. *)
Definition renderPixelData (temps : list num) (opts : RenderOpts)
    (w h : nat) : option (list Z) :=
  let stops := stopsOf opts in
  match renderRows temps stops w h with
  | None => None
  | Some (data, oceanMask) =>
      if gtb (blurRadius opts) (of_Z 0) then
        let refSize := 2048 in
        let scaledRadius :=
          Z.max 1 (round (blurRadius opts * of_nat w / of_Z refSize)%js) in
        let data := boxBlur data w h scaledRadius 3 in
        Some (restamp oceanMask data)
      else Some data
  end.

Definition FRAME_W : nat := 512.
Definition FRAME_H : nat := 256.
Definition ATLAS_COLS : nat := 16.

(** What the worker posts.  The encoded bytes of the atlas message are not
    modelled. *)
Inductive Message : Type :=
  | Progress (done total : nat)
  | Atlas (numDays cols : nat) (rows : Z) (frameW frameH : nat).

(** What the worker receives. *)
Inductive Request : Type :=
  | Start (temps : list num) (numDays : nat) (opts : RenderOpts)
  | Cancel.

(** [Math.ceil(a / b)] for integers, [b] positive. *)
Definition ceilDiv (a b : Z) : Z := - ((- a) / b).

Definition atlasRows (numDays : nat) : Z :=
  ceilDiv (Z.of_nat numDays) (Z.of_nat ATLAS_COLS).
Definition atlasW : Z := Z.of_nat ATLAS_COLS * Z.of_nat FRAME_W.
Definition rawH (numDays : nat) : Z := atlasRows numDays * Z.of_nat FRAME_H.
(** [Math.pow(2, Math.ceil(Math.log2(rawH)))], the logarithm taken exactly;
    [Math.log2(0)] is minus infinity and the power is 0. *)
Definition atlasH (numDays : nat) : Z :=
  if rawH numDays <=? 0 then 0 else 2 ^ Z.log2_up (rawH numDays).

(** The tile of a day and the corner [putImageData] draws it at. *)
Definition tileCol (day : nat) : nat := day mod ATLAS_COLS.
Definition tileRow (day : nat) : nat := day / ATLAS_COLS.
Definition tileOrigin (day : nat) : nat * nat :=
  (tileCol day * FRAME_W, tileRow day * FRAME_H)%nat.

(** Where a call of [renderAtlas] stands: suspended at the [await] that
    follows a day (it resumes at the head of the loop for [day]), at one of
    the two [await]s of the encoding, returned, or rejected by an exception
    of the renderer. *)
Inductive Pc : Type :=
  | AtDay (day : nat)
  | AwaitBlob
  | AwaitBuffer
  | Returned
  | Rejected.

(** A call of [renderAtlas]: its arguments, the tiles drawn on its canvas
    (corner and pixels, in drawing order) and its control point. *)
Record Job : Type := mkJob {
  allTemps : list num;
  numDays : nat;
  opts : RenderOpts;
  drawn : list (nat * nat * list Z);
  pc : Pc;
}.

Definition at_pc (j : Job) (p : Pc) : Job :=
  mkJob (allTemps j) (numDays j) (opts j) (drawn j) p.

Definition draw (j : Job) (day : nat) (pixels : list Z) : Job :=
  mkJob (allTemps j) (numDays j) (opts j)
    (drawn j ++ [(tileOrigin day, pixels)]) (pc j).

(** The [for] loop from the head of the iteration [day], with [rem] days
    left, up to the next [await] or [return].  Nothing else runs meanwhile,
    so the flag [cancelled] keeps the value it has at the start. *)
Fixpoint renderDays (cancelled : bool) (rem : nat) (j : Job) (day : nat)
    : list Message * Job :=
  match rem with
  | O => if cancelled then ([], at_pc j Returned) else ([], at_pc j AwaitBlob)
  | S rem' =>
      if cancelled then ([], at_pc j Returned)
      else
        let np := Z.to_nat NUM_POINTS in
        let dayTemps := subarray (allTemps j) (day * np) ((day + 1) * np) in
        match renderPixelData dayTemps (opts j) FRAME_W FRAME_H with
        | None => ([], at_pc j Rejected)
        | Some pixels =>
            let j := draw j day pixels in
            let msg := Progress (day + 1) (numDays j) in
            if (day mod 5 =? 0)%nat then ([msg], at_pc j (AtDay (S day)))
            else
              let '(msgs, j) := renderDays cancelled rem' j (S day) in
              (msg :: msgs, j)
        end
  end.

(** The worker: the global flag, its calls of [renderAtlas], and the
    messages posted so far. *)
Record State : Type := mkState {
  cancelled : bool;
  jobs : list Job;
  outbox : list Message;
}.

Definition initial : State := mkState false [] [].

(** The turns of the event loop: a message arrives and [onmessage] runs, or
    the pending [await] of a call completes and the call runs on. *)
Inductive Event : Type :=
  | Receive (r : Request)
  | Resume (i : nat).

Definition resume (cancelled : bool) (j : Job) : list Message * Job :=
  match pc j with
  | AtDay day => renderDays cancelled (numDays j - day) j day
  | AwaitBlob => ([], at_pc j AwaitBuffer)
  | AwaitBuffer =>
      ([Atlas (numDays j) ATLAS_COLS (atlasRows (numDays j)) FRAME_W FRAME_H],
       at_pc j Returned)
  | Returned => ([], j)
  | Rejected => ([], j)
  end.

(** A call of [renderAtlas], up to its first [await] or [return]. *)
Definition renderAtlas (cancelled : bool) (allTemps : list num) (numDays : nat)
    (opts : RenderOpts) : list Message * Job :=
  renderDays cancelled numDays (mkJob allTemps numDays opts [] (AtDay 0)) 0.

(** [self.onmessage]: a start request lowers the flag and calls
    [renderAtlas]; a cancel request raises the flag. *)
Definition onmessage (s : State) (msg : Request) : State :=
  match msg with
  | Start temps n o =>
      let '(msgs, j) := renderAtlas false temps n o in
      mkState false (jobs s ++ [j]) (outbox s ++ msgs)
  | Cancel => mkState true (jobs s) (outbox s)
  end.

Definition step (s : State) (e : Event) : State :=
  match e with
  | Receive msg => onmessage s msg
  | Resume i =>
      match jobs s !! i with
      | Some j =>
          let '(msgs, j) := resume (cancelled s) j in
          mkState (cancelled s) (<[i := j]> (jobs s)) (outbox s ++ msgs)
      | None => s
      end
  end.

Definition run (events : list Event) (s : State) : State :=
  fold_left step events s.

End Worker.
End Worker.

(** * Vocabulary of the properties *)

(** Linear interpolation of a channel by the fraction [p], rounded to the
    nearest integer, halves up. *)
Definition lerpQ (x y : Z) (p : Q) : Z :=
  Qfloor (inject_Z x + (inject_Z y - inject_Z x) * p + (1 # 2)).

Definition lerpRGB (ca cb : rgb) (p : Q) : rgb :=
  let '(ar, ag, ab) := ca in
  let '(br, bg, bb) := cb in
  (lerpQ ar br p, lerpQ ag bg p, lerpQ ab bb p).

(** Pixel [i] of a frame holds the four bytes [r], [g], [b], [a]. *)
Definition pixelIs (data : list Z) (i : nat) (r g b a : Z) : Prop :=
  data !! (i * 4)%nat = Some r ∧ data !! (i * 4 + 1)%nat = Some g
  ∧ data !! (i * 4 + 2)%nat = Some b ∧ data !! (i * 4 + 3)%nat = Some a.

(** Two buffers of the same length with the same alpha bytes. *)
Definition sameAlpha (d d' : list Z) : Prop :=
  length d' = length d ∧ ∀ j, (j mod 4 = 3)%nat → d' !! j = d !! j.

(** Thresholds strictly increasing along the table. *)
Fixpoint strictlyIncreasing `{JSNumber} (stops : list ColorStop) : bool :=
  match stops with
  | a :: (b :: _) as rest => ltb (Stop.t a) (Stop.t b) && strictlyIncreasing rest
  | _ => true
  end.


(** The options [{ colorway: "thermal" }], no blur. *)
Definition thermalOpts `{JSNumber} : RenderOpts :=
  Build_RenderOpts None "thermal" (of_Z 0).

(** The options [{ colorway: "thermal", blurRadius: 2048 }]. *)
Definition blurredOpts `{JSNumber} : RenderOpts :=
  Build_RenderOpts None "thermal" (of_Z 2048).

Section Vocabulary.
Context {N : JSNumber}.

(** The grid whose cell [i] holds the number [i]. *)
Definition rampGrid : list num :=
  (fun i => of_Z (Z.of_nat i)) <$> seq 0 (Z.to_nat Render.NUM_POINTS).

(** A grid of [NUM_POINTS] cells that all hold [v]. *)
Definition uniformGrid (temps : list num) (v : num) : Prop :=
  Z.of_nat (length temps) = Render.NUM_POINTS ∧ ∀ i x, temps !! i = Some x → x = v.

(** The grid position [bicubicSample] starts from. *)
Definition sampleBase (lat lng : num) : Z * Z :=
  (floor ((of_Z Render.LAT_MAX - lat) / of_Z Render.GRID_STEP)%js,
   floor ((lng - of_Z Render.LNG_MIN) / of_Z Render.GRID_STEP)%js).


(** The ocean test and the colour of the pixel in column [x] of row [y]. *)
Definition oceanAt (temps : list num) (w h x y : nat) : bool :=
  Render.isOceanNearest temps (Render.pixelLat y h) (Render.pixelLng x w).

Definition pixelColor (temps : list num) (stops : option (list ColorStop))
    (w h x y : nat) : option rgb :=
  if oceanAt temps w h x y then Some white
  else
    let temp := Render.bicubicSample temps (Render.pixelLat y h) (Render.pixelLng x w) in
    Render.tempToRGB (if isNaN temp then None else Some temp) stops.

(** What holds of the pixels before position [k], in row-major order. *)
Definition rasterInv (temps : list num) (stops : option (list ColorStop))
    (w h k : nat) (st : list Z * list Z) : Prop :=
  length st.1 = (w * h * 4)%nat ∧ length st.2 = (w * h)%nat
  ∧ ∀ x y, (x < w)%nat → (y < h)%nat → (y * w + x < k)%nat →
      st.2 !! (y * w + x)%nat = Some (if oceanAt temps w h x y then 1 else 0)
      ∧ ∃ r g b, pixelColor temps stops w h x y = Some (r, g, b)
                 ∧ pixelIs st.1 (y * w + x) (clamp8 r) (clamp8 g) (clamp8 b) 255.

(** The progress messages of the days [day + 1 .. day + k] of [n]. *)
Definition progressSeq (n day k : nat) : list Worker.Message :=
  (fun d => Worker.Progress d n) <$> seq (day + 1) k.

(** The progress messages of the first [k] days of [n]. *)
Definition progress (n k : nat) : list Worker.Message := progressSeq n 0 k.

Definition atlasMessage (n : nat) : Worker.Message :=
  Worker.Atlas n 16 (Worker.atlasRows n) 512 256.

(** A table with a first stop, which [tempToRGB] accepts. *)
Definition validStops (opts : RenderOpts) : Prop :=
  ∃ s stops, Worker.stopsOf opts = Some (s :: stops).

(** The same call of [renderAtlas], further on. *)
Definition sameCall (j j' : Worker.Job) : Prop :=
  Worker.allTemps j' = Worker.allTemps j ∧ Worker.numDays j' = Worker.numDays j
  ∧ Worker.opts j' = Worker.opts j.

Definition isStart (e : Worker.Event) : Prop :=
  match e with Worker.Receive (Worker.Start _ _ _) => True | _ => False end.

(** The states of a worker that runs one call of [renderAtlas] for [n]
    days: what it has posted, by control point. *)
Definition oneJob (n : nat) (s : Worker.State) : Prop :=
  ∃ j, Worker.jobs s = [j] ∧ Worker.numDays j = n
    ∧ match Worker.pc j with
      | Worker.AtDay d => (1 <= d <= n)%nat ∧ Worker.outbox s = progress n d
      | Worker.AwaitBlob | Worker.AwaitBuffer => Worker.outbox s = progress n n
      | Worker.Returned =>
          (∃ d, (d <= n)%nat ∧ Worker.outbox s = progress n d)
          ∨ Worker.outbox s = progress n n ++ [atlasMessage n]
      | Worker.Rejected => ∃ d, (d <= n)%nat ∧ Worker.outbox s = progress n d
      end.

(** The states of that worker once a cancel request has been handled while
    the call was suspended after day [k]. *)
Definition cancelledAfter (n k : nat) (s : Worker.State) : Prop :=
  Worker.cancelled s = true
  ∧ ∃ j, Worker.jobs s = [j] ∧ Worker.numDays j = n
      ∧ (Worker.pc j = Worker.AtDay k ∨ Worker.pc j = Worker.Returned)
      ∧ Worker.outbox s = progress n k.



End Vocabulary.


(** ** Further vocabulary *)

(** A value a Uint8ClampedArray can hold. *)
Definition isByte (b : Z) : Prop := 0 <= b <= 255.

Definition byteColor (c : rgb) : Prop :=
  isByte c.1.1 ∧ isByte c.1.2 ∧ isByte c.2.

(** One turn of the gathering loop of [bicubicSample], at the offsets
    [o = (dy, dx)], and the sixteen offsets in the order of the two loops. *)
Definition gatherStep `{JSNumber} (temps : list num) (latBase lngBase : Z)
    (st : num * Z * list num) (o : Z * Z) : num * Z * list num :=
  let '(validSum, validCount, raw) := st in
  let v := Render.getGridTemp temps (latBase + o.1) (lngBase + o.2) in
  let idx := (o.1 + 1) * 4 + (o.2 + 1) in
  let raw := <[Z.to_nat idx := toNumber v]> raw in
  if selfEqual v then ((validSum + toNumber v)%js, validCount + 1, raw)
  else (validSum, validCount, raw).

Definition gatherOrder : list (Z * Z) :=
  dy ← Render.offsets; dx ← Render.offsets; [(dy, dx)].

(** The [k]-th cell of the 4 x 4 neighbourhood, row by row. *)
Definition neighbour `{JSNumber} (temps : list num) (latBase lngBase : Z)
    (k : nat) : cell :=
  Render.getGridTemp temps (latBase + (Z.of_nat (k / 4) - 1))
    (lngBase + (Z.of_nat (k mod 4) - 1)).

(** What holds of the state of the gathering loop after [m] turns, in exact
    arithmetic. *)
Definition gatherInv (temps : list (@num exact)) (latBase lngBase : Z)
    (m : nat) (st : @num exact * Z * list (@num exact)) : Prop :=
  ∃ s cnt raw, st = (XFin s, cnt, raw) ∧ length raw = 16%nat
    ∧ 0 <= cnt <= Z.of_nat m
    ∧ (∀ k, (k < m)%nat →
         raw !! k = Some (@toNumber exact (neighbour temps latBase lngBase k)))
    ∧ (cnt = Z.of_nat m → ∀ k, (k < m)%nat → ∃ q, raw !! k = Some (XFin q))
    ∧ (cnt = 0 → ∀ k, (k < m)%nat → raw !! k = Some XNaN)
    ∧ ((∀ k, (k < m)%nat → raw !! k = Some XNaN) → cnt = 0).

(** The sample position in grid units, and the part of it past the cell. *)
Definition gridLat (la : Q) : Q :=
  (inject_Z Render.LAT_MAX - la) / inject_Z Render.GRID_STEP.
Definition gridLng (lo : Q) : Q :=
  (lo - inject_Z Render.LNG_MIN) / inject_Z Render.GRID_STEP.
Definition frac (g : Q) : Q := g - inject_Z (Qfloor g).

(** A frame of [w] x [h] pixels: four bytes a pixel, every pixel opaque. *)
Definition isFrame (w h : nat) (data : list Z) : Prop :=
  length data = (w * h * 4)%nat ∧ Forall isByte data
  ∧ ∀ i, (i < w * h)%nat → data !! (i * 4 + 3)%nat = Some 255.

Section WorkerVocabulary.
Context {N : JSNumber}.

(** The part of the buffer that [renderAtlas] hands to the renderer for
    [day]. *)
Definition daySlice (allTemps : list num) (day : nat) : list num :=
  subarray allTemps (day * Z.to_nat Worker.NUM_POINTS)
    ((day + 1) * Z.to_nat Worker.NUM_POINTS).

(** The tiles on the canvas: tile [d] sits at the corner of day [d] and
    holds the frame of that day. *)
Definition drawnOk (allTemps : list num) (opts : RenderOpts)
    (tiles : list (nat * nat * list Z)) : Prop :=
  ∀ d tile, tiles !! d = Some tile →
    tile.1 = Worker.tileOrigin d
    ∧ Worker.renderPixelData (daySlice allTemps d) opts Worker.FRAME_W Worker.FRAME_H
      = Some tile.2.

(** The states of a worker that runs one call: the canvas against the
    messages posted. *)
Definition tilesInv (temps : list num) (n : nat) (opts : RenderOpts)
    (s : Worker.State) : Prop :=
  ∃ j, Worker.jobs s = [j] ∧ Worker.allTemps j = temps ∧ Worker.numDays j = n
    ∧ Worker.opts j = opts ∧ drawnOk temps opts (Worker.drawn j)
    ∧ (length (Worker.drawn j) <= n)%nat
    ∧ match Worker.pc j with
      | Worker.AtDay d =>
          length (Worker.drawn j) = d ∧ Worker.outbox s = progress n d
      | Worker.AwaitBlob | Worker.AwaitBuffer =>
          length (Worker.drawn j) = n ∧ Worker.outbox s = progress n n
      | Worker.Returned =>
          Worker.outbox s = progress n (length (Worker.drawn j))
          ∨ (length (Worker.drawn j) = n
             ∧ Worker.outbox s = progress n n ++ [atlasMessage n])
      | Worker.Rejected => Worker.outbox s = progress n (length (Worker.drawn j))
      end.

End WorkerVocabulary.

(** ** Vocabulary of the blur *)

(** The channel [ch] of a colour. *)
Definition channel (c : rgb) (ch : Z) : Z :=
  if ch =? 0 then c.1.1 else if ch =? 1 then c.1.2 else c.2.

(** A buffer of [w * h] pixels that all have the colour [c]; nothing is
    said of the alpha bytes. *)
Definition uniformRGB (w h : nat) (c : rgb) (data : list Z) : Prop :=
  length data = (w * h * 4)%nat
  ∧ ∀ p ch, 0 <= p < Z.of_nat (w * h) → 0 <= ch < 3 →
      readZ data (p * 4 + ch) = Some (channel c ch).

(** What the two passes of [boxBlur] do along one line for one channel:
    [rd] reads the source at a position of the line and [wr] stores a value
    at a position of the destination. *)
Definition channelPass `{JSNumber} (rd : Z → num) (wr : list Z → Z → Z → list Z)
    (n : nat) (radius : Z) (d : list Z) : list Z :=
  let '(sum, count) :=
    fold_left (fun '(sum, count) x =>
      if x <=? radius then ((sum + rd x)%js, count + 1) else (sum, count))
      (Z.of_nat <$> seq 0 n) (of_Z 0, 0) in
  fst (fold_left (fun '(d, (sum, count)) x =>
    let d := wr d x (clamp8 (toInt32 (sum / of_Z count + dec 1 2)%js)) in
    let nx := x + radius + 1 in
    let '(sum, count) :=
      if nx <? Z.of_nat n then ((sum + rd nx)%js, count + 1) else (sum, count) in
    let ox := x - radius in
    let '(sum, count) :=
      if 0 <=? ox then ((sum - rd ox)%js, count - 1) else (sum, count) in
    (d, (sum, count)))
    (Z.of_nat <$> seq 0 n) (d, (sum, count))).

(** The window moves on by one position. *)
Definition slide `{JSNumber} (rd : Z → num) (limit radius x : Z)
    (sc : num * Z) : num * Z :=
  let '(sum, count) := sc in
  let nx := x + radius + 1 in
  let '(sum, count) :=
    if nx <? limit then ((sum + rd nx)%js, count + 1) else (sum, count) in
  let ox := x - radius in
  if 0 <=? ox then ((sum - rd ox)%js, count - 1) else (sum, count).

(** The number of positions of a line of [limit] that lie within [radius]
    of [x]. *)
Definition windowCount (limit radius x : Z) : Z :=
  Z.min (limit - 1) (x + radius) - Z.max 0 (x - radius) + 1.

(** The running sum and count at position [x] of a line on which every
    value is [c]. *)
Definition windowOk (c limit radius x : Z) (sc : @num exact * Z) : Prop :=
  sc.2 = windowCount limit radius x
  ∧ ∃ q, sc.1 = XFin q ∧ (q == inject_Z (sc.2 * c))%Q.

(** A grid whose cell in row [row] and column [col] holds
    [A * row + B * col + C]. *)
Definition affineGrid (temps : list (@num exact)) (A B C : Q) : Prop :=
  Z.of_nat (length temps) = Render.NUM_POINTS
  ∧ ∀ row col, 0 <= row <= 90 → 0 <= col <= 180 →
      ∃ v, readZ temps (row * Render.NUM_LNG + col) = Some (XFin v)
           ∧ (v == A * inject_Z row + B * inject_Z col + C)%Q.

(** The sixteen cells around a sample, row by row, and the numbers among
    them. *)
Definition neighbourhood `{JSNumber} (temps : list num) (latBase lngBase : Z)
    : list cell :=
  neighbour temps latBase lngBase <$> seq 0 16.

Definition finiteValues (cells : list (@cell exact)) : list Q :=
  omap (fun c : @cell exact =>
          match c with Some (XFin q) => Some q | _ => None end) cells.

Definition sumQ (l : list Q) : Q := foldr Qplus 0%Q l.

(** * Properties *)

(** ** Grid indexing *)

Section GridFacts.
Context {N : JSNumber}.

Lemma NUM_LAT_eq : Render.NUM_LAT = 91.
Proof. reflexivity. Qed.

Lemma NUM_LNG_eq : Render.NUM_LNG = 181.
Proof. reflexivity. Qed.

Lemma NUM_POINTS_eq : Render.NUM_POINTS = 16471.
Proof. reflexivity. Qed.

(** Within one period on either side of the grid, the single step of
    [gridIndex] is the wrap modulo [NUM_LNG]. *)
Lemma gridIndex_wrap (latIdx lngIdx : Z) :
  - Render.NUM_LNG <= lngIdx < 2 * Render.NUM_LNG →
  Render.gridIndex latIdx lngIdx =
    Z.max 0 (Z.min (Render.NUM_LAT - 1) latIdx) * Render.NUM_LNG
    + lngIdx mod Render.NUM_LNG.
Proof.
  rewrite NUM_LNG_eq. intros Hr. unfold Render.gridIndex.
  rewrite NUM_LNG_eq. f_equal.
  destruct (Z.ltb_spec lngIdx 0) as [Hn | Hn].
  - apply Z.mod_unique with (q := -1); lia.
  - destruct (Z.leb_spec 181 lngIdx) as [Hb | Hb].
    + apply Z.mod_unique with (q := 1); lia.
    + symmetry. apply Z.mod_small. lia.
Qed.

Lemma gridIndex_bounds (latIdx lngIdx : Z) :
  - Render.NUM_LNG <= lngIdx < 2 * Render.NUM_LNG →
  0 <= Render.gridIndex latIdx lngIdx < Render.NUM_POINTS.
Proof.
  intros Hr. rewrite gridIndex_wrap by exact Hr.
  rewrite NUM_POINTS_eq, NUM_LAT_eq, NUM_LNG_eq in *.
  pose proof (Z.mod_pos_bound lngIdx 181 ltac:(lia)) as Hm.
  nia.
Qed.

Lemma rampGrid_length : Z.of_nat (length rampGrid) = Render.NUM_POINTS.
Proof.
  unfold rampGrid. rewrite length_fmap, length_seq, NUM_POINTS_eq. lia.
Qed.

Lemma rampGrid_read (i : Z) :
  0 <= i < Render.NUM_POINTS → readZ rampGrid i = Some (of_Z i).
Proof.
  rewrite NUM_POINTS_eq. intros Hi. unfold readZ, rampGrid.
  destruct (Z.ltb_spec i 0) as [Hn | _]; [lia |].
  rewrite list_lookup_fmap, lookup_seq_lt by (rewrite NUM_POINTS_eq; lia).
  cbn. rewrite Z2Nat.id by lia. reflexivity.
Qed.

End GridFacts.

(** C6, as stated, at the column [2 * NUM_LNG]: on the grid whose cell [i]
    holds [i], [getGridTemp] reads cell 181, the first cell of the next row,
    not the cell of row 0 and column [362 mod 181 = 0]. *)
Lemma getGridTemp_two_periods :
  @Render.getGridTemp exact rampGrid 0 362 = Some (XFin (inject_Z 181)) ∧
  readZ (@rampGrid exact)
    (Z.max 0 (Z.min (Render.NUM_LAT - 1) 0) * Render.NUM_LNG
     + 362 mod Render.NUM_LNG) = Some (XFin (inject_Z 0)) ∧
  ¬ (∀ (temps : list (@num exact)) (latIdx lngIdx : Z),
       Z.of_nat (length temps) = Render.NUM_POINTS →
       Render.getGridTemp temps latIdx lngIdx =
         readZ temps
           (Z.max 0 (Z.min (Render.NUM_LAT - 1) latIdx) * Render.NUM_LNG
            + lngIdx mod Render.NUM_LNG)).
Proof.
  assert (H1 : @Render.getGridTemp exact rampGrid 0 362
               = Some (XFin (inject_Z 181)))
    by (apply (@rampGrid_read exact 181); rewrite NUM_POINTS_eq; lia).
  assert (H2 : readZ (@rampGrid exact)
      (Z.max 0 (Z.min (Render.NUM_LAT - 1) 0) * Render.NUM_LNG
       + 362 mod Render.NUM_LNG) = Some (XFin (inject_Z 0)))
    by (apply (@rampGrid_read exact 0); rewrite NUM_POINTS_eq; lia).
  split; [exact H1 | split; [exact H2 |]].
  intros Hall.
  specialize (Hall rampGrid 0 362 rampGrid_length).
  rewrite H1, H2 in Hall. discriminate Hall.
Qed.

(** C6 (amended): for every grid and every row index, and every column
    index within one period of the grid on either side
    ([-NUM_LNG <= lngIdx < 2 * NUM_LNG]), [getGridTemp] returns the cell at
    row [clamp(latIdx, 0, NUM_LAT - 1)] and column [lngIdx mod NUM_LNG]; in
    particular column -1 reads the cell of column [NUM_LNG - 1], column
    [NUM_LNG] the cell of column 0, row -5 the cell of row 0 and row
    [NUM_LAT + 5] the cell of row [NUM_LAT - 1]. *)
Theorem getGridTemp_wrap_clamp `{JSNumber} (temps : list num) (latIdx lngIdx : Z) :
  - Render.NUM_LNG <= lngIdx < 2 * Render.NUM_LNG →
  Render.getGridTemp temps latIdx lngIdx =
    readZ temps
      (Z.max 0 (Z.min (Render.NUM_LAT - 1) latIdx) * Render.NUM_LNG
       + lngIdx mod Render.NUM_LNG)
  ∧ Render.getGridTemp temps latIdx (-1)
    = Render.getGridTemp temps latIdx (Render.NUM_LNG - 1)
  ∧ Render.getGridTemp temps latIdx Render.NUM_LNG
    = Render.getGridTemp temps latIdx 0
  ∧ Render.getGridTemp temps (-5) lngIdx = Render.getGridTemp temps 0 lngIdx
  ∧ Render.getGridTemp temps (Render.NUM_LAT + 5) lngIdx
    = Render.getGridTemp temps (Render.NUM_LAT - 1) lngIdx.
Proof.
  intros Hr. unfold Render.getGridTemp.
  split; [rewrite gridIndex_wrap by exact Hr; reflexivity |].
  repeat split; reflexivity.
Qed.

Lemma getGridTemp_wrap_clamp_witness :
  - Render.NUM_LNG <= -3 < 2 * Render.NUM_LNG ∧
  @Render.getGridTemp exact rampGrid 200 (-3)
  = readZ rampGrid
      (Z.max 0 (Z.min (Render.NUM_LAT - 1) 200) * Render.NUM_LNG
       + (-3) mod Render.NUM_LNG).
Proof.
  assert (Hr : - Render.NUM_LNG <= -3 < 2 * Render.NUM_LNG)
    by (rewrite NUM_LNG_eq; lia).
  split; [exact Hr |].
  exact (proj1 (@getGridTemp_wrap_clamp exact rampGrid 200 (-3) Hr)).
Defined.

(** ** Atlas geometry *)

Section AtlasFacts.
Context {N : JSNumber}.

Lemma ceilDiv_spec (a b : Z) :
  0 < b → b * (Worker.ceilDiv a b - 1) < a <= b * Worker.ceilDiv a b.
Proof.
  intros Hb. unfold Worker.ceilDiv.
  pose proof (Z.div_mod (- a) b ltac:(lia)) as Hd.
  pose proof (Z.mod_pos_bound (- a) b Hb) as Hm.
  nia.
Qed.

Lemma atlasRows_pos (numDays : nat) :
  (1 <= numDays)%nat → 1 <= Worker.atlasRows numDays.
Proof.
  intros Hn. unfold Worker.atlasRows.
  pose proof (ceilDiv_spec (Z.of_nat numDays) (Z.of_nat Worker.ATLAS_COLS)
                ltac:(unfold Worker.ATLAS_COLS; lia)) as Hc.
  unfold Worker.ATLAS_COLS in *. nia.
Qed.

Lemma atlasH_spec (numDays : nat) :
  (1 <= numDays)%nat →
  Worker.atlasH numDays = 2 ^ Z.log2_up (Worker.rawH numDays)
  ∧ Worker.rawH numDays <= Worker.atlasH numDays
  ∧ ∀ k, 0 <= k → Worker.rawH numDays <= 2 ^ k → Worker.atlasH numDays <= 2 ^ k.
Proof.
  intros Hn. pose proof (atlasRows_pos numDays Hn) as Hr.
  assert (Hraw : 256 <= Worker.rawH numDays).
  { unfold Worker.rawH, Worker.FRAME_H. lia. }
  unfold Worker.atlasH.
  destruct (Z.leb_spec (Worker.rawH numDays) 0) as [Hle | Hlt]; [lia |].
  split; [reflexivity |]. split.
  - apply Z.log2_up_spec. lia.
  - intros k Hk Hp. apply Z.pow_le_mono_r; [lia |].
    apply Z.log2_up_le_pow2; lia.
Qed.

End AtlasFacts.



(** ** The colour ramp *)

Section RampFacts.
#[local] Existing Instance exact.

Lemma exact_leb (a b : Q) : leb (XFin a) (XFin b) = true ↔ (a <= b)%Q.
Proof. apply Qle_bool_iff. Qed.

Lemma exact_ltb (a b : Q) : ltb (XFin a) (XFin b) = true ↔ (a < b)%Q.
Proof.
  cbn. rewrite negb_true_iff. split.
  - intros Hf. apply Qnot_le_lt. intros Hle.
    apply Qle_bool_iff in Hle. congruence.
  - intros Hlt. destruct (Qle_bool b a) eqn:E; [| reflexivity].
    apply Qle_bool_iff in E. exfalso. exact (Qlt_not_le _ _ Hlt E).
Qed.


Lemma exact_ltb_fin (x y : xnum) :
  ltb x y = true → ∃ a b, x = XFin a ∧ y = XFin b ∧ (a < b)%Q.
Proof.
  destruct x as [| a], y as [| b]; cbn; try discriminate.
  intros Hl. exists a, b. repeat split. apply exact_ltb. exact Hl.
Qed.


Lemma exact_div_fin (a b : Q) :
  ¬ (b == 0)%Q → div (XFin a) (XFin b) = XFin (a / b).
Proof.
  intros Hb. cbn. destruct (Qeq_bool b 0) eqn:E; [| reflexivity].
  apply Qeq_bool_iff in E. contradiction.
Qed.

(** In a strictly increasing table the thresholds grow with the index. *)
Lemma strictlyIncreasing_lt (stops : list ColorStop) :
  strictlyIncreasing stops = true →
  ∀ i j a b, (i < j)%nat → stops !! i = Some a → stops !! j = Some b →
    ltb (Stop.t a) (Stop.t b) = true.
Proof.
  induction stops as [| s0 stops IH]; intros Hinc i j a b Hij Ha Hb.
  - discriminate Ha.
  - destruct stops as [| s1 stops'].
    + destruct j as [| j]; [lia |]. discriminate Hb.
    + cbn [strictlyIncreasing] in Hinc.
      apply andb_true_iff in Hinc as [H01 Hrest].
      destruct j as [| j]; [lia |].
      destruct i as [| i].
      * cbn in Ha. injection Ha as <-.
        destruct j as [| j].
        -- cbn in Hb. injection Hb as <-. exact H01.
        -- specialize (IH Hrest 0%nat (S j) s1 b ltac:(lia) eq_refl Hb).
           apply exact_ltb_fin in H01 as (q0 & q1 & E0 & E1 & L01).
           apply exact_ltb_fin in IH as (q1' & q2 & E1' & E2 & L12).
           rewrite E0, E2. rewrite E1 in E1'. injection E1' as <-.
           apply exact_ltb. eapply Qlt_trans; eassumption.
      * apply (IH Hrest i j a b); [lia | exact Ha | exact Hb].
Qed.


Lemma interpolate_exact (a b : ColorStop) (q ta tb : Q) :
  Stop.t a = XFin ta → Stop.t b = XFin tb → (ta < tb)%Q →
  Render.interpolate a b (XFin q)
  = lerpRGB (Stop.c a) (Stop.c b) ((q - ta) / (tb - ta)).
Proof.
  intros Ea Eb Hlt. unfold Render.interpolate, Render.lerp, lerpRGB, lerpQ.
  rewrite Ea, Eb.
  assert (Hne : ¬ (tb - ta == 0)%Q) by (intros E; lra).
  change (@sub exact (XFin tb) (XFin ta)) with (XFin (tb - ta)).
  change (@sub exact (XFin q) (XFin ta)) with (XFin (q - ta)).
  rewrite (exact_div_fin _ _ Hne).
  destruct (Stop.c a) as [[ar ag] ab], (Stop.c b) as [[br bg] bb].
  reflexivity.
Qed.





End RampFacts.



(** ** The resampler *)

Section SampleFacts.
Context {N : JSNumber}.

Lemma uniformGrid_replicate (v : num) :
  uniformGrid (replicate (Z.to_nat Render.NUM_POINTS) v) v.
Proof.
  split.
  - rewrite length_replicate, NUM_POINTS_eq. lia.
  - intros i x Hi. apply lookup_replicate in Hi as [-> _]. reflexivity.
Qed.

Lemma readZ_in_range {A} (a : list A) (i : Z) :
  0 <= i < Z.of_nat (length a) → ∃ x, readZ a i = Some x.
Proof.
  intros Hi. unfold readZ.
  destruct (Z.ltb_spec i 0) as [Hn | Hn]; [lia |].
  apply lookup_lt_is_Some_2. lia.
Qed.

Lemma readZ_Some {A} (a : list A) (i : Z) (x : A) :
  readZ a i = Some x → a !! Z.to_nat i = Some x.
Proof. unfold readZ. destruct (i <? 0); [discriminate | auto]. Qed.

Lemma getGridTemp_uniform (temps : list num) (v : num) (latIdx lngIdx : Z) :
  uniformGrid temps v →
  - Render.NUM_LNG <= lngIdx < 2 * Render.NUM_LNG →
  Render.getGridTemp temps latIdx lngIdx = Some v.
Proof.
  intros [Hlen Hall] Hr. unfold Render.getGridTemp.
  destruct (readZ_in_range temps (Render.gridIndex latIdx lngIdx)) as [x Hx].
  { rewrite Hlen. apply gridIndex_bounds. exact Hr. }
  rewrite Hx. f_equal. eapply Hall, readZ_Some, Hx.
Qed.

(** On a neighbourhood of equal values nothing is missing. *)
Lemma gather_uniform (temps : list num) (v : num) (latBase lngBase : Z) :
  (∀ dy dx, -1 <= dy <= 2 → -1 <= dx <= 2 →
     Render.getGridTemp temps (latBase + dy) (lngBase + dx) = Some v) →
  isNaN v = false →
  ∃ validSum, Render.gather temps latBase lngBase = (validSum, 16, replicate 16 v).
Proof.
  intros Hread Hv.
  unfold Render.gather, Render.offsets, selfEqual, notSelfEqual.
  cbn [fold_left].
  do 16 (rewrite Hread by lia; cbn [toNumber]; rewrite Hv; cbn [negb]).
  eexists. reflexivity.
Qed.

Lemma fillMissing_full (validSum : num) (raw : list num) :
  Render.fillMissing validSum 16 raw = raw.
Proof. reflexivity. Qed.

Lemma convolve_uniform (a0 a1 a2 a3 b0 b1 b2 b3 v : num) :
  Render.convolve [a0; a1; a2; a3] [b0; b1; b2; b3] (replicate 16 v)
  = (let rowVal := (of_Z 0 + b0 * v + b1 * v + b2 * v + b3 * v)%js in
     of_Z 0 + a0 * rowVal + a1 * rowVal + a2 * rowVal + a3 * rowVal)%js.
Proof. reflexivity. Qed.

End SampleFacts.

Section ExactSampleFacts.
#[local] Existing Instance exact.

Lemma exact_div_const (a : Q) (z : Z) :
  z ≠ 0 → @div exact (XFin a) (XFin (inject_Z z)) = XFin (a / inject_Z z).
Proof.
  intros Hz. apply exact_div_fin. unfold Qeq, inject_Z. cbn. lia.
Qed.

(** The four weights, in exact arithmetic. *)
Lemma catmullRomWeights_exact (t : Q) :
  @Render.catmullRomWeights exact (XFin t)
  = ([ XFin ((- (t * t * t) + inject_Z 2 * (t * t) - t) / inject_Z 2);
       XFin ((inject_Z 3 * (t * t * t) - inject_Z 5 * (t * t) + inject_Z 2) / inject_Z 2);
       XFin ((inject_Z (-3) * (t * t * t) + inject_Z 4 * (t * t) + t) / inject_Z 2);
       XFin ((t * t * t - t * t) / inject_Z 2) ] : list (@num exact)).
Proof.
  unfold Render.catmullRomWeights.
  cbn [add sub mul neg of_Z exact Exact.lift2 Exact.neg].
  rewrite !exact_div_const by discriminate. reflexivity.
Qed.


Lemma Qfloor_range (g : Q) (a b : Z) :
  (inject_Z a <= g)%Q → (g < inject_Z b)%Q → a <= Qfloor g < b.
Proof.
  intros Ha Hb. split.
  - rewrite <- (Qfloor_Z a). apply Qfloor_resp_le. exact Ha.
  - rewrite Zlt_Qlt. eapply Qle_lt_trans; [apply Qfloor_le | exact Hb].
Qed.

Lemma convolve_weights_exact (tLat tLng V : Q) :
  ∃ r, @Render.convolve exact (Render.catmullRomWeights (XFin tLat))
         (Render.catmullRomWeights (XFin tLng))
         (@replicate (@num exact) 16 (XFin V)) = XFin r
       ∧ (r == V)%Q.
Proof.
  rewrite !catmullRomWeights_exact.
  eexists. split.
  - etransitivity; [apply (@convolve_uniform exact) |].
    cbn [add sub mul neg of_Z exact Exact.lift2 Exact.neg]. reflexivity.
  - cbn beta. field.
Qed.

(** Resampling a grid of equal values, in exact arithmetic. *)
Lemma bicubicSample_uniform_exact (temps : list xnum) (V la lo : Q) :
  @uniformGrid exact temps (XFin V) →
  (inject_Z (-180) <= lo)%Q → (lo < inject_Z 180)%Q →
  ∃ r, @Render.bicubicSample exact temps (XFin la) (XFin lo) = XFin r ∧ (r == V)%Q.
Proof.
  intros Hu Hlo Hhi. unfold Render.bicubicSample.
  cbn [add sub mul neg of_Z exact Exact.lift2 Exact.neg].
  rewrite !exact_div_const by (vm_compute; discriminate).
  cbn [floor exact Exact.floor].
  set (gLat := ((inject_Z Render.LAT_MAX - la) / inject_Z Render.GRID_STEP)%Q).
  set (gLng := ((lo - inject_Z Render.LNG_MIN) / inject_Z Render.GRID_STEP)%Q).
  assert (Hbase : 0 <= Qfloor gLng < 180).
  { apply Qfloor_range; subst gLng;
      change (inject_Z Render.LNG_MIN) with (inject_Z (-180));
      change (inject_Z Render.GRID_STEP) with (inject_Z 2).
    - apply Qle_shift_div_l; [reflexivity |].
      change (inject_Z (-180)) with (- (180))%Q in *.
      change (inject_Z 0) with 0%Q. change (inject_Z 2) with 2%Q. lra.
    - apply Qlt_shift_div_r; [reflexivity |].
      change (inject_Z (-180)) with (- (180))%Q in *.
      change (inject_Z 180) with 180%Q in *. change (inject_Z 2) with 2%Q. lra. }
  destruct (@gather_uniform exact temps (XFin V) (Qfloor gLat) (Qfloor gLng))
    as [validSum ->].
  { intros dy dx Hdy Hdx. apply getGridTemp_uniform; [exact Hu |].
    rewrite NUM_LNG_eq. lia. }
  { reflexivity. }
  cbn [Z.eqb]. rewrite fillMissing_full.
  apply convolve_weights_exact.
Qed.

End ExactSampleFacts.

(** ** Grid reads of the rasterizer *)

Section ReadFacts.
Context {N : JSNumber}.

Lemma bicubicSample_base (temps : list num) (lat lng : num) :
  Render.bicubicSample temps lat lng =
    let '(validSum, validCount, raw) :=
      Render.gather temps (sampleBase lat lng).1 (sampleBase lat lng).2 in
    if validCount =? 0 then NaN
    else Render.convolve
           (Render.catmullRomWeights
              ((of_Z Render.LAT_MAX - lat) / of_Z Render.GRID_STEP
               - of_Z (sampleBase lat lng).1)%js)
           (Render.catmullRomWeights
              ((lng - of_Z Render.LNG_MIN) / of_Z Render.GRID_STEP
               - of_Z (sampleBase lat lng).2)%js)
           (Render.fillMissing validSum validCount raw).
Proof. reflexivity. Qed.

(** [isOceanNearest] looks one cell up, with the index rules of
    [getGridTemp]. *)
Lemma nearestIndex_gridIndex (lat lng : num) :
  Render.nearestIndex lat lng =
    Render.gridIndex
      (round ((of_Z Render.LAT_MAX - lat) / of_Z Render.GRID_STEP)%js)
      (round ((lng - of_Z Render.LNG_MIN) / of_Z Render.GRID_STEP)%js).
Proof. reflexivity. Qed.


End ReadFacts.

Section ExactReadFacts.
#[local] Existing Instance exact.

Lemma inject_Z_nat_pos (n : nat) : (1 <= n)%nat → (0 < inject_Z (Z.of_nat n))%Q.
Proof.
  intros Hn. change 0%Q with (inject_Z 0). rewrite <- Zlt_Qlt. lia.
Qed.

(** The fraction [i / n] of a pixel index lies in [0, 1). *)
Lemma pixel_fraction (i n : nat) :
  (i < n)%nat →
  (0 <= inject_Z (Z.of_nat i) / inject_Z (Z.of_nat n))%Q
  ∧ (inject_Z (Z.of_nat i) / inject_Z (Z.of_nat n) < 1)%Q.
Proof.
  intros Hi. pose proof (inject_Z_nat_pos n ltac:(lia)) as Hn. split.
  - apply Qle_shift_div_l; [exact Hn |]. rewrite Qmult_0_l.
    change 0%Q with (inject_Z 0). rewrite <- Zle_Qle. lia.
  - apply Qlt_shift_div_r; [exact Hn |]. rewrite Qmult_1_l.
    rewrite <- Zlt_Qlt. lia.
Qed.

Lemma pixelLat_exact (y h : nat) :
  (1 <= h)%nat →
  Render.pixelLat y h
  = XFin (inject_Z 90 - inject_Z (Z.of_nat y) / inject_Z (Z.of_nat h) * inject_Z 180).
Proof.
  intros Hh. unfold Render.pixelLat, of_nat.
  cbn [add sub mul neg of_Z exact Exact.lift2 Exact.neg].
  rewrite exact_div_const by lia. reflexivity.
Qed.

Lemma pixelLng_exact (x w : nat) :
  (1 <= w)%nat →
  Render.pixelLng x w
  = XFin (inject_Z (Z.of_nat x) / inject_Z (Z.of_nat w) * inject_Z 360 - inject_Z 180).
Proof.
  intros Hw. unfold Render.pixelLng, of_nat.
  cbn [add sub mul neg of_Z exact Exact.lift2 Exact.neg].
  rewrite exact_div_const by lia. reflexivity.
Qed.

(** The longitude of a pixel column lies in [-180, 180). *)
Lemma pixelLng_range (x w : nat) :
  (x < w)%nat →
  ∃ lo, Render.pixelLng x w = XFin lo
        ∧ (inject_Z (-180) <= lo)%Q ∧ (lo < inject_Z 180)%Q.
Proof.
  intros Hx. rewrite pixelLng_exact by lia.
  destruct (pixel_fraction x w Hx) as [H0 H1].
  eexists. split; [reflexivity |].
  set (r := (inject_Z (Z.of_nat x) / inject_Z (Z.of_nat w))%Q) in *.
  change (inject_Z 360) with 360%Q. change (inject_Z 180) with 180%Q.
  change (inject_Z (-180)) with (- (180))%Q.
  split; lra.
Qed.

(** A longitude in [-180, 180) lies, in grid units, in [0, 180). *)
Lemma gLng_range (lo : Q) :
  (inject_Z (-180) <= lo)%Q → (lo < inject_Z 180)%Q →
  ∃ g, ((XFin lo - of_Z Render.LNG_MIN) / of_Z Render.GRID_STEP)%js = XFin g
       ∧ (0 <= g)%Q ∧ (g < 180)%Q.
Proof.
  intros Hlo Hhi.
  cbn [add sub mul neg of_Z exact Exact.lift2 Exact.neg].
  rewrite exact_div_const by (vm_compute; discriminate).
  eexists. split; [reflexivity |].
  change (inject_Z Render.LNG_MIN) with (- (180))%Q.
  change (inject_Z Render.GRID_STEP) with 2%Q.
  change (inject_Z (-180)) with (- (180))%Q in Hlo.
  change (inject_Z 180) with 180%Q in Hhi.
  split.
  - apply Qle_shift_div_l; [reflexivity | lra].
  - apply Qlt_shift_div_r; [reflexivity | lra].
Qed.

Lemma sampleBase_lng_range (la lo : Q) :
  (inject_Z (-180) <= lo)%Q → (lo < inject_Z 180)%Q →
  0 <= (sampleBase (XFin la) (XFin lo)).2 <= 179.
Proof.
  intros Hlo Hhi. destruct (gLng_range lo Hlo Hhi) as (g & Eg & G0 & G1).
  unfold sampleBase. cbn [snd]. rewrite Eg. cbn [floor exact Exact.floor].
  pose proof (Qfloor_range g 0 180 G0 G1). lia.
Qed.

Lemma round_lng_range (lo : Q) :
  (inject_Z (-180) <= lo)%Q → (lo < inject_Z 180)%Q →
  0 <= round ((XFin lo - of_Z Render.LNG_MIN) / of_Z Render.GRID_STEP)%js <= 180.
Proof.
  intros Hlo Hhi. destruct (gLng_range lo Hlo Hhi) as (g & Eg & G0 & G1).
  rewrite Eg. cbn [round exact Exact.round].
  pose proof (Qfloor_range (g + (1 # 2)) 0 181
                ltac:(change (inject_Z 0) with 0%Q; lra)
                ltac:(change (inject_Z 181) with 181%Q; lra)).
  lia.
Qed.

End ExactReadFacts.

(** The read of [isOceanNearest] at a pixel, in exact arithmetic. *)
Lemma nearest_read_exact (w h x y : nat) :
  (x < w)%nat → (y < h)%nat →
  0 <= @Render.nearestIndex exact (Render.pixelLat y h) (Render.pixelLng x w)
    < Render.NUM_POINTS.
Proof.
  intros Hx Hy.
  destruct (pixelLng_range x w Hx) as (lo & Elng & Hlo & Hhi).
  rewrite nearestIndex_gridIndex. apply gridIndex_bounds.
  rewrite Elng, NUM_LNG_eq.
  pose proof (round_lng_range lo Hlo Hhi). lia.
Qed.






(** ** The rasterizer *)

Section BufferFacts.

Lemma clamp8_255 : clamp8 255 = 255.
Proof. reflexivity. Qed.

Lemma setPixel_length (data : list Z) (idx : nat) (r g b a : Z) :
  length (setPixel data idx r g b a) = length data.
Proof. unfold setPixel. rewrite !length_insert. reflexivity. Qed.

Lemma setPixel_pixelIs (data : list Z) (i : nat) (r g b a : Z) :
  (i * 4 + 3 < length data)%nat →
  pixelIs (setPixel data (i * 4) r g b a) i (clamp8 r) (clamp8 g) (clamp8 b) (clamp8 a).
Proof.
  intros Hi. unfold pixelIs, setPixel. repeat split.
  - rewrite !list_lookup_insert_ne by lia.
    apply list_lookup_insert_eq. lia.
  - rewrite !list_lookup_insert_ne by lia.
    apply list_lookup_insert_eq. rewrite !length_insert. lia.
  - rewrite list_lookup_insert_ne by lia.
    apply list_lookup_insert_eq. rewrite !length_insert. lia.
  - apply list_lookup_insert_eq. rewrite !length_insert. lia.
Qed.

Lemma setPixel_other (data : list Z) (i j : nat) (r g b a : Z) :
  (j < i * 4 ∨ i * 4 + 3 < j)%nat →
  setPixel data (i * 4) r g b a !! j = data !! j.
Proof.
  intros Hj. unfold setPixel. rewrite !list_lookup_insert_ne by lia. reflexivity.
Qed.

Lemma pixel_byte_mod (i c : nat) : (c < 4)%nat → ((i * 4 + c) mod 4 = c)%nat.
Proof.
  intros Hc. rewrite Nat.add_comm, Nat.Div0.mod_add. apply Nat.mod_small. exact Hc.
Qed.

Lemma setRGB_sameAlpha (data : list Z) (i : nat) (r g b : Z) :
  sameAlpha data (setRGB data (i * 4) r g b).
Proof.
  unfold sameAlpha, setRGB. rewrite !length_insert. split; [reflexivity |].
  intros j Hj.
  assert (Hne : j ≠ (i * 4)%nat ∧ j ≠ (i * 4 + 1)%nat ∧ j ≠ (i * 4 + 2)%nat).
  { pose proof (pixel_byte_mod i 0). pose proof (pixel_byte_mod i 1).
    pose proof (pixel_byte_mod i 2). rewrite Nat.add_0_r in *.
    repeat split; intros ->; lia. }
  rewrite !list_lookup_insert_ne by lia. reflexivity.
Qed.

Lemma setRGB_get (data : list Z) (i : nat) (r g b : Z) :
  (i * 4 + 2 < length data)%nat →
  setRGB data (i * 4) r g b !! (i * 4)%nat = Some (clamp8 r)
  ∧ setRGB data (i * 4) r g b !! (i * 4 + 1)%nat = Some (clamp8 g)
  ∧ setRGB data (i * 4) r g b !! (i * 4 + 2)%nat = Some (clamp8 b).
Proof.
  intros Hi. unfold setRGB. repeat split.
  - rewrite !list_lookup_insert_ne by lia. apply list_lookup_insert_eq. lia.
  - rewrite list_lookup_insert_ne by lia.
    apply list_lookup_insert_eq. rewrite !length_insert. lia.
  - apply list_lookup_insert_eq. rewrite !length_insert. lia.
Qed.

Lemma setRGB_other (data : list Z) (i j : nat) (r g b : Z) :
  (j < i * 4 ∨ i * 4 + 2 < j)%nat → setRGB data (i * 4) r g b !! j = data !! j.
Proof.
  intros Hj. unfold setRGB. rewrite !list_lookup_insert_ne by lia. reflexivity.
Qed.

Lemma sameAlpha_refl (d : list Z) : sameAlpha d d.
Proof. split; reflexivity. Qed.

Lemma sameAlpha_trans (d1 d2 d3 : list Z) :
  sameAlpha d1 d2 → sameAlpha d2 d3 → sameAlpha d1 d3.
Proof.
  intros [L12 A12] [L23 A23]. split; [congruence |].
  intros j Hj. rewrite A23, A12 by exact Hj. reflexivity.
Qed.

(** A store at a colour byte keeps the alpha bytes. *)
Lemma sameAlpha_insert (d : list Z) (p ch : Z) (v : Z) :
  0 <= p → 0 <= ch < 3 → sameAlpha d (<[Z.to_nat (p * 4 + ch) := v]> d).
Proof.
  intros Hp Hch. split; [apply length_insert |].
  intros j Hj. apply list_lookup_insert_ne. intros <-.
  replace (Z.to_nat (p * 4 + ch)) with (Z.to_nat p * 4 + Z.to_nat ch)%nat in Hj by lia.
  rewrite pixel_byte_mod in Hj by lia. lia.
Qed.

Lemma pixel_index_inj (w x y x' y' : nat) :
  (x < w)%nat → (x' < w)%nat → (y * w + x = y' * w + x')%nat → x = x' ∧ y = y'.
Proof.
  intros Hx Hx' He.
  destruct (lt_eq_lt_dec y y') as [[Hlt | Heq] | Hgt]; [nia | subst; lia | nia].
Qed.

Lemma fold_left_inv {S A} (f : S → A → S) (P : S → Prop) (l : list A) (s : S) :
  P s → (∀ t a, a ∈ l → P t → P (f t a)) → P (fold_left f l s).
Proof.
  revert s. induction l as [| a l IH]; intros s Hs Hstep; [exact Hs |].
  cbn. apply IH.
  - apply Hstep; [left | exact Hs].
  - intros t b Hb. apply Hstep. right. exact Hb.
Qed.

Lemma foldM_seq_inv {S} (f : S → nat → option S) (P : nat → S → Prop) (n : nat) :
  ∀ start s s',
    P start s →
    (∀ i t t', (start <= i < start + n)%nat → P i t → f t i = Some t' → P (Datatypes.S i) t') →
    foldM f (seq start n) s = Some s' → P (start + n)%nat s'.
Proof.
  induction n as [| n IH]; intros start s s' Hs Hstep Hrun.
  - cbn in Hrun. injection Hrun as <-. rewrite Nat.add_0_r. exact Hs.
  - cbn in Hrun. destruct (f s start) as [t |] eqn:Hf; [| discriminate].
    replace (start + Datatypes.S n)%nat with (Datatypes.S start + n)%nat by lia.
    apply (IH (Datatypes.S start) t s').
    + apply (Hstep start s t); [lia | exact Hs | exact Hf].
    + intros i u u' Hi. apply Hstep. lia.
    + exact Hrun.
Qed.

Lemma foldM_total {S A} (f : S → A → option S) (l : list A) (s : S) :
  (∀ t a, is_Some (f t a)) → is_Some (foldM f l s).
Proof.
  intros Hf. revert s. induction l as [| a l IH]; intros s; cbn.
  - eexists. reflexivity.
  - destruct (Hf s a) as [t ->]. apply IH.
Qed.

End BufferFacts.

Section RasterFacts.
Context {N : JSNumber}.

Lemma renderPixel_spec (temps : list num) (stops : option (list ColorStop))
    (w h y x : nat) (data oceanMask : list Z) :
  Render.renderPixel temps stops w h y (data, oceanMask) x =
    match pixelColor temps stops w h x y with
    | Some (r, g, b) =>
        Some (setPixel data ((y * w + x) * 4) r g b 255,
              <[(y * w + x)%nat := if oceanAt temps w h x y then 1 else 0]> oceanMask)
    | None => None
    end.
Proof.
  unfold Render.renderPixel, pixelColor, oceanAt.
  destruct (Render.isOceanNearest temps (Render.pixelLat y h) (Render.pixelLng x w));
    [reflexivity |].
  cbn zeta.
  destruct (Render.tempToRGB _ stops) as [[[r g] b] |]; reflexivity.
Qed.

Lemma rasterInv_step (temps : list num) (stops : option (list ColorStop))
    (w h x y : nat) (st st' : list Z * list Z) :
  (x < w)%nat → (y < h)%nat →
  rasterInv temps stops w h (y * w + x) st →
  Render.renderPixel temps stops w h y st x = Some st' →
  rasterInv temps stops w h (S (y * w + x)) st'.
Proof.
  intros Hx Hy (Hld & Hlm & Hpix) Hstep. destruct st as [data oceanMask].
  cbn [fst snd] in *. rewrite renderPixel_spec in Hstep.
  destruct (pixelColor temps stops w h x y) as [[[r g] b] |] eqn:Hc;
    [| discriminate].
  injection Hstep as <-. unfold rasterInv. cbn [fst snd].
  assert (Hin : (y * w + x < w * h)%nat) by nia.
  split; [rewrite setPixel_length; exact Hld |].
  split; [rewrite length_insert; exact Hlm |].
  intros x' y' Hx' Hy' Hk.
  destruct (decide (y' * w + x' = y * w + x)%nat) as [He | Hne].
  - destruct (pixel_index_inj w x' y' x y Hx' Hx He) as [-> ->]. split.
    + apply list_lookup_insert_eq. lia.
    + exists r, g, b. split; [exact Hc |].
      rewrite <- clamp8_255 at 2. apply setPixel_pixelIs. lia.
  - destruct (Hpix x' y' Hx' Hy' ltac:(lia)) as (Hm & r' & g' & b' & Hc' & Hp).
    split.
    + rewrite list_lookup_insert_ne by lia. exact Hm.
    + exists r', g', b'. split; [exact Hc' |].
      destruct Hp as (P0 & P1 & P2 & P3).
      unfold pixelIs. rewrite !setPixel_other by lia. auto.
Qed.

(** After the two loops every pixel holds its colour, with alpha 255, and
    the mask holds its ocean test. *)
Lemma renderRows_inv (temps : list num) (stops : option (list ColorStop))
    (w h : nat) (st : list Z * list Z) :
  Render.renderRows temps stops w h = Some st →
  rasterInv temps stops w h (h * w) st.
Proof.
  unfold Render.renderRows. intros Hrun.
  apply (foldM_seq_inv _ (fun y st => rasterInv temps stops w h (y * w) st) h 0 _ st)
    in Hrun; [exact Hrun | |].
  - split; [apply length_replicate |]. split; [apply length_replicate |].
    intros x y _ _ Hk. lia.
  - intros y t t' Hy Ht Hrow. cbn beta in *.
    apply (foldM_seq_inv _ (fun x st => rasterInv temps stops w h (y * w + x) st)
             w 0 t t') in Hrow.
    + replace (S y * w)%nat with (y * w + (0 + w))%nat by lia. exact Hrow.
    + rewrite Nat.add_0_r. exact Ht.
    + intros x u u' Hx Hu Hpx. cbn beta in *.
      replace (y * w + S x)%nat with (S (y * w + x)) by lia.
      apply (rasterInv_step temps stops w h x y u u'); [lia | lia | exact Hu | exact Hpx].
Qed.

(** With a table that has a first stop, [tempToRGB] does not throw. *)
Lemma tempToRGB_total (t : option num) (s : ColorStop) (stops : list ColorStop) :
  is_Some (Render.tempToRGB t (Some (s :: stops))).
Proof.
  unfold Render.tempToRGB. destruct t as [t |]; [| eexists; reflexivity].
  destruct (isNaN t); [eexists; reflexivity |].
  cbn [lookup list_lookup].
  destruct (last (s :: stops)) as [final |] eqn:Hl.
  - destruct (leb t (Stop.t s)); [eexists; reflexivity |].
    destruct (geb t (Stop.t final)); eexists; reflexivity.
  - rewrite last_cons in Hl. destruct (last stops); discriminate Hl.
Qed.

Lemma renderRows_total (temps : list num) (s : ColorStop) (stops : list ColorStop)
    (w h : nat) :
  is_Some (Render.renderRows temps (Some (s :: stops)) w h).
Proof.
  unfold Render.renderRows. apply foldM_total. intros st y.
  apply foldM_total. intros [data oceanMask] x.
  rewrite renderPixel_spec. unfold pixelColor.
  destruct (oceanAt temps w h x y); [eexists; reflexivity |].
  cbn zeta.
  destruct (tempToRGB_total
              (if isNaN (Render.bicubicSample temps (Render.pixelLat y h)
                           (Render.pixelLng x w))
               then None
               else Some (Render.bicubicSample temps (Render.pixelLat y h)
                            (Render.pixelLng x w)))
              s stops) as [[[r g] b] ->].
  eexists. reflexivity.
Qed.

(** The vertical pass stores colour bytes only. *)
Lemma blurCols_sameAlpha (dst data : list Z) (w h : nat) (radius : Z) :
  sameAlpha data (Render.blurCols dst w h radius data).
Proof.
  unfold Render.blurCols.
  apply (fold_left_inv _ (sameAlpha data)); [apply sameAlpha_refl |].
  intros d1 x Hx H1. apply list_elem_of_fmap in Hx as (x' & -> & _).
  apply (fold_left_inv _ (sameAlpha data)); [exact H1 |].
  intros d2 ch Hch H2.
  assert (Hc : 0 <= ch < 3).
  { repeat (apply elem_of_cons in Hch as [-> | Hch]; [lia |]).
    apply elem_of_nil in Hch. contradiction. }
  destruct (fold_left _ (Z.of_nat <$> seq 0 h) (of_Z 0, 0)) as [sum count].
  apply (fold_left_inv _ (fun st => sameAlpha data st.1)); [exact H2 |].
  intros [d3 [s c]] y Hy H3. apply list_elem_of_fmap in Hy as (y' & -> & _).
  cbn [fst] in H3 |- *.
  destruct (_ <? _); destruct (_ <=? _); cbn [fst];
    (eapply sameAlpha_trans; [exact H3 |]); apply sameAlpha_insert; lia.
Qed.

Lemma boxBlur_sameAlpha (data : list Z) (w h : nat) (radius : Z) (passes : nat) :
  sameAlpha data (Render.boxBlur data w h radius passes).
Proof.
  unfold Render.boxBlur.
  generalize (replicate (length data) 0) as dst0.
  induction passes as [| n IH]; intros dst0; [apply sameAlpha_refl |].
  rewrite Nat.iter_succ. specialize (IH dst0).
  destruct (Nat.iter n _ (data, dst0)) as [d dst]. cbn [fst] in *.
  eapply sameAlpha_trans; [exact IH | apply blurCols_sameAlpha].
Qed.

(** The stamping loop keeps the alpha bytes and leaves the pixels that the
    mask marks white. *)
Lemma restamp_spec (oceanMask data : list Z) :
  (length data = length oceanMask * 4)%nat →
  sameAlpha data (Render.restamp oceanMask data)
  ∧ ∀ i m, oceanMask !! i = Some m → m ≠ 0 →
      Render.restamp oceanMask data !! (i * 4)%nat = Some 255
      ∧ Render.restamp oceanMask data !! (i * 4 + 1)%nat = Some 255
      ∧ Render.restamp oceanMask data !! (i * 4 + 2)%nat = Some 255.
Proof.
  intros Hlen. unfold Render.restamp.
  set (f := fun (data : list Z) (i : nat) =>
              match oceanMask !! i with
              | Some m => if m =? 0 then data else setRGB data (i * 4) 255 255 255
              | None => data
              end).
  assert (Hinv : ∀ n k d, sameAlpha data d →
     (k + n <= length oceanMask)%nat →
     (∀ i m, (i < k)%nat → oceanMask !! i = Some m → m ≠ 0 →
        d !! (i * 4)%nat = Some 255 ∧ d !! (i * 4 + 1)%nat = Some 255
        ∧ d !! (i * 4 + 2)%nat = Some 255) →
     sameAlpha data (fold_left f (seq k n) d)
     ∧ ∀ i m, (i < k + n)%nat → oceanMask !! i = Some m → m ≠ 0 →
        fold_left f (seq k n) d !! (i * 4)%nat = Some 255
        ∧ fold_left f (seq k n) d !! (i * 4 + 1)%nat = Some 255
        ∧ fold_left f (seq k n) d !! (i * 4 + 2)%nat = Some 255).
  { induction n as [| n IH]; intros k d Hd Hk Hdone.
    - cbn. split; [exact Hd |]. intros i m Hi. apply Hdone. lia.
    - cbn [seq fold_left].
      replace (k + S n)%nat with (S k + n)%nat by lia.
      apply IH; [| lia |].
      + unfold f. destruct (oceanMask !! k) as [m |]; [| exact Hd].
        destruct (m =? 0); [exact Hd |].
        eapply sameAlpha_trans; [exact Hd | apply setRGB_sameAlpha].
      + intros i m Hi Hm Hnz.
        destruct (decide (i = k)) as [-> | Hne].
        * unfold f. rewrite Hm.
          destruct (Z.eqb_spec m 0) as [-> | _]; [contradiction |].
          apply setRGB_get. destruct Hd as [Hl _]. lia.
        * destruct (Hdone i m ltac:(lia) Hm Hnz) as (D0 & D1 & D2).
          unfold f. destruct (oceanMask !! k) as [m' |]; [| auto].
          destruct (m' =? 0); [auto |].
          rewrite !setRGB_other by lia. auto. }
  destruct (Hinv (length oceanMask) 0%nat data (sameAlpha_refl data) ltac:(lia)
              ltac:(intros i m Hi; lia)) as [Ha Hw].
  split; [exact Ha |]. intros i m Hm Hnz. apply (Hw i m); [| exact Hm | exact Hnz].
  apply lookup_lt_Some in Hm. lia.
Qed.

Lemma renderPixelData_total (temps : list num) (opts : RenderOpts)
    (s : ColorStop) (stops : list ColorStop) (w h : option nat) :
  Render.stopsOf opts = Some (s :: stops) →
  is_Some (Render.renderPixelData temps opts w h).
Proof.
  intros Hs. unfold Render.renderPixelData. rewrite Hs.
  destruct (renderRows_total temps s stops (default Render.RENDER_WIDTH w)
              (default Render.RENDER_HEIGHT h)) as [[data oceanMask] ->].
  destruct (gtb (blurRadius opts) (of_Z 0)); eexists; reflexivity.
Qed.

(** The frame [renderPixelData] returns, pixel by pixel: an ocean pixel is
    opaque white whatever the blur; without blur the other pixels hold their
    colour. *)
Lemma renderPixelData_pixels (temps : list num) (opts : RenderOpts)
    (w h : nat) (data : list Z) (x y : nat) :
  Render.renderPixelData temps opts (Some w) (Some h) = Some data →
  (x < w)%nat → (y < h)%nat →
  (oceanAt temps w h x y = true → pixelIs data (y * w + x) 255 255 255 255)
  ∧ (gtb (blurRadius opts) (of_Z 0) = false →
       ∃ r g b, pixelColor temps (Render.stopsOf opts) w h x y = Some (r, g, b)
                ∧ pixelIs data (y * w + x) (clamp8 r) (clamp8 g) (clamp8 b) 255).
Proof.
  unfold Render.renderPixelData. cbn [default from_option id].
  destruct (Render.renderRows temps (Render.stopsOf opts) w h)
    as [[raster oceanMask] |] eqn:Hrows; [| intros E; discriminate E].
  intros Hdata Hx Hy.
  destruct (renderRows_inv _ _ _ _ _ Hrows) as (Hld & Hlm & Hpix).
  cbn [fst snd] in *.
  destruct (Hpix x y Hx Hy ltac:(nia)) as (Hm & r & g & b & Hc & Hp).
  assert (Hocean : oceanAt temps w h x y = true → pixelIs raster (y * w + x) 255 255 255 255).
  { intros Ho. unfold pixelColor in Hc. rewrite Ho in Hc.
    injection Hc as <- <- <-. exact Hp. }
  destruct (gtb (blurRadius opts) (of_Z 0)) eqn:Hblur.
  - split; [| intros E; discriminate E]. intros Ho. injection Hdata as <-.
    rewrite Ho in Hm.
    set (radius := Z.max 1 _).
    pose proof (boxBlur_sameAlpha raster w h radius 3) as [Hbl Hba].
    destruct (restamp_spec oceanMask (Render.boxBlur raster w h radius 3)
                ltac:(lia)) as [[Hrl Hra] Hwhite].
    destruct (Hwhite (y * w + x)%nat 1 Hm ltac:(lia)) as (W0 & W1 & W2).
    destruct (Hocean Ho) as (_ & _ & _ & A).
    unfold pixelIs. repeat split; try assumption.
    rewrite Hra, Hba by (apply pixel_byte_mod; lia). exact A.
  - injection Hdata as <-. split; [exact Hocean |].
    intros _. exists r, g, b. split; [exact Hc | exact Hp].
Qed.

End RasterFacts.

(** C1: for every grid, every options value and every output size, each
    pixel of the frame returned by [renderPixelData] whose nearest grid cell,
    as [isOceanNearest] computes it, holds the missing-data value is opaque
    white (255, 255, 255, 255), whatever the blur radius: with blur the three
    passes of [boxBlur] leave the alpha bytes alone and the ocean pixels are
    stamped white again. *)
Theorem ocean_pixels_white `{JSNumber} (temps : list num) (opts : RenderOpts)
    (w h : option nat) (data : list Z) (x y : nat) :
  let width := default Render.RENDER_WIDTH w in
  let height := default Render.RENDER_HEIGHT h in
  Render.renderPixelData temps opts w h = Some data →
  (x < width)%nat → (y < height)%nat →
  Render.isOceanNearest temps (Render.pixelLat y height) (Render.pixelLng x width) = true →
  pixelIs data (y * width + x) 255 255 255 255.
Proof.
  intros width height Hdata Hx Hy Hocean.
  assert (Hd : Render.renderPixelData temps opts (Some width) (Some height) = Some data)
    by exact Hdata.
  exact (proj1 (renderPixelData_pixels temps opts width height data x y Hd Hx Hy) Hocean).
Qed.

Lemma ocean_pixels_white_witness :
  let temps := <[0%nat := @NaN ieee]> (replicate (Z.to_nat Render.NUM_POINTS) (of_Z 20)) in
  @Render.renderPixelData ieee temps blurredOpts (Some 2%nat) (Some 1%nat)
  = Some [255; 255; 255; 255; 255; 243; 151; 255]
  ∧ (0 < 2)%nat ∧ (0 < 1)%nat
  ∧ @Render.isOceanNearest ieee temps (Render.pixelLat 0 1) (Render.pixelLng 0 2) = true
  ∧ pixelIs [255; 255; 255; 255; 255; 243; 151; 255] 0 255 255 255 255.
Proof.
  intros temps.
  assert (Hr : @Render.renderPixelData ieee temps blurredOpts (Some 2%nat) (Some 1%nat)
               = Some [255; 255; 255; 255; 255; 243; 151; 255])
    by (vm_compute; reflexivity).
  assert (H2 : (0 < 2)%nat) by lia. assert (H1 : (0 < 1)%nat) by lia.
  assert (Ho : @Render.isOceanNearest ieee temps (Render.pixelLat 0 1)
                 (Render.pixelLng 0 2) = true) by (vm_compute; reflexivity).
  split; [exact Hr |]. split; [exact H2 |]. split; [exact H1 |]. split; [exact Ho |].
  exact (@ocean_pixels_white ieee temps blurredOpts (Some 2%nat) (Some 1%nat) _ 0 0
           Hr H2 H1 Ho).
Defined.

(** ** A grid of one value, end to end *)

Section ExactRasterFacts.
#[local] Existing Instance exact.

Lemma leb_same (q q' : Q) (x : xnum) :
  (q == q')%Q →
  @leb exact (XFin q) x = @leb exact (XFin q') x
  ∧ @leb exact x (XFin q) = @leb exact x (XFin q').
Proof.
  intros Hq. destruct x as [| a]; cbn; [split; reflexivity |].
  rewrite Hq. split; reflexivity.
Qed.

Lemma interpolate_same (a b : ColorStop) (q q' : Q) :
  (q == q')%Q →
  @Render.interpolate exact a b (XFin q) = @Render.interpolate exact a b (XFin q').
Proof.
  intros Hq. unfold Render.interpolate, Render.lerp.
  destruct (Stop.t a) as [| ta], (Stop.t b) as [| tb];
    cbn [add sub mul neg of_Z div exact Exact.lift2 Exact.neg Exact.div];
    try reflexivity.
  destruct (Qeq_bool (tb - ta) 0); [reflexivity |].
  destruct (Stop.c a) as [[ar ag] ab], (Stop.c b) as [[br bg] bb].
  cbn [round exact Exact.round Exact.lift2].
  f_equal; [f_equal |]; apply Qfloor_comp; rewrite Hq; reflexivity.
Qed.

Lemma tempToRGB_scan_same (stops : list ColorStop) (q q' : Q) (n i : nat) :
  (q == q')%Q →
  @Render.tempToRGB_scan exact (XFin q) stops n i
  = @Render.tempToRGB_scan exact (XFin q') stops n i.
Proof.
  intros Hq. revert i. induction n as [| n IH]; intros i; [reflexivity |].
  cbn [Render.tempToRGB_scan].
  destruct (stops !! i) as [a |]; [| reflexivity].
  destruct (stops !! S i) as [b |]; [| reflexivity].
  unfold geb.
  rewrite (proj2 (leb_same q q' (Stop.t a) Hq)), (proj1 (leb_same q q' (Stop.t b) Hq)).
  rewrite (interpolate_same a b q q' Hq), IH. reflexivity.
Qed.

(** [tempToRGB] depends on the value of its argument only. *)
Lemma tempToRGB_same (stops : option (list ColorStop)) (q q' : Q) :
  (q == q')%Q →
  @Render.tempToRGB exact (Some (XFin q)) stops
  = @Render.tempToRGB exact (Some (XFin q')) stops.
Proof.
  intros Hq. unfold Render.tempToRGB. cbn [isNaN exact Exact.isNaN].
  destruct stops as [stops |]; [| reflexivity].
  destruct (stops !! 0%nat) as [first |]; [| reflexivity].
  destruct (last stops) as [final |]; [| reflexivity].
  unfold geb.
  rewrite (proj1 (leb_same q q' (Stop.t first) Hq)),
          (proj2 (leb_same q q' (Stop.t final) Hq)).
  rewrite (tempToRGB_scan_same stops q q' _ _ Hq). reflexivity.
Qed.

(** On a grid of one value no pixel is ocean and every pixel has the colour
    of that value. *)
Lemma pixelColor_uniform_exact (temps : list (@num exact)) (V : Q)
    (stops : option (list ColorStop)) (w h x y : nat) :
  @uniformGrid exact temps (XFin V) → (x < w)%nat → (y < h)%nat →
  @oceanAt exact temps w h x y = false
  ∧ @pixelColor exact temps stops w h x y
    = @Render.tempToRGB exact (Some (XFin V)) stops.
Proof.
  intros Hu Hx Hy.
  destruct (readZ_in_range temps
              (@Render.nearestIndex exact (Render.pixelLat y h) (Render.pixelLng x w)))
    as [v Hv]; [rewrite (proj1 Hu); apply nearest_read_exact; assumption |].
  assert (Ho : @oceanAt exact temps w h x y = false).
  { unfold oceanAt, Render.isOceanNearest. rewrite Hv.
    rewrite (proj2 Hu _ v (readZ_Some _ _ _ Hv)). reflexivity. }
  split; [exact Ho |].
  unfold pixelColor. rewrite Ho.
  destruct (pixelLng_range x w Hx) as (lo & -> & Hlo & Hhi).
  rewrite (pixelLat_exact y h) by lia.
  match goal with
  | |- context [Render.bicubicSample _ (XFin ?la) _] =>
      destruct (bicubicSample_uniform_exact temps V la lo Hu Hlo Hhi) as (r & Er & Hr)
  end.
  cbn zeta. rewrite Er.
  cbn [isNaN exact Exact.isNaN]. apply tempToRGB_same. exact Hr.
Qed.

End ExactRasterFacts.




(** ** The two copies of the renderer *)

Section CopyFacts.
Context {N : JSNumber}.

Lemma tables_copies :
  Worker.THERMAL_STOPS = Render.THERMAL_STOPS
  ∧ Worker.CLASSIC_STOPS = Render.CLASSIC_STOPS
  ∧ Worker.EARTH_STOPS = Render.EARTH_STOPS
  ∧ Worker.VIVID_STOPS = Render.VIVID_STOPS
  ∧ Worker.COLORWAY_MAP = Render.COLORWAY_MAP.
Proof. repeat split; reflexivity. Qed.

Lemma constants_copies :
  Worker.NUM_LAT = Render.NUM_LAT ∧ Worker.NUM_LNG = Render.NUM_LNG
  ∧ Worker.NUM_POINTS = Render.NUM_POINTS.
Proof. repeat split; reflexivity. Qed.

Lemma tempToRGB_copies (t : option num) (stops : option (list ColorStop)) :
  Worker.tempToRGB t stops = Render.tempToRGB t stops.
Proof. reflexivity. Qed.

Lemma bicubicSample_copies (temps : list num) (lat lng : num) :
  Worker.bicubicSample temps lat lng = Render.bicubicSample temps lat lng.
Proof. reflexivity. Qed.

Lemma isOceanNearest_copies (temps : list num) (lat lng : num) :
  Worker.isOceanNearest temps lat lng = Render.isOceanNearest temps lat lng.
Proof. reflexivity. Qed.

Lemma boxBlur_copies (data : list Z) (w h : nat) (radius : Z) (passes : nat) :
  Worker.boxBlur data w h radius passes = Render.boxBlur data w h radius passes.
Proof. reflexivity. Qed.

Lemma renderPixelData_copies (temps : list num) (opts : RenderOpts) (w h : nat) :
  Worker.renderPixelData temps opts w h
  = Render.renderPixelData temps opts (Some w) (Some h).
Proof. reflexivity. Qed.

End CopyFacts.

(** C9: the copy of the renderer that the worker inlines agrees with the
    rendering module on every input: [renderPixelData] at an explicit width
    and height returns the same buffer, element by element, and
    [tempToRGB], [bicubicSample], [boxBlur] and the four named stop tables
    are the same. *)
Theorem worker_copy_agrees `{JSNumber} :
  (∀ temps opts w h,
     Worker.renderPixelData temps opts w h
     = Render.renderPixelData temps opts (Some w) (Some h))
  ∧ (∀ temps opts w h i,
       (Worker.renderPixelData temps opts w h ≫= (.!! i))
       = (Render.renderPixelData temps opts (Some w) (Some h) ≫= (.!! i)))
  ∧ (∀ t stops, Worker.tempToRGB t stops = Render.tempToRGB t stops)
  ∧ (∀ temps lat lng,
       Worker.bicubicSample temps lat lng = Render.bicubicSample temps lat lng)
  ∧ (∀ data w h radius passes,
       Worker.boxBlur data w h radius passes = Render.boxBlur data w h radius passes)
  ∧ Worker.THERMAL_STOPS = Render.THERMAL_STOPS
  ∧ Worker.CLASSIC_STOPS = Render.CLASSIC_STOPS
  ∧ Worker.EARTH_STOPS = Render.EARTH_STOPS
  ∧ Worker.VIVID_STOPS = Render.VIVID_STOPS.
Proof.
  split; [exact renderPixelData_copies |].
  split; [intros temps opts w h i; rewrite renderPixelData_copies; reflexivity |].
  split; [exact tempToRGB_copies |].
  split; [exact bicubicSample_copies |].
  split; [exact boxBlur_copies |].
  destruct tables_copies as (T & C & E & V & _). auto.
Qed.

(** ** The atlas job *)

Section JobFacts.
Context {N : JSNumber}.

Lemma progressSeq_app (n day k k' : nat) :
  progressSeq n day k ++ progressSeq n (day + k) k' = progressSeq n day (k + k').
Proof.
  unfold progressSeq. rewrite <- fmap_app. f_equal.
  rewrite seq_app. do 2 f_equal. lia.
Qed.

Lemma progressSeq_cons (n day k : nat) :
  Worker.Progress (day + 1) n :: progressSeq n (S day) k = progressSeq n day (S k).
Proof.
  unfold progressSeq. cbn [seq fmap list_fmap].
  replace (S (day + 1)) with (S day + 1)%nat by lia. reflexivity.
Qed.

Lemma atlas_not_progress (n k cols fw fh m : nat) (rows : Z) :
  Worker.Atlas m cols rows fw fh ∉ progressSeq n 0 k.
Proof.
  unfold progressSeq. intros Hin.
  apply list_elem_of_fmap in Hin as (d & Hd & _). discriminate Hd.
Qed.

Lemma renderDays_cancelled (rem : nat) (j : Worker.Job) (day : nat) :
  Worker.renderDays true rem j day = ([], Worker.at_pc j Worker.Returned).
Proof. destruct rem; reflexivity. Qed.

Lemma worker_renderPixelData_total (temps : list num) (opts : RenderOpts) (w h : nat) :
  validStops opts → is_Some (Worker.renderPixelData temps opts w h).
Proof.
  intros (s & stops & Hs). rewrite renderPixelData_copies.
  apply (renderPixelData_total temps opts s stops). exact Hs.
Qed.

(** One run of the loop while the flag is down: it posts the progress of
    [k] more days, in order, and stops at the [await] after the last of them,
    at the end of the loop, or on an exception of the renderer, which a valid
    table excludes. *)
Lemma renderDays_running (rem : nat) :
  ∀ (j : Worker.Job) (day : nat),
    ∃ k j', Worker.renderDays false rem j day = (progressSeq (Worker.numDays j) day k, j')
      ∧ sameCall j j' ∧ (k <= rem)%nat
      ∧ ((Worker.pc j' = Worker.AtDay (day + k) ∧ (1 <= k)%nat)
         ∨ (Worker.pc j' = Worker.AwaitBlob ∧ k = rem)
         ∨ (Worker.pc j' = Worker.Rejected ∧ ¬ validStops (Worker.opts j))).
Proof.
  induction rem as [| rem IH]; intros j day.
  - exists 0%nat, (Worker.at_pc j Worker.AwaitBlob).
    repeat split; auto.
  - cbn [Worker.renderDays].
    destruct (Worker.renderPixelData _ (Worker.opts j) Worker.FRAME_W Worker.FRAME_H)
      as [pixels |] eqn:Hr.
    + destruct (day mod 5 =? 0)%nat.
      * exists 1%nat, (Worker.at_pc (Worker.draw j day pixels) (Worker.AtDay (S day))).
        repeat split; [lia |]. left. cbn. split; [f_equal; lia | lia].
      * destruct (IH (Worker.draw j day pixels) (S day)) as (k & j' & -> & Hs & Hk & Hpc).
        exists (S k), j'. split.
        { cbn [Worker.numDays Worker.draw]. rewrite progressSeq_cons. reflexivity. }
        split; [exact Hs |]. split; [lia |].
        destruct Hpc as [[Hp Hk1] | [[Hp ->] | [Hp Hv]]].
        -- left. split; [rewrite Hp; f_equal; lia | lia].
        -- right. left. split; [exact Hp | reflexivity].
        -- right. right. split; [exact Hp | exact Hv].
    + exists 0%nat, (Worker.at_pc j Worker.Rejected).
      repeat split; [lia |]. right. right. split; [reflexivity |].
      intros Hv.
      destruct (worker_renderPixelData_total
                  (subarray (Worker.allTemps j) (day * Z.to_nat Worker.NUM_POINTS)
                     ((day + 1) * Z.to_nat Worker.NUM_POINTS))
                  (Worker.opts j) Worker.FRAME_W Worker.FRAME_H Hv) as [px Hpx].
      rewrite Hpx in Hr. discriminate Hr.
Qed.

Lemma run_inv (I : Worker.State → Prop) (events : list Worker.Event) (s : Worker.State) :
  (∀ t e, ¬ isStart e → I t → I (Worker.step t e)) →
  Forall (fun e => ¬ isStart e) events → I s → I (Worker.run events s).
Proof.
  intros Hstep Hev. revert s. unfold Worker.run.
  induction Hev as [| e events He _ IH]; intros s Hs; [exact Hs |].
  cbn [fold_left]. apply IH. apply Hstep; assumption.
Qed.

Lemma oneJob_start (temps : list num) (n : nat) (opts : RenderOpts) :
  oneJob n (Worker.step Worker.initial (Worker.Receive (Worker.Start temps n opts))).
Proof.
  cbn [Worker.step Worker.onmessage]. unfold Worker.renderAtlas.
  destruct (renderDays_running n (Worker.mkJob temps n opts [] (Worker.AtDay 0)) 0)
    as (k & j' & -> & (_ & Hn & _) & Hk & Hpc).
  cbn [Worker.numDays] in *. exists j'. cbn. split; [reflexivity |].
  split; [exact Hn |].
  destruct Hpc as [[-> Hk1] | [[-> ->] | [-> _]]].
  - split; [lia | reflexivity].
  - reflexivity.
  - exists k. split; [lia | reflexivity].
Qed.

Lemma oneJob_step (n : nat) (s : Worker.State) (e : Worker.Event) :
  ¬ isStart e → oneJob n s → oneJob n (Worker.step s e).
Proof.
  intros He (j & Hj & Hn & Hout).
  destruct e as [[temps m o |] | i]; [contradiction He; exact I | |].
  - exists j. auto.
  - cbn [Worker.step]. rewrite Hj.
    destruct i as [| i]; [| exists j; auto].
    cbn [lookup list_lookup]. unfold Worker.resume.
    destruct (Worker.pc j) as [d | | | |] eqn:Hpc.
    + destruct Hout as [Hd Ho].
      destruct (Worker.cancelled s).
      * rewrite renderDays_cancelled. eexists. cbn. split; [reflexivity |].
        split; [exact Hn |]. left. exists d. rewrite app_nil_r. split; [lia | exact Ho].
      * destruct (renderDays_running (Worker.numDays j - d) j d)
          as (k & j' & -> & (_ & Hn' & _) & Hk & Hpc').
        exists j'. cbn. split; [reflexivity |]. split; [congruence |].
        rewrite Ho, Hn. unfold progress.
        replace (progressSeq n 0 d ++ progressSeq n d k) with (progressSeq n 0 (d + k))
          by (symmetry; apply (progressSeq_app n 0 d k)).
        destruct Hpc' as [[-> Hk1] | [[-> ->] | [-> _]]].
        -- split; [lia | reflexivity].
        -- f_equal. lia.
        -- exists (d + k)%nat. split; [lia | reflexivity].
    + eexists. cbn. split; [reflexivity |]. split; [exact Hn |].
      rewrite app_nil_r. exact Hout.
    + eexists. cbn. split; [reflexivity |]. split; [exact Hn |].
      right. rewrite Hout, Hn. reflexivity.
    + exists j. cbn. rewrite app_nil_r, Hpc. auto.
    + exists j. cbn. rewrite app_nil_r, Hpc. auto.
Qed.

Lemma cancelledAfter_step (n k : nat) (s : Worker.State) (e : Worker.Event) :
  ¬ isStart e → cancelledAfter n k s → cancelledAfter n k (Worker.step s e).
Proof.
  intros He (Hc & j & Hj & Hn & Hpc & Hout).
  destruct e as [[temps m o |] | i]; [contradiction He; exact I | |].
  - split; [reflexivity |]. exists j. auto.
  - cbn [Worker.step]. rewrite Hj.
    destruct i as [| i]; [| split; [exact Hc |]; exists j; auto].
    cbn [lookup list_lookup]. unfold Worker.resume. rewrite Hc.
    destruct Hpc as [Hpc | Hpc]; rewrite Hpc.
    + rewrite renderDays_cancelled. split; [reflexivity |].
      exists (Worker.at_pc j Worker.Returned). cbn. rewrite app_nil_r.
      split; [reflexivity |]. split; [exact Hn |].
      split; [right; reflexivity | exact Hout].
    + split; [reflexivity |]. exists j. cbn. rewrite app_nil_r.
      split; [reflexivity |]. split; [exact Hn |].
      split; [right; exact Hpc | exact Hout].
Qed.

Lemma resumes_not_start (r i : nat) :
  Forall (fun e => ¬ isStart e) (replicate r (Worker.Resume i)).
Proof. apply Forall_replicate. intros []. Qed.

Lemma run_cons (e : Worker.Event) (events : list Worker.Event) (s : Worker.State) :
  Worker.run (e :: events) s = Worker.run events (Worker.step s e).
Proof. reflexivity. Qed.

(** The atlas message is posted after the progress of all the days, or not
    at all. *)
Lemma atlas_after_all_days (temps : list num) (n : nat) (opts : RenderOpts)
    (events : list Worker.Event) (m cols fw fh : nat) (rows : Z) :
  Forall (fun e => ¬ isStart e) events →
  let s := Worker.run (Worker.Receive (Worker.Start temps n opts) :: events)
             Worker.initial in
  Worker.Atlas m cols rows fw fh ∈ Worker.outbox s →
  Worker.outbox s = progress n n ++ [atlasMessage n].
Proof.
  intros Hev s Hin.
  assert (H1 : oneJob n s).
  { subst s. rewrite run_cons.
    apply (run_inv (oneJob n)); [apply oneJob_step | exact Hev | apply oneJob_start]. }
  destruct H1 as (j & _ & _ & Hout).
  destruct (Worker.pc j).
  - destruct Hout as [_ Ho]. rewrite Ho in Hin.
    exfalso. exact (atlas_not_progress _ _ _ _ _ _ _ Hin).
  - rewrite Hout in Hin. exfalso. exact (atlas_not_progress _ _ _ _ _ _ _ Hin).
  - rewrite Hout in Hin. exfalso. exact (atlas_not_progress _ _ _ _ _ _ _ Hin).
  - destruct Hout as [(d & _ & Ho) | Ho]; [| exact Ho].
    rewrite Ho in Hin. exfalso. exact (atlas_not_progress _ _ _ _ _ _ _ Hin).
  - destruct Hout as (d & _ & Ho). rewrite Ho in Hin.
    exfalso. exact (atlas_not_progress _ _ _ _ _ _ _ Hin).
Qed.

(** The flag is read at the head of each day and once after the loop: a
    cancel request handled while the atlas is being encoded does not hold
    the atlas message back. *)
Lemma cancel_while_encoding (s : Worker.State) (j : Worker.Job) :
  Worker.jobs s = [j] → Worker.pc j = Worker.AwaitBlob →
  Worker.outbox
    (Worker.run [Worker.Receive Worker.Cancel; Worker.Resume 0; Worker.Resume 0] s)
  = Worker.outbox s ++ [atlasMessage (Worker.numDays j)].
Proof.
  intros Hj Hpc. unfold Worker.run.
  cbn [fold_left Worker.step Worker.onmessage Worker.jobs Worker.cancelled
         Worker.outbox].
  rewrite Hj. cbn [lookup list_lookup]. unfold Worker.resume. rewrite Hpc.
  cbn. rewrite app_nil_r. reflexivity.
Qed.




End JobFacts.

Lemma thermalOpts_valid `{JSNumber} : validStops thermalOpts.
Proof. eexists _, _. reflexivity. Qed.

(** C3: when a cancel request is handled while the job is suspended after
    day [k], before day [k + 1] starts, the job has posted the [k] progress
    messages [(1, numDays) .. (k, numDays)], in order, and posts nothing more:
    no atlas message and no other message, whatever is received or resumed
    afterwards (short of a new start request).  An atlas message is posted
    only after the progress messages of all [numDays] days. *)
Theorem cancel_between_days `{JSNumber} (temps : list num) (n : nat)
    (opts : RenderOpts) (r k : nat) (rest : list Worker.Event) :
  let s1 := Worker.run (Worker.Receive (Worker.Start temps n opts)
                        :: replicate r (Worker.Resume 0)) Worker.initial in
  (∃ j, Worker.jobs s1 !! 0%nat = Some j ∧ Worker.pc j = Worker.AtDay k) →
  Forall (fun e => ¬ isStart e) rest →
  Worker.outbox s1 = (fun d => Worker.Progress d n) <$> seq 1 k
  ∧ Worker.outbox (Worker.run (Worker.Receive Worker.Cancel :: rest) s1)
    = (fun d => Worker.Progress d n) <$> seq 1 k
  ∧ ∀ events m cols rows fw fh,
      Forall (fun e => ¬ isStart e) events →
      let s := Worker.run (Worker.Receive (Worker.Start temps n opts) :: events)
                 Worker.initial in
      Worker.Atlas m cols rows fw fh ∈ Worker.outbox s →
      Worker.outbox s
      = ((fun d => Worker.Progress d n) <$> seq 1 n)
        ++ [Worker.Atlas n 16 (Worker.atlasRows n) 512 256].
Proof.
  intros s1 (j & Hj & Hpc) Hrest.
  assert (H1 : oneJob n s1).
  { subst s1. rewrite run_cons.
    apply (run_inv (oneJob n)); [apply oneJob_step | apply resumes_not_start |].
    apply oneJob_start. }
  destruct H1 as (j1 & Hj1 & Hn & Hout).
  rewrite Hj1 in Hj. cbn in Hj. injection Hj as ->.
  rewrite Hpc in Hout. destruct Hout as [Hk Hout].
  split; [exact Hout |]. split.
  - rewrite run_cons.
    assert (Hc : cancelledAfter n k (Worker.step s1 (Worker.Receive Worker.Cancel))).
    { split; [reflexivity |]. exists j. cbn. auto. }
    destruct (run_inv (cancelledAfter n k) rest _ (cancelledAfter_step n k) Hrest Hc)
      as (_ & _ & _ & _ & _ & Hfinal).
    exact Hfinal.
  - intros events m cols rows fw fh Hev s Hin.
    exact (atlas_after_all_days temps n opts events m cols fw fh rows Hev Hin).
Qed.

Lemma cancel_between_days_witness :
  let s1 := @Worker.run ieee [Worker.Receive (Worker.Start [] 2 thermalOpts)]
              Worker.initial in
  let rest := [Worker.Resume 0; Worker.Resume 0; Worker.Receive Worker.Cancel] in
  (∃ j, Worker.jobs s1 !! 0%nat = Some j ∧ Worker.pc j = Worker.AtDay 1)
  ∧ Forall (fun e => ¬ isStart e) rest
  ∧ Worker.outbox (Worker.run (Worker.Receive Worker.Cancel :: rest) s1)
    = [Worker.Progress 1 2].
Proof.
  intros s1 rest.
  assert (Hk : ∃ j, Worker.jobs s1 !! 0%nat = Some j ∧ Worker.pc j = Worker.AtDay 1).
  { subst s1. unfold Worker.run. cbn [fold_left Worker.step Worker.onmessage Worker.renderAtlas Worker.renderDays].
    destruct (@worker_renderPixelData_total ieee
                (subarray [] (0 * Z.to_nat Worker.NUM_POINTS)
                   ((0 + 1) * Z.to_nat Worker.NUM_POINTS))
                thermalOpts Worker.FRAME_W Worker.FRAME_H thermalOpts_valid)
      as [pixels Hpx].
    cbn [Worker.opts Worker.allTemps]. rewrite Hpx.
    eexists. split; reflexivity. }
  assert (Hrest : Forall (fun e => ¬ @isStart ieee e) rest)
    by (subst rest; repeat constructor; intros []).
  split; [exact Hk |]. split; [exact Hrest |].
  exact (proj1 (proj2 (@cancel_between_days ieee [] 2 thermalOpts 0 1 rest Hk Hrest))).
Defined.




(** * Further properties of the code *)

(** ** Tiles of the atlas *)

(** X1: the tile of a day is inside the atlas canvas, and the days of a job
    get tiles of their own: for [d < numDays] the column is below 16 and the
    row below [atlasRows], the tile drawn at [tileOrigin d] ends within
    [atlasW] and [atlasH], [d] is read back as [row * 16 + col], and two days
    with the same tile are the same day. *)
Theorem tiles_inside_atlas (numDays d d' : nat) :
  (d < numDays)%nat →
  (Worker.tileCol d < 16)%nat
  ∧ Z.of_nat (Worker.tileRow d) < Worker.atlasRows numDays
  ∧ Z.of_nat (Worker.tileOrigin d).1 + 512 <= Worker.atlasW
  ∧ Z.of_nat (Worker.tileOrigin d).2 + 256 <= Worker.atlasH numDays
  ∧ d = (Worker.tileRow d * 16 + Worker.tileCol d)%nat
  ∧ (Worker.tileOrigin d = Worker.tileOrigin d' → d = d').
Proof.
  intros Hd.
  unfold Worker.tileOrigin, Worker.tileCol, Worker.tileRow, Worker.atlasW,
    Worker.ATLAS_COLS, Worker.FRAME_W, Worker.FRAME_H. cbn [fst snd].
  pose proof (Nat.mod_upper_bound d 16 ltac:(lia)) as Hc.
  pose proof (Nat.div_mod_eq d 16) as Hdm.
  pose proof (Nat.mod_upper_bound d' 16 ltac:(lia)) as Hc'.
  pose proof (Nat.div_mod_eq d' 16) as Hdm'.
  assert (Hrows : 16 * (Worker.atlasRows numDays - 1) < Z.of_nat numDays
                  <= 16 * Worker.atlasRows numDays)
    by (apply (ceilDiv_spec (Z.of_nat numDays) 16); lia).
  destruct (atlasH_spec numDays ltac:(lia)) as (_ & Hge & _).
  unfold Worker.rawH, Worker.FRAME_H in Hge.
  generalize dependent (d / 16)%nat. generalize dependent (d mod 16)%nat.
  generalize dependent (d' / 16)%nat. generalize dependent (d' mod 16)%nat.
  intros m' Hc' q' Hdm' m Hc q Hdm.
  assert (Hrow : Z.of_nat q < Worker.atlasRows numDays) by lia.
  repeat split; try lia.
  intros Heq. injection Heq as Hx Hy. lia.
Qed.

Lemma tiles_inside_atlas_witness :
  (364 < 365)%nat
  ∧ Z.of_nat (Worker.tileOrigin 364).2 + 256 <= Worker.atlasH 365.
Proof.
  assert (Hd : (364 < 365)%nat) by lia.
  split; [exact Hd |].
  destruct (tiles_inside_atlas 365 364 0 Hd) as (_ & _ & _ & Hh & _).
  exact Hh.
Defined.

(** ** Range of the colour ramp *)

Section RampRange.
#[local] Existing Instance exact.

Lemma lerpQ_between (x y : Z) (p : Q) :
  (0 <= p)%Q → (p <= 1)%Q → Z.min x y <= lerpQ x y p <= Z.max x y.
Proof.
  intros H0 H1. unfold lerpQ.
  assert (Hr : Z.min x y <= Qfloor (inject_Z x + (inject_Z y - inject_Z x) * p + (1 # 2))
               < Z.max x y + 1); [| lia].
  apply Qfloor_range.
  - destruct (Z.le_ge_cases x y) as [Hxy | Hxy].
    + rewrite Z.min_l by lia. rewrite Zle_Qle in Hxy. nra.
    + rewrite Z.min_r by lia. rewrite Zle_Qle in Hxy. nra.
  - rewrite inject_Z_plus. change (inject_Z 1) with 1%Q.
    destruct (Z.le_ge_cases x y) as [Hxy | Hxy].
    + rewrite Z.max_r by lia. rewrite Zle_Qle in Hxy. nra.
    + rewrite Z.max_l by lia. rewrite Zle_Qle in Hxy. nra.
Qed.

Lemma lerpRGB_bytes (ca cb : rgb) (p : Q) :
  byteColor ca → byteColor cb → (0 <= p)%Q → (p <= 1)%Q →
  byteColor (lerpRGB ca cb p).
Proof.
  destruct ca as [[ar ag] ab], cb as [[br bg] bb].
  unfold byteColor, isByte. cbn [fst snd lerpRGB].
  intros (Ha1 & Ha2 & Ha3) (Hb1 & Hb2 & Hb3) H0 H1.
  pose proof (lerpQ_between ar br p H0 H1).
  pose proof (lerpQ_between ag bg p H0 H1).
  pose proof (lerpQ_between ab bb p H0 H1).
  lia.
Qed.

Lemma white_byteColor : byteColor white.
Proof. unfold byteColor, isByte, white. cbn. lia. Qed.

Lemma stop_byteColor (stops : list ColorStop) (i : nat) (s : ColorStop) :
  Forall (fun s => byteColor (Stop.c s)) stops → stops !! i = Some s →
  byteColor (Stop.c s).
Proof. intros Hall Hs. exact (Forall_lookup_1 _ _ _ _ Hall Hs). Qed.

Lemma scan_bytes (stops : list ColorStop) (q : Q) (n i : nat) :
  strictlyIncreasing stops = true →
  Forall (fun s => byteColor (Stop.c s)) stops →
  byteColor (@Render.tempToRGB_scan exact (XFin q) stops n i).
Proof.
  intros Hinc Hall. revert i.
  induction n as [| n IH]; intros i; [apply white_byteColor |].
  cbn [Render.tempToRGB_scan].
  destruct (stops !! i) as [a |] eqn:Ha; [| apply white_byteColor].
  destruct (stops !! S i) as [b |] eqn:Hb; [| apply white_byteColor].
  destruct (@geb exact (XFin q) (Stop.t a) && @leb exact (XFin q) (Stop.t b)) eqn:Hin;
    [| apply IH].
  apply andb_true_iff in Hin as [Hge Hle].
  destruct (exact_ltb_fin _ _ (strictlyIncreasing_lt stops Hinc i (S i) a b
              ltac:(lia) Ha Hb)) as (ta & tb & Ea & Eb & Hab).
  rewrite Ea in Hge. rewrite Eb in Hle.
  apply exact_leb in Hge, Hle.
  rewrite (interpolate_exact a b q ta tb Ea Eb Hab).
  apply lerpRGB_bytes.
  - exact (stop_byteColor stops i a Hall Ha).
  - exact (stop_byteColor stops (S i) b Hall Hb).
  - apply Qle_shift_div_l; lra.
  - apply Qle_shift_div_r; lra.
Qed.

End RampRange.

(** X2: with a table of one stop or more whose thresholds increase strictly
    and whose colours are bytes, [tempToRGB] does not throw and every channel
    it returns is a byte, for every input, missing or not: the interpolation
    never leaves the range of the two stops it lies between.  (Numbers are
    exact here.) *)
Theorem tempToRGB_bytes (stops : list (@ColorStop exact)) (t : option (@num exact)) :
  stops ≠ [] → @strictlyIncreasing exact stops = true →
  Forall (fun s => byteColor (Stop.c s)) stops →
  ∃ c, @Render.tempToRGB exact t (Some stops) = Some c ∧ byteColor c.
Proof.
  intros Hne Hinc Hall. unfold Render.tempToRGB.
  destruct t as [[| q] |]; try (eexists; split; [reflexivity | apply white_byteColor]).
  cbn [isNaN exact Exact.isNaN].
  destruct stops as [| s0 rest]; [contradiction |].
  cbn [lookup list_lookup].
  destruct (last (s0 :: rest)) as [final |] eqn:Hlast.
  - destruct (@leb exact (XFin q) (Stop.t s0)).
    + eexists. split; [reflexivity |].
      exact (stop_byteColor (s0 :: rest) 0 s0 Hall eq_refl).
    + destruct (@geb exact (XFin q) (Stop.t final)).
      * eexists. split; [reflexivity |].
        rewrite last_lookup in Hlast.
        exact (stop_byteColor (s0 :: rest) _ final Hall Hlast).
      * eexists. split; [reflexivity |]. apply scan_bytes; assumption.
  - rewrite last_cons in Hlast. destruct (last rest); discriminate Hlast.
Qed.

Lemma tempToRGB_bytes_witness :
  @Render.THERMAL_STOPS exact ≠ []
  ∧ @strictlyIncreasing exact Render.THERMAL_STOPS = true
  ∧ Forall (fun s => byteColor (Stop.c s)) (@Render.THERMAL_STOPS exact)
  ∧ ∃ c, @Render.tempToRGB exact (Some (XFin (267 # 10))) (Some Render.THERMAL_STOPS)
         = Some c ∧ byteColor c.
Proof.
  assert (Hne : @Render.THERMAL_STOPS exact ≠ []) by discriminate.
  assert (Hinc : @strictlyIncreasing exact Render.THERMAL_STOPS = true)
    by (vm_compute; reflexivity).
  assert (Hall : Forall (fun s => byteColor (Stop.c s)) (@Render.THERMAL_STOPS exact)).
  { unfold Render.THERMAL_STOPS.
    repeat (constructor; [unfold byteColor, isByte; cbn; lia |]). constructor. }
  split; [exact Hne |]. split; [exact Hinc |]. split; [exact Hall |].
  exact (tempToRGB_bytes _ (Some (XFin (267 # 10))) Hne Hinc Hall).
Defined.

(** ** The interpolation kernel *)

(** X3: the four weights of [catmullRomWeights], in exact arithmetic: at the
    offset 0 they are 0, 1, 0, 0, so that a sample at a grid position is the
    grid value; the weights at [1 - t] are the weights at [t] in reverse
    order; and they reproduce straight lines, the weighted sum of the
    positions -1, 0, 1, 2 being [t] itself. *)
Theorem catmullRomWeights_kernel (t : Q) :
  ∃ w0 w1 w2 w3 v0 v1 v2 v3 z0 z1 z2 z3,
    @Render.catmullRomWeights exact (XFin t) = [XFin w0; XFin w1; XFin w2; XFin w3]
    ∧ @Render.catmullRomWeights exact (XFin (1 - t)) = [XFin v0; XFin v1; XFin v2; XFin v3]
    ∧ @Render.catmullRomWeights exact (XFin 0) = [XFin z0; XFin z1; XFin z2; XFin z3]
    ∧ (z0 == 0 ∧ z1 == 1 ∧ z2 == 0 ∧ z3 == 0)%Q
    ∧ (v0 == w3 ∧ v1 == w2 ∧ v2 == w1 ∧ v3 == w0)%Q
    ∧ (- w0 + 0 * w1 + w2 + 2 * w3 == t)%Q.
Proof.
  do 12 eexists.
  split; [apply catmullRomWeights_exact |].
  split; [apply catmullRomWeights_exact |].
  split; [apply catmullRomWeights_exact |].
  split; [repeat split; field |].
  split; [repeat split; field | field].
Qed.

(** ** The neighbourhood of a sample *)

Section GatherFacts.
Context {N : JSNumber}.

Lemma fold_left_nested {S A B} (h : A → S → B → S) (la : list A)
    (lb : list B) (s : S) :
  fold_left (fun st a => fold_left (h a) lb st) la s
  = fold_left (fun st o => h o.1 st o.2) (a ← la; b ← lb; [(a, b)]) s.
Proof.
  revert s. induction la as [| a la IH]; intros s; [reflexivity |].
  cbn [fold_left mbind list_bind]. rewrite fold_left_app, <- IH. f_equal.
  clear IH. revert s. induction lb as [| b lb IH]; intros s; [reflexivity |].
  cbn [fold_left mbind list_bind mret list_ret app]. apply IH.
Qed.

Lemma fold_left_ext {S A} (f g : S → A → S) (l : list A) (s : S) :
  (∀ s a, f s a = g s a) → fold_left f l s = fold_left g l s.
Proof.
  intros Hfg. revert s. induction l as [| a l IH]; intros s; [reflexivity |].
  cbn [fold_left]. rewrite Hfg. apply IH.
Qed.

Lemma gather_steps (temps : list num) (latBase lngBase : Z) :
  Render.gather temps latBase lngBase
  = fold_left (gatherStep temps latBase lngBase) gatherOrder
      (of_Z 0, 0, replicate 16 (of_Z 0)).
Proof.
  unfold Render.gather, gatherOrder.
  etransitivity; [apply fold_left_nested |].
  apply fold_left_ext. intros [[validSum validCount] raw] [dy dx]. reflexivity.
Qed.

Lemma gatherOrder_lookup (k : nat) (o : Z * Z) :
  gatherOrder !! k = Some o →
  (k < 16)%nat ∧ o = (Z.of_nat (k / 4) - 1, Z.of_nat (k mod 4) - 1)
  ∧ Z.to_nat ((o.1 + 1) * 4 + (o.2 + 1)) = k.
Proof.
  intros Hk.
  do 16 (destruct k as [| k];
         [cbn in Hk; injection Hk as <-; repeat split; lia |]).
  discriminate Hk.
Qed.

Lemma fold_left_indexed {S A} (f : S → A → S) (P : nat → S → Prop)
    (l : list A) (s0 : S) :
  P 0%nat s0 →
  (∀ k a s, l !! k = Some a → P k s → P (Datatypes.S k) (f s a)) →
  P (length l) (fold_left f l s0).
Proof.
  intros H0 Hstep.
  assert (Hgen : ∀ l' m s, P m s →
            (∀ k a t, l' !! k = Some a → P (m + k)%nat t → P (Datatypes.S (m + k)) (f t a)) →
            P (m + length l')%nat (fold_left f l' s)).
  { induction l' as [| a l' IH]; intros m s Hs Hst.
    - cbn. rewrite Nat.add_0_r. exact Hs.
    - cbn [fold_left length].
      replace (m + Datatypes.S (length l'))%nat with (Datatypes.S m + length l')%nat by lia.
      apply IH.
      + specialize (Hst 0%nat a s eq_refl). rewrite Nat.add_0_r in Hst. auto.
      + intros k b t Hb Ht.
        replace (Datatypes.S m + k)%nat with (m + Datatypes.S k)%nat in * by lia.
        apply (Hst (Datatypes.S k) b t Hb Ht). }
  exact (Hgen l 0%nat s0 H0 Hstep).
Qed.

End GatherFacts.

Section GatherExact.
#[local] Existing Instance exact.

Lemma gather_exact (temps : list (@num exact)) (latBase lngBase : Z) :
  (∀ k, (k < 16)%nat → is_Some (neighbour temps latBase lngBase k)) →
  gatherInv temps latBase lngBase 16 (Render.gather temps latBase lngBase).
Proof.
  intros Hsome. rewrite gather_steps.
  change 16%nat with (length gatherOrder).
  apply (fold_left_indexed (gatherStep temps latBase lngBase)
           (gatherInv temps latBase lngBase)).
  - exists (inject_Z 0), 0, (replicate 16 (@of_Z exact 0)).
    split; [reflexivity |]. split; [apply length_replicate |].
    split; [lia |]. repeat split; intros; lia.
  - intros k o st Ho
      (s & cnt & raw & -> & Hlen & Hcnt & Hraw & Hall & Hnone & Hzero).
    destruct (gatherOrder_lookup _ _ Ho) as (Hk & -> & Hidx).
    unfold gatherStep. rewrite Hidx. cbn [fst snd].
    change (Render.getGridTemp temps (latBase + (Z.of_nat (k / 4) - 1))
              (lngBase + (Z.of_nat (k mod 4) - 1)))
      with (neighbour temps latBase lngBase k).
    destruct (Hsome k Hk) as [v Hv].
    destruct (neighbour temps latBase lngBase k) as [v' |] eqn:Hn;
      [| discriminate Hv].
    clear v Hv.
    assert (Hlook : ∀ v (r : list (@num exact)), length r = 16%nat →
              (∀ j, (j < k)%nat → r !! j = Some (@toNumber exact (neighbour temps latBase lngBase j))) →
              ∀ j, (j < S k)%nat →
              <[k := v]> r !! j
              = Some (if decide (j = k) then v
                      else @toNumber exact (neighbour temps latBase lngBase j))).
    { intros v r Hr Hold j Hj. destruct (decide (j = k)) as [-> | Hne].
      - apply list_lookup_insert_eq. lia.
      - rewrite list_lookup_insert_ne by auto. apply Hold. lia. }
    destruct v' as [| q]; cbn [selfEqual notSelfEqual isNaN exact Exact.isNaN negb toNumber].
    + exists s, cnt, (<[k := XNaN]> raw).
      split; [reflexivity |]. split; [rewrite length_insert; exact Hlen |].
      split; [lia |]. split; [| split; [| split]].
      * intros j Hj. pose proof (Hlook XNaN raw Hlen Hraw j Hj) as E.
        destruct (decide (j = k)) as [-> | _]; (etransitivity; [exact E |]);
          [rewrite Hn |]; reflexivity.
      * intros Hc. lia.
      * intros Hc j Hj. pose proof (Hlook XNaN raw Hlen Hraw j Hj) as E.
        destruct (decide (j = k)) as [-> | Hne]; (etransitivity; [exact E |]);
          [reflexivity |].
        etransitivity; [symmetry; apply Hraw; lia | apply Hnone; [exact Hc | lia]].
      * intros Hnew. apply Hzero. intros j Hj.
        etransitivity; [| apply (Hnew j); lia].
        symmetry. apply list_lookup_insert_ne. lia.
    + exists (s + q)%Q, (cnt + 1), (<[k := XFin q]> raw).
      split; [reflexivity |]. split; [rewrite length_insert; exact Hlen |].
      split; [lia |]. split; [| split; [| split]].
      * intros j Hj. pose proof (Hlook (XFin q) raw Hlen Hraw j Hj) as E.
        destruct (decide (j = k)) as [-> | _]; (etransitivity; [exact E |]);
          [rewrite Hn |]; reflexivity.
      * intros Hc j Hj. pose proof (Hlook (XFin q) raw Hlen Hraw j Hj) as E.
        destruct (decide (j = k)) as [-> | Hne]; [exists q; exact E |].
        destruct (Hall ltac:(lia) j ltac:(lia)) as [q' Hq'].
        exists q'. etransitivity; [exact E |].
        etransitivity; [symmetry; apply Hraw; lia | exact Hq'].
      * intros Hc. lia.
      * intros Hnew. pose proof (Hlook (XFin q) raw Hlen Hraw k ltac:(lia)) as E.
        destruct (decide (k = k)) as [_ | Hne]; [| congruence].
        discriminate (eq_trans (eq_sym E) (Hnew k ltac:(lia))).
Qed.

Lemma fill_loop (f : @num exact) (m : Q) (raw : list (@num exact)) :
  f = XFin m → length raw = 16%nat →
  let r := fold_left (fun (raw : list (@num exact)) i =>
                        if @isNaN exact (at_ raw i) then <[i := f]> raw else raw)
             (seq 0 16) raw in
  length r = 16%nat
  ∧ ∀ k, (k < 16)%nat →
      (raw !! k = Some XNaN → r !! k = Some (XFin m))
      ∧ (∀ q, raw !! k = Some (XFin q) → r !! k = Some (XFin q)).
Proof.
  intros -> Hlen r.
  assert (H : length r = 16%nat
              ∧ (∀ k, (k < length (seq 0 16))%nat →
                   (raw !! k = Some XNaN → r !! k = Some (XFin m))
                   ∧ (∀ q, raw !! k = Some (XFin q) → r !! k = Some (XFin q)))
              ∧ (∀ k, (length (seq 0 16) <= k)%nat → r !! k = raw !! k)).
  { subst r.
    apply (fold_left_indexed
             (fun (raw : list (@num exact)) i =>
                if @isNaN exact (at_ raw i) then <[i := XFin m]> raw else raw)
             (fun n (r : list (@num exact)) =>
                length r = 16%nat
                ∧ (∀ k, (k < n)%nat →
                     (raw !! k = Some XNaN → r !! k = Some (XFin m))
                     ∧ (∀ q, raw !! k = Some (XFin q) → r !! k = Some (XFin q)))
                ∧ (∀ k, (n <= k)%nat → r !! k = raw !! k))).
    - split; [exact Hlen |]. split; [intros; lia | reflexivity].
    - intros k i r Hi (Hr & Hdone & Hrest).
      apply lookup_seq in Hi. destruct Hi as [-> Hk]. cbn [Nat.add].
      assert (Hrk : r !! k = raw !! k) by (apply Hrest; lia).
      assert (Hkl : (k < length raw)%nat) by (rewrite Hlen; exact Hk).
      destruct (lookup_lt_is_Some_2 raw k Hkl) as [x Hx].
      unfold at_.
      destruct (r !! k) as [x' |] eqn:Hx'; [| congruence].
      assert (x' = x) by congruence. subst x'.
      cbn [toNumber]. destruct x as [| q]; cbn [isNaN exact Exact.isNaN].
      + split; [rewrite length_insert; exact Hr |]. split.
        * intros j Hj. destruct (decide (j = k)) as [-> | Hne].
          -- split; [intros _; apply list_lookup_insert_eq;
                     exact (eq_ind_r (fun n => (k < n)%nat) Hk Hr)
                    | intros q' Hq'; discriminate (eq_trans (eq_sym Hx) Hq')].
          -- rewrite list_lookup_insert_ne by auto. apply Hdone. lia.
        * intros j Hj. rewrite list_lookup_insert_ne by lia. apply Hrest. lia.
      + split; [exact Hr |]. split.
        * intros j Hj. destruct (decide (j = k)) as [-> | Hne].
          -- split; [intros Hq'; discriminate (eq_trans (eq_sym Hx) Hq') |].
             intros q' Hq'. exact (eq_trans Hx' (eq_trans (eq_sym Hx) Hq')).
          -- apply Hdone. lia.
        * intros j Hj. apply Hrest. lia. }
  destruct H as (Hr & Hdone & _). split; [exact Hr | exact Hdone].
Qed.

(** [fillMissing] keeps the values it finds and puts the mean of the valid
    ones where a value is missing. *)
Lemma fillMissing_exact (s : Q) (cnt : Z) (raw : list (@num exact)) :
  length raw = 16%nat → 1 <= cnt <= 16 →
  (cnt = 16 → ∀ k, (k < 16)%nat → ∃ q, raw !! k = Some (XFin q)) →
  length (Render.fillMissing (XFin s) cnt raw) = 16%nat
  ∧ ∀ k, (k < 16)%nat →
      (raw !! k = Some XNaN →
         Render.fillMissing (XFin s) cnt raw !! k = Some (XFin (s / inject_Z cnt)))
      ∧ (∀ q, raw !! k = Some (XFin q) →
           Render.fillMissing (XFin s) cnt raw !! k = Some (XFin q)).
Proof.
  intros Hlen Hcnt Hall. unfold Render.fillMissing.
  destruct (cnt <? 16) eqn:Hlt.
  - cbv zeta.
    apply (fill_loop _ (s / inject_Z cnt) raw); [| exact Hlen].
    apply exact_div_const. lia.
  - assert (cnt = 16) by lia. split; [exact Hlen |].
    intros k Hk. split; [| auto].
    intros Hnan. destruct (Hall H k Hk) as [q Hq]. congruence.
Qed.

Lemma list16_fin (r : list (@num exact)) :
  length r = 16%nat → (∀ k, (k < 16)%nat → ∃ q, r !! k = Some (XFin q)) →
  ∃ q : nat → Q, r = (fun k => XFin (q k)) <$> seq 0 16.
Proof.
  intros Hlen Hfin.
  exists (fun k => match r !! k with Some (XFin q) => q | _ => 0%Q end).
  apply list_eq. intros k. rewrite list_lookup_fmap.
  destruct (decide (k < 16)%nat) as [Hk | Hk].
  - rewrite lookup_seq_lt by lia. cbn [fmap option_fmap option_map Nat.add].
    destruct (Hfin k Hk) as [q Hq]. etransitivity; [exact Hq |].
    do 2 f_equal.
    assert (Hm : ∀ o : option xnum, o = Some (XFin q) →
              q = match o with Some (XFin q) => q | _ => 0%Q end)
      by (intros o ->; reflexivity).
    apply Hm. exact Hq.
  - rewrite lookup_ge_None_2 by lia. rewrite lookup_ge_None_2; [reflexivity |].
    rewrite length_seq. lia.
Qed.

Lemma convolve_fin (a0 a1 a2 a3 b0 b1 b2 b3 : Q) (q : nat → Q) :
  @Render.convolve exact [XFin a0; XFin a1; XFin a2; XFin a3]
    [XFin b0; XFin b1; XFin b2; XFin b3] ((fun k => XFin (q k)) <$> seq 0 16)
  = XFin (inject_Z 0
          + a0 * (inject_Z 0 + b0 * q 0%nat + b1 * q 1%nat + b2 * q 2%nat + b3 * q 3%nat)
          + a1 * (inject_Z 0 + b0 * q 4%nat + b1 * q 5%nat + b2 * q 6%nat + b3 * q 7%nat)
          + a2 * (inject_Z 0 + b0 * q 8%nat + b1 * q 9%nat + b2 * q 10%nat + b3 * q 11%nat)
          + a3 * (inject_Z 0 + b0 * q 12%nat + b1 * q 13%nat + b2 * q 14%nat + b3 * q 15%nat)).
Proof. reflexivity. Qed.

Lemma sampleBase_exact (la lo : Q) :
  @sampleBase exact (XFin la) (XFin lo)
  = (Qfloor (gridLat la), Qfloor (gridLng lo)).
Proof.
  unfold sampleBase.
  cbn [add sub mul neg of_Z exact Exact.lift2 Exact.neg].
  rewrite !exact_div_const by (vm_compute; discriminate).
  reflexivity.
Qed.

Lemma bicubicSample_exact (temps : list (@num exact)) (la lo : Q) :
  @Render.bicubicSample exact temps (XFin la) (XFin lo)
  = let '(validSum, validCount, raw) :=
      Render.gather temps (Qfloor (gridLat la)) (Qfloor (gridLng lo)) in
    if validCount =? 0 then XNaN
    else Render.convolve
           (Render.catmullRomWeights (XFin (frac (gridLat la))))
           (Render.catmullRomWeights (XFin (frac (gridLng lo))))
           (Render.fillMissing validSum validCount raw).
Proof.
  unfold Render.bicubicSample.
  cbn [add sub mul neg of_Z exact Exact.lift2 Exact.neg].
  rewrite !exact_div_const by (vm_compute; discriminate).
  reflexivity.
Qed.

Lemma neighbour_in_range (temps : list (@num exact)) (latBase lngBase : Z) (k : nat) :
  Z.of_nat (length temps) = Render.NUM_POINTS → 0 <= lngBase <= 180 →
  (k < 16)%nat → is_Some (neighbour temps latBase lngBase k).
Proof.
  intros Hlen Hb Hk. unfold neighbour, Render.getGridTemp.
  destruct (readZ_in_range temps
              (Render.gridIndex (latBase + (Z.of_nat (k / 4) - 1))
                 (lngBase + (Z.of_nat (k mod 4) - 1)))) as [x Hx].
  - rewrite Hlen. apply gridIndex_bounds. rewrite NUM_LNG_eq.
    pose proof (Nat.mod_upper_bound k 4 ltac:(lia)). lia.
  - exists x. exact Hx.
Qed.

(** The two outcomes of [bicubicSample] on a grid of full size: nothing
    around the sample, or the weighted sum of sixteen numbers that agree
    with the neighbours that are present. *)
Lemma bicubicSample_filled_mean (temps : list (@num exact)) (la lo : Q) :
  Z.of_nat (length temps) = Render.NUM_POINTS →
  0 <= Qfloor (gridLng lo) <= 180 →
  ((∀ k, (k < 16)%nat →
      neighbour temps (Qfloor (gridLat la)) (Qfloor (gridLng lo)) k = Some XNaN)
   ∧ @Render.bicubicSample exact temps (XFin la) (XFin lo) = XNaN)
  ∨ (¬ (∀ k, (k < 16)%nat →
          neighbour temps (Qfloor (gridLat la)) (Qfloor (gridLng lo)) k = Some XNaN)
     ∧ ∃ q : nat → Q,
         (∀ k v, (k < 16)%nat →
            neighbour temps (Qfloor (gridLat la)) (Qfloor (gridLng lo)) k
            = Some (XFin v) → q k = v)
         ∧ @Render.bicubicSample exact temps (XFin la) (XFin lo)
           = Render.convolve
               (Render.catmullRomWeights (XFin (frac (gridLat la))))
               (Render.catmullRomWeights (XFin (frac (gridLng lo))))
               ((fun k => XFin (q k)) <$> seq 0 16)
         ∧ ∃ s cnt raw,
             Render.gather temps (Qfloor (gridLat la)) (Qfloor (gridLng lo))
             = (XFin s, cnt, raw)
             ∧ 1 <= cnt
             ∧ ∀ k, (k < 16)%nat →
                 neighbour temps (Qfloor (gridLat la)) (Qfloor (gridLng lo)) k
                 = Some XNaN → q k = (s / inject_Z cnt)%Q).
Proof.
  intros Hlen Hb.
  set (a := Qfloor (gridLat la)). set (b := Qfloor (gridLng lo)).
  assert (Hsome : ∀ k, (k < 16)%nat → is_Some (neighbour temps a b k))
    by (intros k Hk; apply neighbour_in_range; assumption).
  pose proof (gather_exact temps a b Hsome) as Hg.
  rewrite bicubicSample_exact. fold a b.
  destruct (Render.gather temps a b) as [[vs cnt] raw] eqn:Egather.
  destruct Hg as (s & cnt0 & raw0 & E & Hraw16 & Hcnt & Hraw & Hall & Hnone & Hzero).
  injection E as -> -> ->.
  assert (Hnb : ∀ k x, (k < 16)%nat → neighbour temps a b k = Some x →
                  raw0 !! k = Some x).
  { intros k x Hk Hx. etransitivity; [apply Hraw; exact Hk |].
    rewrite Hx. reflexivity. }
  assert (Hbn : ∀ k x, (k < 16)%nat → raw0 !! k = Some x →
                  neighbour temps a b k = Some x).
  { intros k x Hk Hx. destruct (Hsome k Hk) as [y Hy].
    pose proof (Hnb k y Hk Hy) as Hy'.
    etransitivity; [exact Hy |]. exact (eq_trans (eq_sym Hy') Hx). }
  destruct (cnt0 =? 0) eqn:Hz.
  - left. split; [| reflexivity].
    intros k Hk. apply Hbn; [exact Hk |]. apply Hnone; [lia | exact Hk].
  - right. split.
    + intros Hnan. assert (cnt0 = 0); [| lia].
      apply Hzero. intros k Hk. apply Hnb; [exact Hk | apply Hnan; exact Hk].
    + destruct (fillMissing_exact s cnt0 raw0 Hraw16 ltac:(lia)) as (Hf16 & Hfill).
      { intros Hc. apply Hall. exact Hc. }
      destruct (list16_fin (@Render.fillMissing exact (XFin s) cnt0 raw0) Hf16)
        as [q Hq].
      { intros k Hk. destruct (lookup_lt_is_Some_2 raw0 k) as [x Hx].
        - exact (eq_ind_r (fun n => (k < n)%nat) Hk Hraw16).
        - destruct x as [| v].
          + eexists. apply (proj1 (Hfill k Hk)). exact Hx.
          + exists v. apply (proj2 (Hfill k Hk)). exact Hx. }
      assert (Hqk : ∀ k, (k < 16)%nat →
                ((fun k => XFin (q k)) <$> seq 0 16) !! k = Some (XFin (q k))).
      { intros k Hk. rewrite list_lookup_fmap, lookup_seq_lt by lia. reflexivity. }
      exists q. split; [| split].
      * intros k v Hk Hv.
        pose proof (proj2 (Hfill k Hk) v (Hnb k (XFin v) Hk Hv)) as Hfv.
        assert (Hboth : Some (XFin (q k)) = Some (XFin v)).
        { etransitivity; [symmetry; exact (Hqk k Hk) |].
          etransitivity; [| exact Hfv]. f_equal. symmetry. exact Hq. }
        injection Hboth as ->. reflexivity.
      * f_equal. exact Hq.
      * exists s, cnt0, raw0. split; [reflexivity |]. split; [lia |].
        intros k Hk Hv.
        pose proof (proj1 (Hfill k Hk) (Hnb k XNaN Hk Hv)) as Hfv.
        assert (Hboth : Some (XFin (q k)) = Some (XFin (s / inject_Z cnt0))).
        { etransitivity; [symmetry; exact (Hqk k Hk) |].
          etransitivity; [| exact Hfv]. f_equal. symmetry. exact Hq. }
        injection Hboth as ->. reflexivity.
Qed.

Lemma bicubicSample_filled (temps : list (@num exact)) (la lo : Q) :
  Z.of_nat (length temps) = Render.NUM_POINTS →
  0 <= Qfloor (gridLng lo) <= 180 →
  ((∀ k, (k < 16)%nat →
      neighbour temps (Qfloor (gridLat la)) (Qfloor (gridLng lo)) k = Some XNaN)
   ∧ @Render.bicubicSample exact temps (XFin la) (XFin lo) = XNaN)
  ∨ (¬ (∀ k, (k < 16)%nat →
          neighbour temps (Qfloor (gridLat la)) (Qfloor (gridLng lo)) k = Some XNaN)
     ∧ ∃ q : nat → Q,
         (∀ k v, (k < 16)%nat →
            neighbour temps (Qfloor (gridLat la)) (Qfloor (gridLng lo)) k
            = Some (XFin v) → q k = v)
         ∧ @Render.bicubicSample exact temps (XFin la) (XFin lo)
           = Render.convolve
               (Render.catmullRomWeights (XFin (frac (gridLat la))))
               (Render.catmullRomWeights (XFin (frac (gridLng lo))))
               ((fun k => XFin (q k)) <$> seq 0 16)).
Proof.
  intros Hlen Hb.
  destruct (bicubicSample_filled_mean temps la lo Hlen Hb)
    as [H | (Hn & q & Hq & E & _)]; [left; exact H | right].
  split; [exact Hn |]. exists q. split; [exact Hq | exact E].
Qed.

Lemma neighbour_centre (temps : list (@num exact)) (i j : Z) :
  0 <= i <= 90 → 0 <= j <= 180 →
  neighbour temps i j 5 = readZ temps (i * Render.NUM_LNG + j).
Proof.
  intros Hi Hj. unfold neighbour, Render.getGridTemp. f_equal.
  change (Z.of_nat (5 / 4)) with 1. change (Z.of_nat (5 mod 4)) with 1.
  unfold Render.gridIndex. rewrite NUM_LAT_eq, NUM_LNG_eq.
  destruct (Z.ltb_spec (j + (1 - 1)) 0); [lia |].
  destruct (Z.leb_spec 181 (j + (1 - 1))); lia.
Qed.

Lemma gridLat_node (i : Z) :
  (gridLat (inject_Z (Render.LAT_MAX - Render.GRID_STEP * i)) == inject_Z i)%Q.
Proof.
  unfold gridLat, Z.sub. rewrite inject_Z_plus, inject_Z_opp, inject_Z_mult.
  unfold Render.LAT_MAX, Render.GRID_STEP. field.
Qed.

Lemma gridLng_node (j : Z) :
  (gridLng (inject_Z (Render.LNG_MIN + Render.GRID_STEP * j)) == inject_Z j)%Q.
Proof.
  unfold gridLng. rewrite inject_Z_plus, inject_Z_mult.
  unfold Render.LNG_MIN, Render.GRID_STEP. field.
Qed.

Lemma frac_node (g : Q) (i : Z) : (g == inject_Z i)%Q → (frac g == 0)%Q.
Proof.
  intros Hg. unfold frac. rewrite (Qfloor_comp _ _ Hg), Qfloor_Z, Hg. ring.
Qed.

Lemma weights_node (t : Q) :
  (t == 0)%Q →
  ((- (t * t * t) + inject_Z 2 * (t * t) - t) / inject_Z 2 == 0)%Q
  ∧ ((inject_Z 3 * (t * t * t) - inject_Z 5 * (t * t) + inject_Z 2) / inject_Z 2 == 1)%Q
  ∧ ((inject_Z (-3) * (t * t * t) + inject_Z 4 * (t * t) + t) / inject_Z 2 == 0)%Q
  ∧ ((t * t * t - t * t) / inject_Z 2 == 0)%Q.
Proof.
  intros Ht. repeat split; rewrite Ht; reflexivity.
Qed.

Lemma convolve_node (ta tb : Q) (q : nat → Q) (v : Q) :
  (ta == 0)%Q → (tb == 0)%Q →
  (inject_Z 0
   + (- (ta * ta * ta) + inject_Z 2 * (ta * ta) - ta) / inject_Z 2
     * (inject_Z 0
        + (- (tb * tb * tb) + inject_Z 2 * (tb * tb) - tb) / inject_Z 2 * q 0%nat
        + (inject_Z 3 * (tb * tb * tb) - inject_Z 5 * (tb * tb) + inject_Z 2) / inject_Z 2 * q 1%nat
        + (inject_Z (-3) * (tb * tb * tb) + inject_Z 4 * (tb * tb) + tb) / inject_Z 2 * q 2%nat
        + (tb * tb * tb - tb * tb) / inject_Z 2 * q 3%nat)
   + (inject_Z 3 * (ta * ta * ta) - inject_Z 5 * (ta * ta) + inject_Z 2) / inject_Z 2
     * (inject_Z 0
        + (- (tb * tb * tb) + inject_Z 2 * (tb * tb) - tb) / inject_Z 2 * q 4%nat
        + (inject_Z 3 * (tb * tb * tb) - inject_Z 5 * (tb * tb) + inject_Z 2) / inject_Z 2 * v
        + (inject_Z (-3) * (tb * tb * tb) + inject_Z 4 * (tb * tb) + tb) / inject_Z 2 * q 6%nat
        + (tb * tb * tb - tb * tb) / inject_Z 2 * q 7%nat)
   + (inject_Z (-3) * (ta * ta * ta) + inject_Z 4 * (ta * ta) + ta) / inject_Z 2
     * (inject_Z 0
        + (- (tb * tb * tb) + inject_Z 2 * (tb * tb) - tb) / inject_Z 2 * q 8%nat
        + (inject_Z 3 * (tb * tb * tb) - inject_Z 5 * (tb * tb) + inject_Z 2) / inject_Z 2 * q 9%nat
        + (inject_Z (-3) * (tb * tb * tb) + inject_Z 4 * (tb * tb) + tb) / inject_Z 2 * q 10%nat
        + (tb * tb * tb - tb * tb) / inject_Z 2 * q 11%nat)
   + (ta * ta * ta - ta * ta) / inject_Z 2
     * (inject_Z 0
        + (- (tb * tb * tb) + inject_Z 2 * (tb * tb) - tb) / inject_Z 2 * q 12%nat
        + (inject_Z 3 * (tb * tb * tb) - inject_Z 5 * (tb * tb) + inject_Z 2) / inject_Z 2 * q 13%nat
        + (inject_Z (-3) * (tb * tb * tb) + inject_Z 4 * (tb * tb) + tb) / inject_Z 2 * q 14%nat
        + (tb * tb * tb - tb * tb) / inject_Z 2 * q 15%nat)
   == v)%Q.
Proof.
  intros Hta Htb.
  destruct (weights_node ta Hta) as (A0 & A1 & A2 & A3).
  destruct (weights_node tb Htb) as (B0 & B1 & B2 & B3).
  generalize dependent ((- (ta * ta * ta) + inject_Z 2 * (ta * ta) - ta) / inject_Z 2)%Q.
  generalize dependent ((inject_Z 3 * (ta * ta * ta) - inject_Z 5 * (ta * ta) + inject_Z 2) / inject_Z 2)%Q.
  generalize dependent ((inject_Z (-3) * (ta * ta * ta) + inject_Z 4 * (ta * ta) + ta) / inject_Z 2)%Q.
  generalize dependent ((ta * ta * ta - ta * ta) / inject_Z 2)%Q.
  generalize dependent ((- (tb * tb * tb) + inject_Z 2 * (tb * tb) - tb) / inject_Z 2)%Q.
  generalize dependent ((inject_Z 3 * (tb * tb * tb) - inject_Z 5 * (tb * tb) + inject_Z 2) / inject_Z 2)%Q.
  generalize dependent ((inject_Z (-3) * (tb * tb * tb) + inject_Z 4 * (tb * tb) + tb) / inject_Z 2)%Q.
  generalize dependent ((tb * tb * tb - tb * tb) / inject_Z 2)%Q.
  intros b3 B3 b2 B2 b1 B1 b0 B0 a3 A3 a2 A2 a1 A1 a0 A0.
  rewrite A0, A1, A2, A3, B0, B1, B2, B3.
  change (inject_Z 0) with 0%Q. ring.
Qed.

(** X4 -- [bicubicSample] answers NaN exactly when all sixteen grid cells
    around the sample are missing: one cell that holds a number is enough
    for a number. *)
Theorem bicubicSample_missing_iff (temps : list (@num exact)) (la lo : Q) :
  Z.of_nat (length temps) = Render.NUM_POINTS →
  (inject_Z (-180) <= lo)%Q → (lo < inject_Z 180)%Q →
  @isNaN exact (Render.bicubicSample temps (XFin la) (XFin lo)) = true
  ↔ ∀ k, (k < 16)%nat →
      neighbour temps (@sampleBase exact (XFin la) (XFin lo)).1
        (@sampleBase exact (XFin la) (XFin lo)).2 k = Some XNaN.
Proof.
  intros Hlen Hlo Hhi.
  pose proof (sampleBase_lng_range la lo Hlo Hhi) as Hb.
  rewrite sampleBase_exact in *. cbn [fst snd] in *.
  destruct (bicubicSample_filled temps la lo Hlen ltac:(lia))
    as [[Hnan E] | (Hsome & q & _ & E)].
  - split; [intros _; exact Hnan |]. intros _.
    etransitivity; [apply (f_equal (@isNaN exact)); exact E |]. reflexivity.
  - assert (Efin : @isNaN exact (Render.bicubicSample temps (XFin la) (XFin lo))
                   = false).
    { etransitivity; [apply (f_equal (@isNaN exact)); exact E |].
      rewrite !catmullRomWeights_exact.
      etransitivity; [apply (f_equal (@isNaN exact)); apply convolve_fin |].
      reflexivity. }
    split; [intros Ht; rewrite Efin in Ht; discriminate Ht |].
    intros Hnan. contradiction.
Qed.

Lemma bicubicSample_missing_iff_witness :
  let temps := @replicate (@num exact) (Z.to_nat Render.NUM_POINTS) XNaN in
  Z.of_nat (length temps) = Render.NUM_POINTS
  ∧ (inject_Z (-180) <= 14 # 10)%Q ∧ (14 # 10 < inject_Z 180)%Q
  ∧ (@isNaN exact (Render.bicubicSample temps (XFin (894 # 10)) (XFin (14 # 10)))
     = true
     ↔ ∀ k, (k < 16)%nat →
         neighbour temps (@sampleBase exact (XFin (894 # 10)) (XFin (14 # 10))).1
           (@sampleBase exact (XFin (894 # 10)) (XFin (14 # 10))).2 k = Some XNaN).
Proof.
  intros temps.
  assert (Hlen : Z.of_nat (length temps) = Render.NUM_POINTS)
    by apply (@uniformGrid_replicate exact).
  assert (H3 : (inject_Z (-180) <= 14 # 10)%Q) by (vm_compute; discriminate).
  assert (H4 : (14 # 10 < inject_Z 180)%Q) by (vm_compute; reflexivity).
  split; [exact Hlen |]. split; [exact H3 |]. split; [exact H4 |].
  exact (bicubicSample_missing_iff temps (894 # 10) (14 # 10) Hlen H3 H4).
Defined.

(** X5 -- at a node of the grid whose cell holds a number, [bicubicSample]
    returns that number, whatever the fifteen other cells hold, missing
    ones included. *)
Theorem bicubicSample_at_node (temps : list (@num exact)) (i j : Z) (v : Q) :
  Z.of_nat (length temps) = Render.NUM_POINTS →
  0 <= i <= 90 → 0 <= j <= 180 →
  readZ temps (i * Render.NUM_LNG + j) = Some (XFin v) →
  Exact.same
    (@Render.bicubicSample exact temps
       (XFin (inject_Z (Render.LAT_MAX - Render.GRID_STEP * i)))
       (XFin (inject_Z (Render.LNG_MIN + Render.GRID_STEP * j))))
    (XFin v).
Proof.
  intros Hlen Hi Hj Hv.
  set (la := inject_Z (Render.LAT_MAX - Render.GRID_STEP * i)).
  set (lo := inject_Z (Render.LNG_MIN + Render.GRID_STEP * j)).
  assert (Ea : Qfloor (gridLat la) = i)
    by (subst la; rewrite (Qfloor_comp _ _ (gridLat_node i)); apply Qfloor_Z).
  assert (Eb : Qfloor (gridLng lo) = j)
    by (subst lo; rewrite (Qfloor_comp _ _ (gridLng_node j)); apply Qfloor_Z).
  pose proof (frac_node _ _ (gridLat_node i)) as Hta. fold la in Hta.
  pose proof (frac_node _ _ (gridLng_node j)) as Htb. fold lo in Htb.
  assert (Hc : neighbour temps (Qfloor (gridLat la)) (Qfloor (gridLng lo)) 5
               = Some (XFin v)).
  { rewrite Ea, Eb. etransitivity; [apply neighbour_centre; assumption |].
    exact Hv. }
  destruct (bicubicSample_filled temps la lo Hlen ltac:(lia))
    as [[Hnan _] | (_ & q & Hq & E)].
  - discriminate (eq_trans (eq_sym Hc) (Hnan 5%nat ltac:(lia))).
  - pose proof (Hq 5%nat v ltac:(lia) Hc) as Hq5.
    assert (E' : ∃ r, @Render.bicubicSample exact temps (XFin la) (XFin lo) = XFin r
                      ∧ (r == v)%Q).
    { revert E. rewrite !catmullRomWeights_exact. intros E.
      eexists. split; [etransitivity; [exact E | apply convolve_fin] |].
      cbn beta. rewrite Hq5.
      apply convolve_node; [exact Hta | exact Htb]. }
    destruct E' as (r & -> & Hr). exact Hr.
Qed.

Lemma bicubicSample_at_node_witness :
  Z.of_nat (length (@rampGrid exact)) = Render.NUM_POINTS
  ∧ 0 <= 45 <= 90 ∧ 0 <= 90 <= 180
  ∧ readZ (@rampGrid exact) (45 * Render.NUM_LNG + 90) = Some (XFin (inject_Z 8235))
  ∧ Exact.same
      (@Render.bicubicSample exact rampGrid
         (XFin (inject_Z (Render.LAT_MAX - Render.GRID_STEP * 45)))
         (XFin (inject_Z (Render.LNG_MIN + Render.GRID_STEP * 90))))
      (XFin (inject_Z 8235)).
Proof.
  assert (Hlen : Z.of_nat (length (@rampGrid exact)) = Render.NUM_POINTS)
    by apply (@rampGrid_length exact).
  assert (Hi : 0 <= 45 <= 90) by lia. assert (Hj : 0 <= 90 <= 180) by lia.
  assert (Hv : readZ (@rampGrid exact) (45 * Render.NUM_LNG + 90)
               = Some (XFin (inject_Z 8235))).
  { apply (@rampGrid_read exact 8235). rewrite NUM_POINTS_eq. lia. }
  split; [exact Hlen |]. split; [exact Hi |]. split; [exact Hj |].
  split; [exact Hv |].
  exact (bicubicSample_at_node rampGrid 45 90 (inject_Z 8235) Hlen Hi Hj Hv).
Defined.

End GatherExact.

(** ** The shape of a frame *)

Lemma clamp8_byte (v : Z) : isByte (clamp8 v).
Proof. unfold isByte, clamp8. lia. Qed.

Lemma setRGB_bytes (data : list Z) (i : nat) (r g b : Z) :
  Forall isByte data → Forall isByte (setRGB data i r g b).
Proof.
  intros Hd. unfold setRGB. repeat apply Forall_insert; auto using clamp8_byte.
Qed.

Section FrameShape.
Context {N : JSNumber}.

Lemma blurRows_bytes (data dst : list Z) (w h : nat) (radius : Z) :
  Forall isByte dst → Forall isByte (Render.blurRows data w h radius dst).
Proof.
  intros Hdst. unfold Render.blurRows.
  apply (fold_left_inv _ (Forall isByte)); [exact Hdst |].
  intros d1 y _ H1.
  apply (fold_left_inv _ (Forall isByte)); [exact H1 |].
  intros d2 ch _ H2.
  destruct (fold_left _ (Z.of_nat <$> seq 0 w) (of_Z 0, 0)) as [sum count].
  apply (fold_left_inv _ (fun st => Forall isByte st.1)); [exact H2 |].
  intros [d3 [s c]] x _ H3. cbn [fst] in H3 |- *.
  destruct (_ <? _); destruct (_ <=? _); cbn [fst];
    repeat apply Forall_insert; auto using clamp8_byte.
Qed.

Lemma blurCols_bytes (dst data : list Z) (w h : nat) (radius : Z) :
  Forall isByte data → Forall isByte (Render.blurCols dst w h radius data).
Proof.
  intros Hdata. unfold Render.blurCols.
  apply (fold_left_inv _ (Forall isByte)); [exact Hdata |].
  intros d1 x _ H1.
  apply (fold_left_inv _ (Forall isByte)); [exact H1 |].
  intros d2 ch _ H2.
  destruct (fold_left _ (Z.of_nat <$> seq 0 h) (of_Z 0, 0)) as [sum count].
  apply (fold_left_inv _ (fun st => Forall isByte st.1)); [exact H2 |].
  intros [d3 [s c]] y _ H3. cbn [fst] in H3 |- *.
  destruct (_ <? _); destruct (_ <=? _); cbn [fst];
    repeat apply Forall_insert; auto using clamp8_byte.
Qed.

Lemma boxBlur_bytes (data : list Z) (w h : nat) (radius : Z) (passes : nat) :
  Forall isByte data → Forall isByte (Render.boxBlur data w h radius passes).
Proof.
  intros Hdata. unfold Render.boxBlur.
  generalize (replicate (length data) 0) as dst0.
  induction passes as [| n IH]; intros dst0; [exact Hdata |].
  rewrite Nat.iter_succ. specialize (IH dst0).
  destruct (Nat.iter n _ (data, dst0)) as [d dst]. cbn [fst] in *.
  apply blurCols_bytes. exact IH.
Qed.

Lemma restamp_bytes (oceanMask data : list Z) :
  Forall isByte data → Forall isByte (Render.restamp oceanMask data).
Proof.
  intros Hdata. unfold Render.restamp.
  apply (fold_left_inv _ (Forall isByte)); [exact Hdata |].
  intros d i _ Hd. destruct (oceanMask !! i) as [m |]; [| exact Hd].
  destruct (m =? 0); [exact Hd | apply setRGB_bytes; exact Hd].
Qed.

Lemma raster_pixel (temps : list num) (stops : option (list ColorStop))
    (w h : nat) (st : list Z * list Z) (i : nat) :
  rasterInv temps stops w h (h * w) st → (i < w * h)%nat →
  ∃ r g b, pixelIs st.1 i (clamp8 r) (clamp8 g) (clamp8 b) 255.
Proof.
  intros (_ & _ & Hpix) Hi.
  assert (Hw : (0 < w)%nat) by (destruct w; [lia | lia]).
  assert (Hx : (i mod w < w)%nat) by (apply Nat.mod_upper_bound; lia).
  assert (Hy : (i / w < h)%nat) by (apply Nat.Div0.div_lt_upper_bound; lia).
  pose proof (Nat.div_mod_eq i w) as Hdm.
  destruct (Hpix (i mod w)%nat (i / w)%nat Hx Hy ltac:(nia))
    as (_ & r & g & b & _ & Hp).
  exists r, g, b. replace i with (i / w * w + i mod w)%nat at 1 by lia.
  exact Hp.
Qed.

Lemma frame_of_pixels (w h : nat) (data : list Z) :
  length data = (w * h * 4)%nat →
  (∀ i, (i < w * h)%nat → ∃ r g b,
     pixelIs data i (clamp8 r) (clamp8 g) (clamp8 b) 255) →
  isFrame w h data.
Proof.
  intros Hlen Hpix. split; [exact Hlen |]. split.
  - apply Forall_lookup. intros j v Hj.
    pose proof (lookup_lt_Some _ _ _ Hj) as Hlt. rewrite Hlen in Hlt.
    pose proof (Nat.div_mod_eq j 4) as Hdm.
    pose proof (Nat.mod_upper_bound j 4 ltac:(lia)) as Hc.
    destruct (Hpix (j / 4)%nat ltac:(lia)) as (r & g & b & P0 & P1 & P2 & P3).
    destruct (j mod 4)%nat as [| [| [| [| c]]]] eqn:Ec; [| | | | lia].
    + replace (j / 4 * 4)%nat with j in P0 by lia.
      rewrite P0 in Hj. injection Hj as <-. apply clamp8_byte.
    + replace (j / 4 * 4 + 1)%nat with j in P1 by lia.
      rewrite P1 in Hj. injection Hj as <-. apply clamp8_byte.
    + replace (j / 4 * 4 + 2)%nat with j in P2 by lia.
      rewrite P2 in Hj. injection Hj as <-. apply clamp8_byte.
    + replace (j / 4 * 4 + 3)%nat with j in P3 by lia.
      rewrite P3 in Hj. injection Hj as <-. unfold isByte. lia.
  - intros i Hi. destruct (Hpix i Hi) as (r & g & b & _ & _ & _ & P3). exact P3.
Qed.

Lemma isFrame_sameAlpha (w h : nat) (d d' : list Z) :
  isFrame w h d → sameAlpha d d' → Forall isByte d' → isFrame w h d'.
Proof.
  intros (Hlen & _ & Ha) [Hl Hs] Hb. split; [lia |]. split; [exact Hb |].
  intros i Hi. rewrite Hs by (apply pixel_byte_mod; lia). apply Ha. exact Hi.
Qed.

Lemma renderPixelData_shape (temps : list num) (opts : RenderOpts)
    (w h : nat) (data : list Z) :
  Render.renderPixelData temps opts (Some w) (Some h) = Some data →
  isFrame w h data.
Proof.
  unfold Render.renderPixelData. cbn [default from_option id]. cbv zeta.
  destruct (Render.renderRows temps (Render.stopsOf opts) w h)
    as [[raster oceanMask] |] eqn:Hrows; [| intros E; discriminate E].
  pose proof (renderRows_inv _ _ _ _ _ Hrows) as Hinv.
  assert (Hraster : isFrame w h raster).
  { apply frame_of_pixels; [exact (proj1 Hinv) |].
    intros i Hi. exact (raster_pixel _ _ _ _ _ i Hinv Hi). }
  destruct Hinv as (Hld & Hlm & _). cbn [fst snd] in Hld, Hlm.
  destruct (gtb (blurRadius opts) (of_Z 0)); intros E; injection E as <-;
    [| exact Hraster].
  set (radius := Z.max 1 _).
  pose proof (boxBlur_sameAlpha raster w h radius 3) as Hblur.
  pose proof (boxBlur_bytes raster w h radius 3 (proj1 (proj2 Hraster))) as Hbb.
  destruct (restamp_spec oceanMask (Render.boxBlur raster w h radius 3))
    as [Hre _]; [destruct Hblur as [Hl _]; lia |].
  apply (isFrame_sameAlpha w h raster); [exact Hraster | | ].
  - eapply sameAlpha_trans; [exact Hblur | exact Hre].
  - apply restamp_bytes. exact Hbb.
Qed.

(** X6 -- whatever the grid and the options, a frame that [renderPixelData]
    returns has four bytes for each of the [w * h] pixels (1024 x 512 when
    the size is left out), holds only values of 0 .. 255, and is opaque
    everywhere, with or without blur. *)
Theorem renderPixelData_frame (temps : list num) (opts : RenderOpts)
    (w h : option nat) (data : list Z) :
  Render.renderPixelData temps opts w h = Some data →
  isFrame (default Render.RENDER_WIDTH w) (default Render.RENDER_HEIGHT h) data
  ∧ Render.RENDER_WIDTH = 1024%nat ∧ Render.RENDER_HEIGHT = 512%nat.
Proof.
  intros Hdata. split; [| split; reflexivity].
  apply (renderPixelData_shape temps opts). exact Hdata.
Qed.

Lemma all_pixels_white (w h : nat) (data : list Z) :
  length data = (w * h * 4)%nat →
  (∀ x y, (x < w)%nat → (y < h)%nat → pixelIs data (y * w + x) 255 255 255 255) →
  data = replicate (w * h * 4) 255.
Proof.
  intros Hlen Hpix. apply list_eq. intros j.
  destruct (decide (j < w * h * 4)%nat) as [Hj | Hj].
  - rewrite (proj2 (lookup_replicate _ _ _ _) (conj eq_refl Hj)).
    assert (Hw : (0 < w)%nat) by (destruct w; lia).
    set (i := (j / 4)%nat).
    pose proof (Nat.div_mod_eq j 4) as Hdm. fold i in Hdm.
    pose proof (Nat.mod_upper_bound j 4 ltac:(lia)) as Hc.
    assert (Hi : (i < w * h)%nat) by lia.
    assert (Hx : (i mod w < w)%nat) by (apply Nat.mod_upper_bound; lia).
    assert (Hy : (i / w < h)%nat) by (apply Nat.Div0.div_lt_upper_bound; lia).
    pose proof (Nat.div_mod_eq i w) as Hdi.
    destruct (Hpix _ _ Hx Hy) as (P0 & P1 & P2 & P3).
    replace (i / w * w + i mod w)%nat with i in * by lia.
    destruct (j mod 4)%nat as [| [| [| [| c]]]] eqn:Ec; [| | | | lia].
    + replace j with (i * 4)%nat by lia. exact P0.
    + replace j with (i * 4 + 1)%nat by lia. exact P1.
    + replace j with (i * 4 + 2)%nat by lia. exact P2.
    + replace j with (i * 4 + 3)%nat by lia. exact P3.
  - rewrite !lookup_ge_None_2; [reflexivity | | ].
    + rewrite length_replicate. lia.
    + rewrite Hlen. lia.
Qed.

End FrameShape.

Lemma renderPixelData_frame_witness :
  let temps := <[0%nat := @NaN ieee]> (replicate (Z.to_nat Render.NUM_POINTS) (of_Z 20)) in
  @Render.renderPixelData ieee temps blurredOpts (Some 2%nat) (Some 1%nat)
  = Some [255; 255; 255; 255; 255; 243; 151; 255]
  ∧ isFrame 2 1 [255; 255; 255; 255; 255; 243; 151; 255]
  ∧ Render.RENDER_WIDTH = 1024%nat ∧ Render.RENDER_HEIGHT = 512%nat.
Proof.
  intros temps.
  assert (Hr : @Render.renderPixelData ieee temps blurredOpts (Some 2%nat) (Some 1%nat)
               = Some [255; 255; 255; 255; 255; 243; 151; 255])
    by (vm_compute; reflexivity).
  split; [exact Hr |].
  exact (@renderPixelData_frame ieee temps blurredOpts (Some 2%nat) (Some 1%nat) _ Hr).
Defined.

(** ** When rendering throws *)

Lemma foldM_None_iff {S A} (f : S → A → option S) (fails : A → Prop)
    (l : list A) (s : S) :
  (∀ s a, f s a = None ↔ fails a) →
  foldM f l s = None ↔ ∃ a, a ∈ l ∧ fails a.
Proof.
  intros Hf. revert s. induction l as [| a l IH]; intros s; cbn [foldM].
  - split; [intros E; discriminate E |].
    intros (a & Ha & _). apply elem_of_nil in Ha. contradiction.
  - destruct (f s a) as [s' |] eqn:Hfa.
    + rewrite IH. split.
      * intros (b & Hb & Hfb). exists b. split; [right; exact Hb | exact Hfb].
      * intros (b & Hb & Hfb). apply elem_of_cons in Hb as [-> | Hb].
        -- apply (Hf s) in Hfb. rewrite Hfb in Hfa. discriminate Hfa.
        -- exists b. split; [exact Hb | exact Hfb].
    + split; [| reflexivity]. intros _. exists a. split; [left |].
      apply (Hf s). exact Hfa.
Qed.

Section Throws.
Context {N : JSNumber}.

Lemma tempToRGB_throws (t : option num) (stops : option (list ColorStop)) :
  Render.tempToRGB t stops = None
  ↔ (∃ x, t = Some x ∧ isNaN x = false) ∧ (stops = None ∨ stops = Some []).
Proof.
  destruct t as [x |]; cbn [Render.tempToRGB].
  - destruct (isNaN x) eqn:Hx.
    + split; [intros E; discriminate E |].
      intros [(y & Ey & Hy) _]. injection Ey as <-. rewrite Hx in Hy. discriminate Hy.
    + destruct stops as [[| s stops] |].
      * split; [| reflexivity]. intros _. split; [exists x |]; auto.
      * destruct (tempToRGB_total (Some x) s stops) as [c Hc].
        cbn [Render.tempToRGB] in Hc. rewrite Hx in Hc.
        split; [intros E; rewrite E in Hc; discriminate Hc |].
        intros [_ [E | E]]; discriminate E.
      * split; [| reflexivity]. intros _. split; [exists x |]; auto.
  - split; [intros E; discriminate E |].
    intros [(y & Ey & _) _]. discriminate Ey.
Qed.

Lemma pixelColor_throws (temps : list num) (stops : option (list ColorStop))
    (w h x y : nat) :
  pixelColor temps stops w h x y = None
  ↔ (stops = None ∨ stops = Some [])
    ∧ oceanAt temps w h x y = false
    ∧ isNaN (Render.bicubicSample temps (Render.pixelLat y h) (Render.pixelLng x w))
      = false.
Proof.
  unfold pixelColor. destruct (oceanAt temps w h x y).
  - split; [intros E; discriminate E | intros (_ & E & _); discriminate E].
  - rewrite tempToRGB_throws.
    destruct (isNaN (Render.bicubicSample temps _ _)) eqn:Hn.
    + split; [intros [(v & E & _) _]; discriminate E
             | intros (_ & _ & E); discriminate E].
    + split; [intros [_ Hs]; auto |]. intros (Hs & _ & _).
      split; [eexists; split; [reflexivity | exact Hn] | exact Hs].
Qed.

Lemma renderRows_throws (temps : list num) (stops : option (list ColorStop))
    (w h : nat) :
  Render.renderRows temps stops w h = None
  ↔ ∃ y, y ∈ seq 0 h ∧ ∃ x, x ∈ seq 0 w ∧ pixelColor temps stops w h x y = None.
Proof.
  unfold Render.renderRows. apply foldM_None_iff.
  intros st y. apply foldM_None_iff.
  intros [data oceanMask] x. rewrite renderPixel_spec.
  destruct (pixelColor temps stops w h x y) as [[[r g] b] |].
  - split; intros E; discriminate E.
  - split; reflexivity.
Qed.

(** X7 -- [renderPixelData] throws exactly when the colour table is missing
    (no [customStops] and an unknown [colorway]) or empty and some pixel is
    land with a sample that is a number; a frame of ocean only is rendered
    even then. *)
Theorem renderPixelData_throws (temps : list num) (opts : RenderOpts) (w h : nat) :
  Render.renderPixelData temps opts (Some w) (Some h) = None
  ↔ (Render.stopsOf opts = None ∨ Render.stopsOf opts = Some [])
    ∧ ∃ x y, (x < w)%nat ∧ (y < h)%nat
        ∧ Render.isOceanNearest temps (Render.pixelLat y h) (Render.pixelLng x w)
          = false
        ∧ isNaN (Render.bicubicSample temps (Render.pixelLat y h)
                   (Render.pixelLng x w)) = false.
Proof.
  assert (Hrows : Render.renderPixelData temps opts (Some w) (Some h) = None
                  ↔ Render.renderRows temps (Render.stopsOf opts) w h = None).
  { unfold Render.renderPixelData. cbn [default from_option id].
    destruct (Render.renderRows temps (Render.stopsOf opts) w h)
      as [[data oceanMask] |]; [| split; reflexivity].
    destruct (gtb (blurRadius opts) (of_Z 0)); split; intros E; discriminate E. }
  rewrite Hrows, renderRows_throws. split.
  - intros (y & Hy & x & Hx & Hc).
    apply elem_of_seq in Hy. apply elem_of_seq in Hx.
    apply pixelColor_throws in Hc as (Hs & Ho & Hn).
    split; [exact Hs |]. exists x, y. repeat split; [lia | lia | exact Ho | exact Hn].
  - intros (Hs & x & y & Hx & Hy & Ho & Hn).
    exists y. split; [apply elem_of_seq; lia |].
    exists x. split; [apply elem_of_seq; lia |].
    apply pixelColor_throws. repeat split; [exact Hs | exact Ho | exact Hn].
Qed.

End Throws.

(** ** Frames without land *)

Section OceanOnly.
Context {N : JSNumber}.

(** A frame of ocean only is white everywhere, whatever the options. *)
Lemma ocean_only_white (temps : list num) (opts : RenderOpts) (w h : nat) :
  (∀ x y, (x < w)%nat → (y < h)%nat → oceanAt temps w h x y = true) →
  Render.renderPixelData temps opts (Some w) (Some h)
  = Some (replicate (w * h * 4) 255).
Proof.
  intros Hocean.
  destruct (Render.renderPixelData temps opts (Some w) (Some h)) as [data |] eqn:Hd.
  - f_equal. apply all_pixels_white.
    + exact (proj1 (renderPixelData_shape temps opts w h data Hd)).
    + intros x y Hx Hy.
      apply (proj1 (renderPixelData_pixels temps opts w h data x y Hd Hx Hy)).
      apply Hocean; assumption.
  - exfalso. revert Hd. unfold Render.renderPixelData.
    cbn [default from_option id]. cbv zeta.
    destruct (Render.renderRows temps (Render.stopsOf opts) w h)
      as [[raster oceanMask] |] eqn:Hrows.
    + destruct (gtb (blurRadius opts) (of_Z 0)); intros E; discriminate E.
    + intros _. apply renderRows_throws in Hrows as (y & Hy & x & Hx & Hc).
      apply elem_of_seq in Hy. apply elem_of_seq in Hx.
      apply pixelColor_throws in Hc as (_ & Ho & _).
      rewrite Hocean in Ho by lia. discriminate Ho.
Qed.

End OceanOnly.

Section MissingGrid.
#[local] Existing Instance exact.

(** X8 -- a grid of full size in which every cell is missing renders to a
    frame that is white everywhere, for every size and all options: it
    does not throw on an unknown [colorway], and the blur changes
    nothing. *)
Theorem missing_grid_white (temps : list (@num exact)) (opts : @RenderOpts exact)
    (w h : nat) :
  @uniformGrid exact temps XNaN →
  @Render.renderPixelData exact temps opts (Some w) (Some h)
  = Some (replicate (w * h * 4) 255).
Proof.
  intros [Hlen Hall]. apply ocean_only_white. intros x y Hx Hy.
  unfold oceanAt, Render.isOceanNearest.
  pose proof (nearest_read_exact w h x y Hx Hy) as Hi.
  destruct (readZ_in_range temps
              (@Render.nearestIndex exact (Render.pixelLat y h) (Render.pixelLng x w)))
    as [v Hv]; [rewrite Hlen; exact Hi |].
  pose proof (Hall _ _ (readZ_Some _ _ _ Hv)) as Ev.
  etransitivity; [apply (f_equal (@notSelfEqual exact)); exact Hv |].
  rewrite Ev. reflexivity.
Qed.

Lemma missing_grid_white_witness :
  @uniformGrid exact (replicate (Z.to_nat Render.NUM_POINTS) XNaN) XNaN
  ∧ @Render.renderPixelData exact (replicate (Z.to_nat Render.NUM_POINTS) XNaN)
      (Build_RenderOpts None "no such colorway" (XFin 8)) (Some 3%nat) (Some 2%nat)
    = Some (replicate (3 * 2 * 4) 255).
Proof.
  assert (Hu : @uniformGrid exact (replicate (Z.to_nat Render.NUM_POINTS) XNaN) XNaN)
    by apply (@uniformGrid_replicate exact).
  split; [exact Hu |].
  exact (missing_grid_white _ (Build_RenderOpts None "no such colorway" (XFin 8))
           3 2 Hu).
Defined.

End MissingGrid.

(** ** The cell behind a pixel *)

Section NearestCell.
#[local] Existing Instance exact.

Lemma round_ratio (a b : Z) (g : Q) :
  0 < b → (g + (1 # 2) == inject_Z a / inject_Z b)%Q →
  @round exact (XFin g) = a / b.
Proof.
  intros Hb Hg. cbn [round exact Exact.round].
  rewrite (Qfloor_comp _ _ Hg). symmetry. apply Zdiv_Qdiv.
Qed.

Lemma inject_Z_nonzero (z : Z) : z ≠ 0 → ¬ (inject_Z z == 0)%Q.
Proof. intros Hz. unfold Qeq, inject_Z. cbn. lia. Qed.

(** X9 -- the ocean test of the pixel in column [x] of row [y] reads the
    cell in row [round (90 y / h)] and column [round (180 x / w)] of the
    grid: inside a frame the longitude never wraps and the latitude is
    never clamped, and the last columns of a frame read column 180, not
    column 0. *)
Theorem nearestIndex_pixel (w h x y : nat) :
  (x < w)%nat → (y < h)%nat →
  let row := (180 * Z.of_nat y + Z.of_nat h) / (2 * Z.of_nat h) in
  let col := (360 * Z.of_nat x + Z.of_nat w) / (2 * Z.of_nat w) in
  @Render.nearestIndex exact (Render.pixelLat y h) (Render.pixelLng x w)
  = row * Render.NUM_LNG + col
  ∧ 0 <= row <= 90 ∧ 0 <= col <= 180.
Proof.
  intros Hx Hy row col.
  assert (Hrow : 0 <= row <= 90).
  { subst row. split; [apply Z.div_pos; lia |].
    enough ((180 * Z.of_nat y + Z.of_nat h) / (2 * Z.of_nat h) < 91) by lia.
    apply Z.div_lt_upper_bound; lia. }
  assert (Hcol : 0 <= col <= 180).
  { subst col. split; [apply Z.div_pos; lia |].
    enough ((360 * Z.of_nat x + Z.of_nat w) / (2 * Z.of_nat w) < 181) by lia.
    apply Z.div_lt_upper_bound; lia. }
  split; [| split; assumption].
  assert (Hh : ¬ (inject_Z (Z.of_nat h) == 0)%Q) by (apply inject_Z_nonzero; lia).
  assert (Hw : ¬ (inject_Z (Z.of_nat w) == 0)%Q) by (apply inject_Z_nonzero; lia).
  rewrite nearestIndex_gridIndex, pixelLat_exact, pixelLng_exact by lia.
  cbn [add sub mul neg of_Z exact Exact.lift2 Exact.neg].
  rewrite !exact_div_const by (vm_compute; discriminate).
  rewrite (round_ratio (180 * Z.of_nat y + Z.of_nat h) (2 * Z.of_nat h)) by
    (try lia; rewrite inject_Z_plus, !inject_Z_mult;
     unfold Render.LAT_MAX, Render.GRID_STEP; field; exact Hh).
  rewrite (round_ratio (360 * Z.of_nat x + Z.of_nat w) (2 * Z.of_nat w)) by
    (try lia; rewrite inject_Z_plus, !inject_Z_mult;
     unfold Render.LNG_MIN, Render.GRID_STEP; field; exact Hw).
  fold row col. unfold Render.gridIndex. rewrite NUM_LAT_eq, NUM_LNG_eq.
  destruct (Z.ltb_spec col 0); [lia |].
  destruct (Z.leb_spec 181 col); lia.
Qed.

Lemma nearestIndex_pixel_witness :
  (1023 < 1024)%nat ∧ (511 < 512)%nat
  ∧ @Render.nearestIndex exact (Render.pixelLat 511 512) (Render.pixelLng 1023 1024)
    = 90 * Render.NUM_LNG + 180.
Proof.
  assert (Hx : (1023 < 1024)%nat) by lia. assert (Hy : (511 < 512)%nat) by lia.
  split; [exact Hx |]. split; [exact Hy |].
  exact (proj1 (nearestIndex_pixel 1024 512 1023 511 Hx Hy)).
Defined.

End NearestCell.

(** ** The canvas of a job *)

Section Canvas.
Context {N : JSNumber}.

Lemma drawnOk_draw (temps : list num) (opts : RenderOpts)
    (tiles : list (nat * nat * list Z)) (pixels : list Z) :
  drawnOk temps opts tiles →
  Worker.renderPixelData (daySlice temps (length tiles)) opts
    Worker.FRAME_W Worker.FRAME_H = Some pixels →
  drawnOk temps opts (tiles ++ [(Worker.tileOrigin (length tiles), pixels)]).
Proof.
  intros Hok Hr d tile Hd.
  apply lookup_app_Some in Hd as [Hd | [Hge Hd]]; [exact (Hok d tile Hd) |].
  apply list_lookup_singleton_Some in Hd as [Hz <-].
  replace d with (length tiles) by lia. split; [reflexivity | exact Hr].
Qed.

Lemma renderDays_tiles (c : bool) (rem : nat) :
  ∀ (j : Worker.Job) (day : nat),
    length (Worker.drawn j) = day →
    drawnOk (Worker.allTemps j) (Worker.opts j) (Worker.drawn j) →
    ∃ k j', Worker.renderDays c rem j day = (progressSeq (Worker.numDays j) day k, j')
      ∧ sameCall j j' ∧ (k <= rem)%nat
      ∧ length (Worker.drawn j') = (day + k)%nat
      ∧ drawnOk (Worker.allTemps j) (Worker.opts j) (Worker.drawn j')
      ∧ (Worker.pc j' = Worker.AtDay (day + k)
         ∨ (Worker.pc j' = Worker.AwaitBlob ∧ k = rem)
         ∨ (Worker.pc j' = Worker.Returned ∧ c = true)
         ∨ Worker.pc j' = Worker.Rejected).
Proof.
  destruct c.
  { intros j day Hlen Hok. rewrite renderDays_cancelled.
    exists 0%nat, (Worker.at_pc j Worker.Returned). cbn.
    split; [reflexivity |]. split; [repeat split |]. split; [lia |].
    split; [lia |]. split; [exact Hok |]. right. right. left. auto. }
  induction rem as [| rem IH]; intros j day Hlen Hok.
  - exists 0%nat, (Worker.at_pc j Worker.AwaitBlob). cbn.
    split; [reflexivity |]. split; [repeat split |]. split; [lia |].
    split; [lia |]. split; [exact Hok |]. right. left. auto.
  - cbn [Worker.renderDays].
    destruct (Worker.renderPixelData _ (Worker.opts j) Worker.FRAME_W Worker.FRAME_H)
      as [pixels |] eqn:Hr.
    + assert (Hok' : drawnOk (Worker.allTemps j) (Worker.opts j)
                       (Worker.drawn (Worker.draw j day pixels))).
      { cbn [Worker.draw Worker.drawn]. rewrite <- Hlen.
        apply drawnOk_draw; [exact Hok |]. rewrite Hlen. exact Hr. }
      assert (Hlen' : length (Worker.drawn (Worker.draw j day pixels)) = S day).
      { cbn [Worker.draw Worker.drawn]. rewrite length_app. cbn. lia. }
      destruct (day mod 5 =? 0)%nat.
      * exists 1%nat, (Worker.at_pc (Worker.draw j day pixels) (Worker.AtDay (S day))).
        split; [reflexivity |]. split; [repeat split |]. split; [lia |].
        split; [cbn [Worker.at_pc Worker.drawn]; lia |].
        split; [exact Hok' |]. left. cbn. f_equal. lia.
      * destruct (IH (Worker.draw j day pixels) (S day) Hlen' Hok')
          as (k & j' & -> & Hs & Hk & Hl & Hd & Hpc).
        exists (S k), j'. split.
        { cbn [Worker.numDays Worker.draw]. rewrite progressSeq_cons. reflexivity. }
        split; [exact Hs |]. split; [lia |]. split; [lia |].
        split; [exact Hd |].
        destruct Hpc as [Hp | [[Hp ->] | [[_ Hc] | Hp]]].
        -- left. rewrite Hp. f_equal. lia.
        -- right. left. split; [exact Hp | reflexivity].
        -- discriminate Hc.
        -- right. right. right. exact Hp.
    + exists 0%nat, (Worker.at_pc j Worker.Rejected). cbn.
      split; [reflexivity |]. split; [repeat split |]. split; [lia |].
      split; [lia |]. split; [exact Hok |]. right. right. right. reflexivity.
Qed.

Lemma tilesInv_start (temps : list num) (n : nat) (opts : RenderOpts) :
  tilesInv temps n opts
    (Worker.step Worker.initial (Worker.Receive (Worker.Start temps n opts))).
Proof.
  cbn [Worker.step Worker.onmessage]. unfold Worker.renderAtlas.
  destruct (renderDays_tiles false n (Worker.mkJob temps n opts [] (Worker.AtDay 0)) 0)
    as (k & j' & -> & (Ht & Hn & Ho) & Hk & Hl & Hd & Hpc).
  { reflexivity. }
  { intros d tile Hd. discriminate Hd. }
  cbn [Worker.numDays Worker.allTemps Worker.opts] in *.
  exists j'. cbn. split; [reflexivity |]. split; [exact Ht |].
  split; [exact Hn |]. split; [exact Ho |]. split; [exact Hd |].
  split; [lia |].
  destruct Hpc as [-> | [[-> ->] | [[_ Hc] | ->]]].
  - split; [exact Hl | reflexivity].
  - split; [exact Hl | reflexivity].
  - discriminate Hc.
  - rewrite Hl. reflexivity.
Qed.

Lemma tilesInv_step (temps : list num) (n : nat) (opts : RenderOpts)
    (s : Worker.State) (e : Worker.Event) :
  ¬ isStart e → tilesInv temps n opts s → tilesInv temps n opts (Worker.step s e).
Proof.
  intros He (j & Hj & Ht & Hn & Ho & Hd & Hle & Hout).
  destruct e as [[temps' m o |] | i]; [contradiction He; exact I | |].
  - exists j. cbn. split; [exact Hj |]. split; [exact Ht |]. split; [exact Hn |].
    split; [exact Ho |]. split; [exact Hd |]. split; [exact Hle | exact Hout].
  - cbn [Worker.step]. rewrite Hj.
    destruct i as [| i];
      [| exists j; split; [exact Hj |]; split; [exact Ht |]; split; [exact Hn |];
         split; [exact Ho |]; split; [exact Hd |]; split; [exact Hle | exact Hout]].
    cbn [lookup list_lookup]. unfold Worker.resume.
    destruct (Worker.pc j) as [d | | | |] eqn:Hpc.
    + destruct Hout as [Hl Hbox].
      destruct (renderDays_tiles (Worker.cancelled s) (Worker.numDays j - d) j d Hl)
        as (k & j' & -> & (Ht' & Hn' & Ho') & Hk & Hl' & Hd' & Hpc').
      { rewrite Ht, Ho. exact Hd. }
      exists j'. cbn. split; [reflexivity |].
      split; [congruence |]. split; [congruence |]. split; [congruence |].
      split; [rewrite Ht, Ho in Hd'; exact Hd' |]. split; [lia |].
      rewrite Hbox, Hn. unfold progress.
      replace (progressSeq n 0 d ++ progressSeq n d k) with (progressSeq n 0 (d + k))
        by (symmetry; apply (progressSeq_app n 0 d k)).
      destruct Hpc' as [-> | [[-> ->] | [[-> _] | ->]]].
      * split; [exact Hl' | reflexivity].
      * split; [lia | f_equal; lia].
      * left. rewrite Hl'. reflexivity.
      * rewrite Hl'. reflexivity.
    + exists (Worker.at_pc j Worker.AwaitBuffer). cbn. rewrite app_nil_r.
      split; [reflexivity |]. split; [exact Ht |]. split; [exact Hn |].
      split; [exact Ho |]. split; [exact Hd |]. split; [exact Hle | exact Hout].
    + exists (Worker.at_pc j Worker.Returned). cbn.
      split; [reflexivity |]. split; [exact Ht |]. split; [exact Hn |].
      split; [exact Ho |]. split; [exact Hd |]. split; [exact Hle |].
      right. destruct Hout as [Hl Hbox]. split; [exact Hl |].
      rewrite Hbox, Hn. reflexivity.
    + exists j. cbn. rewrite app_nil_r, Hpc.
      split; [reflexivity |]. split; [exact Ht |]. split; [exact Hn |].
      split; [exact Ho |]. split; [exact Hd |]. split; [exact Hle | exact Hout].
    + exists j. cbn. rewrite app_nil_r, Hpc.
      split; [reflexivity |]. split; [exact Ht |]. split; [exact Hn |].
      split; [exact Ho |]. split; [exact Hd |]. split; [exact Hle | exact Hout].
Qed.

(** X10 -- however a job is resumed or cancelled, its canvas and its
    messages agree: as many tiles are drawn as progress messages are
    posted, tile [d] is drawn at the corner of day [d] and holds the frame
    that [renderPixelData] makes of that day's part of the buffer, and the
    atlas message is posted only when all [n] tiles are on the canvas. *)
Theorem tiles_follow_progress (temps : list num) (n : nat) (opts : RenderOpts)
    (events : list Worker.Event) :
  Forall (fun e => ¬ isStart e) events →
  let s := Worker.run (Worker.Receive (Worker.Start temps n opts) :: events)
             Worker.initial in
  ∃ j, Worker.jobs s = [j]
    ∧ (∀ d tile, Worker.drawn j !! d = Some tile →
         tile.1 = ((d mod 16) * 512, (d / 16) * 256)%nat
         ∧ Worker.renderPixelData
             (subarray temps (d * Z.to_nat Worker.NUM_POINTS)
                ((d + 1) * Z.to_nat Worker.NUM_POINTS)) opts 512 256
           = Some tile.2)
    ∧ (length (Worker.drawn j) <= n)%nat
    ∧ (Worker.outbox s
       = (fun d => Worker.Progress d n) <$> seq 1 (length (Worker.drawn j))
       ∨ (length (Worker.drawn j) = n
          ∧ Worker.outbox s
            = ((fun d => Worker.Progress d n) <$> seq 1 n)
              ++ [Worker.Atlas n 16 (Worker.atlasRows n) 512 256])).
Proof.
  intros Hev s.
  assert (Hinv : tilesInv temps n opts s).
  { subst s. rewrite run_cons.
    apply (run_inv (tilesInv temps n opts)); [| exact Hev | apply tilesInv_start].
    intros t e. apply tilesInv_step. }
  destruct Hinv as (j & Hj & _ & _ & _ & Hd & Hle & Hout).
  exists j. split; [exact Hj |]. split; [exact Hd |]. split; [exact Hle |].
  destruct (Worker.pc j).
  - left. destruct Hout as [-> Hbox]. exact Hbox.
  - left. destruct Hout as [-> Hbox]. exact Hbox.
  - left. destruct Hout as [-> Hbox]. exact Hbox.
  - destruct Hout as [Hbox | [Hl Hbox]]; [left | right; split]; assumption.
  - left. exact Hout.
Qed.

End Canvas.

Lemma tiles_follow_progress_witness :
  Forall (fun e : @Worker.Event ieee => ¬ isStart e)
    [Worker.Resume 0; Worker.Receive Worker.Cancel; Worker.Resume 0]
  ∧ let s := Worker.run
               (Worker.Receive (Worker.Start (@rampGrid ieee) 3 thermalOpts)
                :: [Worker.Resume 0; Worker.Receive Worker.Cancel; Worker.Resume 0])
               Worker.initial in
    ∃ j, Worker.jobs s = [j]
      ∧ (∀ d tile, Worker.drawn j !! d = Some tile →
           tile.1 = ((d mod 16) * 512, (d / 16) * 256)%nat
           ∧ @Worker.renderPixelData ieee
               (subarray rampGrid (d * Z.to_nat Worker.NUM_POINTS)
                  ((d + 1) * Z.to_nat Worker.NUM_POINTS)) thermalOpts 512 256
             = Some tile.2)
      ∧ (length (Worker.drawn j) <= 3)%nat
      ∧ (Worker.outbox s
         = (fun d => Worker.Progress d 3) <$> seq 1 (length (Worker.drawn j))
         ∨ (length (Worker.drawn j) = 3%nat
            ∧ Worker.outbox s
              = ((fun d => Worker.Progress d 3) <$> seq 1 3)
                ++ [Worker.Atlas 3 16 (Worker.atlasRows 3) 512 256])).
Proof.
  assert (Hev : Forall (fun e : @Worker.Event ieee => ¬ isStart e)
                  [Worker.Resume 0; Worker.Receive Worker.Cancel; Worker.Resume 0]).
  { repeat constructor; intros []. }
  split; [exact Hev |].
  exact (@tiles_follow_progress ieee rampGrid 3 thermalOpts _ Hev).
Defined.


(** ** When a job yields *)

Section Schedule.
Context {N : JSNumber}.

(** The loop runs on to the next day whose index is a multiple of 5, and
    yields after it. *)
Lemma renderDays_segment (g : nat) :
  ∀ (rem : nat) (j : Worker.Job) (day : nat),
    validStops (Worker.opts j) → (g < rem)%nat →
    ((day + g) mod 5 = 0)%nat → (∀ i, (i < g)%nat → ((day + i) mod 5 ≠ 0)%nat) →
    ∃ j', Worker.renderDays false rem j day
          = (progressSeq (Worker.numDays j) day (S g), j')
      ∧ sameCall j j' ∧ Worker.pc j' = Worker.AtDay (day + S g).
Proof.
  induction g as [| g IH]; intros rem j day Hv Hrem Hlast Hbefore;
    (destruct rem as [| rem]; [lia |]); cbn [Worker.renderDays];
    destruct (worker_renderPixelData_total
                (subarray (Worker.allTemps j) (day * Z.to_nat Worker.NUM_POINTS)
                   ((day + 1) * Z.to_nat Worker.NUM_POINTS))
                (Worker.opts j) Worker.FRAME_W Worker.FRAME_H Hv) as [pixels ->].
  - rewrite Nat.add_0_r in Hlast. rewrite Hlast. cbn [Nat.eqb].
    eexists. split; [reflexivity |]. split; [repeat split |].
    cbn. f_equal. lia.
  - pose proof (Hbefore 0%nat ltac:(lia)) as H0. rewrite Nat.add_0_r in H0.
    destruct (Nat.eqb_spec (day mod 5) 0) as [E | _]; [contradiction |].
    destruct (IH rem (Worker.draw j day pixels) (S day) Hv ltac:(lia))
      as (j' & -> & Hs & Hpc).
    { replace (S day + g)%nat with (day + S g)%nat by lia. exact Hlast. }
    { intros i Hi. replace (S day + i)%nat with (day + S i)%nat by lia.
      apply Hbefore. lia. }
    exists j'. split.
    { cbn [Worker.numDays Worker.draw]. rewrite progressSeq_cons. reflexivity. }
    split; [exact Hs |]. rewrite Hpc. f_equal. lia.
Qed.

(** X11 -- with a table of stops and no cancel request, a job yields to the
    event loop after day 1 and then after every fifth day: when it has
    been resumed [r] times and [5 r + 1] days fit in [n], it is suspended
    with exactly the first [5 r + 1] progress messages posted.  A cancel
    request can take effect only at these points. *)
Theorem yield_schedule (temps : list num) (n : nat) (opts : RenderOpts) (r : nat) :
  validStops opts → (5 * r + 1 <= n)%nat →
  let s := Worker.run (Worker.Receive (Worker.Start temps n opts)
                       :: replicate r (Worker.Resume 0)) Worker.initial in
  Worker.cancelled s = false
  ∧ Worker.outbox s = (fun d => Worker.Progress d n) <$> seq 1 (5 * r + 1)
  ∧ ∃ j, Worker.jobs s = [j] ∧ Worker.numDays j = n ∧ Worker.opts j = opts
      ∧ Worker.pc j = Worker.AtDay (5 * r + 1).
Proof.
  intros Hv. induction r as [| r IH]; intros Hn s.
  - subst s. cbn [replicate Worker.run fold_left Worker.step Worker.onmessage].
    unfold Worker.renderAtlas.
    destruct (renderDays_segment 0 n (Worker.mkJob temps n opts [] (Worker.AtDay 0))
                0 Hv ltac:(lia) eq_refl ltac:(intros; lia))
      as (j' & -> & (_ & Hn' & Ho') & Hpc).
    cbn. split; [reflexivity |]. split; [reflexivity |].
    exists j'. cbn in Hn', Ho'. auto.
  - subst s. rewrite replicate_S_end, app_comm_cons. unfold Worker.run.
    rewrite fold_left_app.
    destruct (IH ltac:(lia)) as (Hc & Hbox & j & Hj & Hnj & Hoj & Hpc).
    unfold Worker.run in Hc, Hbox, Hj.
    set (s := fold_left Worker.step (_ :: _) Worker.initial) in *. clearbody s.
    cbn [fold_left Worker.step]. rewrite Hj. cbn [lookup list_lookup].
    unfold Worker.resume. rewrite Hpc, Hc.
    destruct (renderDays_segment 4 (Worker.numDays j - (5 * r + 1)) j (5 * r + 1))
      as (j' & -> & (_ & Hn' & Ho') & Hpc').
    { rewrite Hoj. exact Hv. }
    { lia. }
    { replace (5 * r + 1 + 4)%nat with ((r + 1) * 5)%nat by lia.
      apply Nat.Div0.mod_mul. }
    { intros i Hi.
      replace (5 * r + 1 + i)%nat with (S i + r * 5)%nat by lia.
      rewrite Nat.Div0.mod_add, Nat.mod_small by lia. lia. }
    cbn [Worker.cancelled Worker.outbox Worker.jobs]. split; [reflexivity |]. split.
    + rewrite Hbox, Hnj.
      etransitivity; [apply (progressSeq_app n 0 (5 * r + 1) 5) |].
      replace (5 * S r + 1)%nat with (5 * r + 1 + 5)%nat by lia. reflexivity.
    + exists j'. split; [reflexivity |]. split; [congruence |].
      split; [congruence |]. rewrite Hpc'. f_equal. lia.
Qed.

(** X12 -- the cancel flag belongs to the worker, not to a job: a start
    request that arrives after a cancel request, while the first job is
    still suspended in its loop, lowers the flag again, and the first job
    goes on rendering and posting when it is resumed; without the start
    request it returns and posts nothing. *)
Theorem start_revives_cancelled_job (s : Worker.State) (j : Worker.Job) (k : nat)
    (temps2 : list num) (n2 : nat) (opts2 : RenderOpts) :
  Worker.jobs s = [j] → Worker.pc j = Worker.AtDay k →
  (k < Worker.numDays j)%nat → validStops (Worker.opts j) →
  (∃ j', Worker.jobs
           (Worker.run [Worker.Receive Worker.Cancel;
                        Worker.Receive (Worker.Start temps2 n2 opts2);
                        Worker.Resume 0] s) !! 0%nat = Some j'
         ∧ Worker.pc j' ≠ Worker.Returned
         ∧ Worker.Progress (k + 1) (Worker.numDays j)
           ∈ Worker.outbox
               (Worker.run [Worker.Receive Worker.Cancel;
                            Worker.Receive (Worker.Start temps2 n2 opts2);
                            Worker.Resume 0] s))
  ∧ Worker.outbox (Worker.run [Worker.Receive Worker.Cancel; Worker.Resume 0] s)
    = Worker.outbox s
  ∧ ∃ j', Worker.jobs (Worker.run [Worker.Receive Worker.Cancel; Worker.Resume 0] s)
          = [j'] ∧ Worker.pc j' = Worker.Returned.
Proof.
  intros Hj Hpc Hk Hv. split; [| split].
  - unfold Worker.run.
    cbn [fold_left Worker.step Worker.onmessage Worker.jobs Worker.cancelled
           Worker.outbox].
    destruct (Worker.renderAtlas false temps2 n2 opts2) as [msgs2 j2].
    cbn [Worker.step Worker.jobs Worker.cancelled Worker.outbox].
    rewrite Hj. cbn [app lookup list_lookup]. unfold Worker.resume. rewrite Hpc.
    destruct (renderDays_running (Worker.numDays j - k) j k)
      as (k' & j' & -> & _ & Hk' & Hpc').
    cbn [Worker.jobs Worker.outbox]. exists j'.
    split; [reflexivity |].
    assert (Hpos : (1 <= k')%nat).
    { destruct Hpc' as [[_ H1] | [[_ ->] | [_ Hnv]]]; [exact H1 | lia | contradiction]. }
    split.
    + destruct Hpc' as [[-> _] | [[-> _] | [_ Hnv]]];
        [discriminate | discriminate | contradiction].
    + apply elem_of_app. right. destruct k' as [| k']; [lia |].
      rewrite <- progressSeq_cons. left.
  - unfold Worker.run.
    cbn [fold_left Worker.step Worker.onmessage Worker.jobs Worker.cancelled
           Worker.outbox].
    rewrite Hj. cbn [lookup list_lookup]. unfold Worker.resume. rewrite Hpc.
    rewrite renderDays_cancelled. cbn. apply app_nil_r.
  - unfold Worker.run.
    cbn [fold_left Worker.step Worker.onmessage Worker.jobs Worker.cancelled
           Worker.outbox].
    rewrite Hj. cbn [lookup list_lookup]. unfold Worker.resume. rewrite Hpc.
    rewrite renderDays_cancelled. cbn. eexists. split; reflexivity.
Qed.

End Schedule.

Lemma yield_schedule_witness :
  @validStops ieee thermalOpts ∧ (5 * 2 + 1 <= 365)%nat
  ∧ let s := Worker.run (Worker.Receive (Worker.Start (@rampGrid ieee) 365 thermalOpts)
                         :: replicate 2 (Worker.Resume 0)) Worker.initial in
    Worker.cancelled s = false
    ∧ Worker.outbox s = (fun d => Worker.Progress d 365) <$> seq 1 (5 * 2 + 1)
    ∧ ∃ j, Worker.jobs s = [j] ∧ Worker.numDays j = 365%nat
        ∧ Worker.opts j = thermalOpts
        ∧ Worker.pc j = Worker.AtDay (5 * 2 + 1).
Proof.
  assert (Hv : @validStops ieee thermalOpts) by apply thermalOpts_valid.
  assert (Hn : (5 * 2 + 1 <= 365)%nat) by lia.
  split; [exact Hv |]. split; [exact Hn |].
  exact (@yield_schedule ieee rampGrid 365 thermalOpts 2 Hv Hn).
Defined.

Lemma start_revives_cancelled_job_witness :
  let j := @Worker.mkJob ieee [] 3 thermalOpts [] (Worker.AtDay 1) in
  let s := @Worker.mkState ieee false [j] [Worker.Progress 1 3] in
  Worker.jobs s = [j] ∧ Worker.pc j = Worker.AtDay 1
  ∧ (1 < Worker.numDays j)%nat ∧ validStops (Worker.opts j)
  ∧ Worker.outbox (Worker.run [Worker.Receive Worker.Cancel; Worker.Resume 0] s)
    = Worker.outbox s.
Proof.
  intros j s.
  assert (Hj : Worker.jobs s = [j]) by reflexivity.
  assert (Hpc : Worker.pc j = Worker.AtDay 1) by reflexivity.
  assert (Hk : (1 < Worker.numDays j)%nat) by (cbn; lia).
  assert (Hv : validStops (Worker.opts j)) by apply thermalOpts_valid.
  split; [exact Hj |]. split; [exact Hpc |]. split; [exact Hk |].
  split; [exact Hv |].
  exact (proj1 (proj2 (@start_revives_cancelled_job ieee s j 1 [] 0 thermalOpts
                         Hj Hpc Hk Hv))).
Defined.

(** ** The blur of a frame of one colour *)

Section BlurShape.
Context {N : JSNumber}.

Lemma blurRows_passes (data dst : list Z) (w h : nat) (radius : Z) :
  Render.blurRows data w h radius dst
  = fold_left (fun dst y =>
      fold_left (fun dst ch =>
        channelPass
          (fun x => byteAt data (Z.of_nat (y * w * 4) + x * 4 + ch))
          (fun d x v =>
             <[Z.to_nat (Z.of_nat (y * w * 4) + x * 4 + 3) := clamp8 255]>
               (<[Z.to_nat (Z.of_nat (y * w * 4) + x * 4 + ch) := v]> d))
          w radius dst)
        [0; 1; 2] dst)
      (seq 0 h) dst.
Proof. reflexivity. Qed.

Lemma blurCols_passes (dst data : list Z) (w h : nat) (radius : Z) :
  Render.blurCols dst w h radius data
  = fold_left (fun data x =>
      fold_left (fun data ch =>
        channelPass
          (fun y => byteAt dst ((y * Z.of_nat w + x) * 4 + ch))
          (fun d y v => <[Z.to_nat ((y * Z.of_nat w + x) * 4 + ch) := v]> d)
          h radius data)
        [0; 1; 2] data)
      (Z.of_nat <$> seq 0 w) data.
Proof. reflexivity. Qed.

Lemma channelPass_step (rd : Z → num) (wr : list Z → Z → Z → list Z)
    (n : nat) (radius : Z) (d : list Z) (sum : num) (count x : Z) :
  (fun '(d, (sum, count)) x =>
     let d := wr d x (clamp8 (toInt32 (sum / of_Z count + dec 1 2)%js)) in
     let nx := x + radius + 1 in
     let '(sum, count) :=
       if nx <? Z.of_nat n then ((sum + rd nx)%js, count + 1) else (sum, count) in
     let ox := x - radius in
     let '(sum, count) :=
       if 0 <=? ox then ((sum - rd ox)%js, count - 1) else (sum, count) in
     (d, (sum, count))) (d, (sum, count)) x
  = (wr d x (clamp8 (toInt32 (sum / of_Z count + dec 1 2)%js)),
     slide rd (Z.of_nat n) radius x (sum, count)).
Proof.
  unfold slide. cbv beta iota zeta.
  destruct (x + radius + 1 <? Z.of_nat n); destruct (0 <=? x - radius); reflexivity.
Qed.

(** What every store of a pass keeps, the pass keeps. *)
Lemma channelPass_keeps (rd : Z → num) (wr : list Z → Z → Z → list Z)
    (n : nat) (radius : Z) (P : list Z → Prop) (d : list Z) :
  (∀ d (x : nat) v, (x < n)%nat → P d → P (wr d (Z.of_nat x) v)) →
  P d → P (channelPass rd wr n radius d).
Proof.
  intros Hwr Hd. unfold channelPass.
  destruct (fold_left _ (Z.of_nat <$> seq 0 n) (of_Z 0, 0)) as [sum count].
  apply (fold_left_inv _ (fun st => P st.1)); [exact Hd |].
  intros [d' [s c]] x Hx H'. apply list_elem_of_fmap in Hx as (k & -> & Hk).
  apply elem_of_seq in Hk. rewrite channelPass_step. cbn [fst] in *.
  apply Hwr; [lia | exact H'].
Qed.

End BlurShape.

Section BlurUniform.
#[local] Existing Instance exact.

Lemma trunc_half (v : Q) (c : Z) :
  0 <= c → (v == inject_Z c + (1 # 2))%Q → Exact.trunc (XFin v) = c.
Proof.
  intros Hc Hv. cbn [Exact.trunc]. destruct v as [a b].
  unfold Qeq in Hv. cbn in Hv. cbn [Qnum Qden].
  assert (Hab : 2 * a = 2 * (c * Zpos b) + Zpos b) by lia.
  assert (Hcb : 0 <= c * Zpos b) by (apply Z.mul_nonneg_nonneg; lia).
  rewrite Z.quot_div_nonneg by lia.
  symmetry. apply (Z.div_unique a (Zpos b) c (a - c * Zpos b)); lia.
Qed.

Lemma window_value (q : Q) (cnt c : Z) :
  1 <= cnt → 0 <= c <= 255 → (q == inject_Z (cnt * c))%Q →
  clamp8 (@toInt32 exact (XFin q / of_Z cnt + dec 1 2)%js) = c.
Proof.
  intros Hcnt Hc Hq. unfold dec.
  cbn [add sub mul neg of_Z exact Exact.lift2 Exact.neg toInt32].
  rewrite !exact_div_const by lia.
  cbn [add exact Exact.lift2].
  rewrite (trunc_half _ c).
  - unfold clamp8, wrap32. rewrite Z.mod_small by lia. lia.
  - lia.
  - rewrite Hq, inject_Z_mult.
    assert (Hn : ¬ (inject_Z cnt == 0)%Q) by (apply inject_Z_nonzero; lia).
    change (inject_Z 1 / inject_Z 2)%Q with (1 # 2)%Q. field. exact Hn.
Qed.

Lemma windowCount_pos (limit radius x : Z) :
  0 <= radius → 0 <= x < limit → 1 <= windowCount limit radius x.
Proof. unfold windowCount. lia. Qed.

Section Line.
Variables (rd : Z → @num exact) (n : nat) (radius c : Z).
Hypothesis Hradius : 0 <= radius.
Hypothesis Hrd : ∀ p, 0 <= p < Z.of_nat n → rd p = XFin (inject_Z c).

Lemma init_ok :
  windowOk c (Z.of_nat n) radius 0
    (fold_left (fun '(sum, count) x =>
       if x <=? radius then ((sum + rd x)%js, count + 1) else (sum, count))
       (Z.of_nat <$> seq 0 n) (of_Z 0, 0)).
Proof.
  assert (H : (fun k (sc : @num exact * Z) =>
                 sc.2 = Z.min (Z.of_nat k) (radius + 1)
                 ∧ ∃ q, sc.1 = XFin q ∧ (q == inject_Z (sc.2 * c))%Q)
                (length (Z.of_nat <$> seq 0 n))
                (fold_left (fun '(sum, count) x =>
                   if x <=? radius then ((sum + rd x)%js, count + 1) else (sum, count))
                   (Z.of_nat <$> seq 0 n) (of_Z 0, 0))).
  { apply fold_left_indexed.
    - cbn. split; [lia |]. exists (inject_Z 0). split; [reflexivity | reflexivity].
    - intros k a [s cnt] Ha (Hcnt & q & Hs & Hq). cbn [fst snd] in *.
      rewrite list_lookup_fmap in Ha.
      destruct (seq 0 n !! k) as [k' |] eqn:Hk; [| discriminate Ha].
      apply lookup_seq in Hk as [-> Hk]. injection Ha as <-. cbn [Nat.add].
      destruct (Z.leb_spec (Z.of_nat k) radius) as [Hle | Hgt]; cbn [fst snd].
      + split; [lia |]. rewrite Hs, (Hrd (Z.of_nat k)) by lia.
        exists (q + inject_Z c)%Q. split; [reflexivity |].
        rewrite Hq, !inject_Z_mult, inject_Z_plus. ring.
      + split; [lia |]. exists q. split; [exact Hs | exact Hq]. }
  cbv beta in H. rewrite length_fmap, length_seq in H.
  destruct H as [Hcnt Hq]. split; [| exact Hq].
  rewrite Hcnt. unfold windowCount. lia.
Qed.

Lemma slide_ok (x : Z) (sc : @num exact * Z) :
  0 <= x < Z.of_nat n →
  windowOk c (Z.of_nat n) radius x sc →
  windowOk c (Z.of_nat n) radius (x + 1) (slide rd (Z.of_nat n) radius x sc).
Proof.
  intros Hx. destruct sc as [s cnt]. intros (Hcnt & q & Hs & Hq).
  cbn [fst snd] in *. subst s. unfold slide.
  destruct (Z.ltb_spec (x + radius + 1) (Z.of_nat n)) as [Hnx | Hnx];
    destruct (Z.leb_spec 0 (x - radius)) as [Hox | Hox]; cbn [fst snd];
    rewrite ?(Hrd (x + radius + 1)) by lia; rewrite ?(Hrd (x - radius)) by lia;
    cbn [add sub exact Exact.lift2]; unfold windowOk; cbn [fst snd].
  - split; [unfold windowCount in *; lia |].
    eexists. split; [reflexivity |].
    replace (cnt + 1 - 1) with cnt by lia. rewrite Hq. ring.
  - split; [unfold windowCount in *; lia |].
    eexists. split; [reflexivity |].
    replace ((cnt + 1) * c) with (cnt * c + c) by ring.
    rewrite inject_Z_plus, Hq. ring.
  - split; [unfold windowCount in *; lia |].
    eexists. split; [reflexivity |].
    replace ((cnt - 1) * c) with (cnt * c + - c) by ring.
    rewrite inject_Z_plus, inject_Z_opp, Hq. ring.
  - split; [unfold windowCount in *; lia |].
    exists q. split; [reflexivity | exact Hq].
Qed.

(** Along a line on which the source holds [c] everywhere, a pass stores
    [c] at every position. *)
Lemma channelPass_cell (wr : list Z → Z → Z → list Z) (I P : list Z → Prop)
    (x0 : nat) :
  0 <= c <= 255 → (x0 < n)%nat →
  (∀ d (x : nat) v, (x < n)%nat → I d → I (wr d (Z.of_nat x) v)) →
  (∀ d, I d → P (wr d (Z.of_nat x0) c)) →
  (∀ d (x : nat) v, (x < n)%nat → x ≠ x0 → I d → P d → P (wr d (Z.of_nat x) v)) →
  ∀ d, I d → P (channelPass rd wr n radius d).
Proof.
  intros Hc Hx0 HI Hest Hpres d Hd. unfold channelPass.
  pose proof init_ok as Hinit.
  destruct (fold_left _ (Z.of_nat <$> seq 0 n) (of_Z 0, 0)) as [sum count].
  assert (H : (fun k (st : list Z * (@num exact * Z)) =>
                 I st.1 ∧ windowOk c (Z.of_nat n) radius (Z.of_nat k) st.2
                 ∧ ((x0 < k)%nat → P st.1))
                (length (Z.of_nat <$> seq 0 n))
                (fold_left (fun '(d, (sum, count)) x =>
                   let d := wr d x (clamp8 (toInt32 (sum / of_Z count + dec 1 2)%js)) in
                   let nx := x + radius + 1 in
                   let '(sum, count) :=
                     if nx <? Z.of_nat n then ((sum + rd nx)%js, count + 1)
                     else (sum, count) in
                   let ox := x - radius in
                   let '(sum, count) :=
                     if 0 <=? ox then ((sum - rd ox)%js, count - 1)
                     else (sum, count) in
                   (d, (sum, count)))
                   (Z.of_nat <$> seq 0 n) (d, (sum, count)))).
  { apply fold_left_indexed.
    - cbn [fst snd]. split; [exact Hd |]. split; [exact Hinit | lia].
    - intros k a [d' [s cnt]] Ha (HId & Hw & HP). cbn [fst snd] in *.
      rewrite list_lookup_fmap in Ha.
      destruct (seq 0 n !! k) as [k' |] eqn:Hk; [| discriminate Ha].
      apply lookup_seq in Hk as [-> Hk]. injection Ha as <-. cbn [Nat.add].
      rewrite channelPass_step. cbn [fst snd].
      destruct Hw as (Hcnt & q & Hs & Hq). cbn [fst snd] in *. subst s.
      pose proof (windowCount_pos (Z.of_nat n) radius (Z.of_nat k) Hradius
                    ltac:(lia)) as Hpos.
      rewrite (window_value q cnt c) by (try lia; exact Hq).
      split; [apply HI; assumption |]. split.
      + replace (Z.of_nat (S k)) with (Z.of_nat k + 1) by lia.
        apply slide_ok; [lia |]. split; [exact Hcnt |].
        exists q. split; [reflexivity | exact Hq].
      + intros Hlt. destruct (decide (k = x0)) as [-> | Hne].
        * apply Hest. exact HId.
        * apply Hpres; [exact Hk | exact Hne | exact HId | apply HP; lia]. }
  cbv beta in H. rewrite length_fmap, length_seq in H.
  apply H. exact Hx0.
Qed.

End Line.

End BlurUniform.

Lemma readZ_insert_eq (d : list Z) (i v : Z) :
  0 <= i < Z.of_nat (length d) → readZ (<[Z.to_nat i := v]> d) i = Some v.
Proof.
  intros Hi. unfold readZ. destruct (Z.ltb_spec i 0); [lia |].
  apply list_lookup_insert_eq. lia.
Qed.

Lemma readZ_insert_ne (d : list Z) (i j v : Z) :
  0 <= i → i ≠ j → readZ (<[Z.to_nat i := v]> d) j = readZ d j.
Proof.
  intros Hi Hne. unfold readZ. destruct (Z.ltb_spec j 0); [reflexivity |].
  apply list_lookup_insert_ne. lia.
Qed.

(** A loop in which one turn establishes [P] and the others keep it. *)
Lemma fold_left_establish {S A} `{EqDecision A} (f : S → A → S)
    (I P : S → Prop) (l : list A) (a0 : A) (s : S) :
  a0 ∈ l →
  (∀ s a, a ∈ l → I s → I (f s a)) →
  (∀ s, I s → P (f s a0)) →
  (∀ s a, a ∈ l → a ≠ a0 → I s → P s → P (f s a)) →
  I s → I (fold_left f l s) ∧ P (fold_left f l s).
Proof.
  intros Hin HI Hest Hpres Hs.
  assert (Hgen : ∀ l' s', (∀ a, a ∈ l' → a ∈ l) → I s' → (P s' ∨ a0 ∈ l') →
            I (fold_left f l' s') ∧ P (fold_left f l' s')).
  { induction l' as [| a l' IH]; intros s' Hsub Hs' Hor.
    - cbn. split; [exact Hs' |].
      destruct Hor as [HP | Hin']; [exact HP |].
      apply elem_of_nil in Hin'. contradiction.
    - cbn [fold_left]. apply IH.
      + intros b Hb. apply Hsub. right. exact Hb.
      + apply HI; [apply Hsub; left | exact Hs'].
      + destruct (decide (a = a0)) as [-> | Hne].
        * left. apply Hest. exact Hs'.
        * destruct Hor as [HP | Hin'].
          -- left. apply Hpres; [apply Hsub; left | exact Hne | exact Hs' | exact HP].
          -- right. apply elem_of_cons in Hin' as [-> | Hin'];
               [contradiction | exact Hin']. }
  apply Hgen; auto.
Qed.

Lemma cell_index_inj (w x y x' y' : nat) (ch ch' : Z) :
  (x < w)%nat → (x' < w)%nat → 0 <= ch < 4 → 0 <= ch' < 4 →
  (Z.of_nat y * Z.of_nat w + Z.of_nat x) * 4 + ch
  = (Z.of_nat y' * Z.of_nat w + Z.of_nat x') * 4 + ch' →
  x = x' ∧ y = y' ∧ ch = ch'.
Proof.
  intros Hx Hx' Hch Hch' E.
  assert (Hp : (y * w + x = y' * w + x')%nat) by lia.
  destruct (pixel_index_inj w x y x' y' Hx Hx' Hp) as [-> ->]. lia.
Qed.

Lemma channels_range (ch : Z) : ch ∈ [0; 1; 2] → 0 <= ch < 3.
Proof.
  intros H. repeat (apply elem_of_cons in H as [-> | H]; [lia |]).
  apply elem_of_nil in H. contradiction.
Qed.

Lemma channels_elem (ch : Z) : 0 <= ch < 3 → ch ∈ [0; 1; 2].
Proof.
  intros H. assert (ch = 0 ∨ ch = 1 ∨ ch = 2) as [-> | [-> | ->]] by lia;
    repeat constructor.
Qed.

Section BlurPasses.
#[local] Existing Instance exact.
Variables (w h : nat) (radius : Z) (c : rgb).
Hypothesis Hradius : 0 <= radius.
Hypothesis Hc : byteColor c.

Lemma channel_byte (ch : Z) : 0 <= channel c ch <= 255.
Proof.
  unfold channel. destruct Hc as (H1 & H2 & H3). unfold isByte in *.
  destruct (ch =? 0); [lia |]. destruct (ch =? 1); lia.
Qed.

Lemma byteAt_uniform (data : list Z) (p ch : Z) :
  uniformRGB w h c data → 0 <= p < Z.of_nat (w * h) → 0 <= ch < 3 →
  @byteAt exact data (p * 4 + ch) = XFin (inject_Z (channel c ch)).
Proof.
  intros [_ Hu] Hp Hch. unfold byteAt. rewrite (Hu p ch Hp Hch). reflexivity.
Qed.

Lemma blurRows_cell (data dst : list Z) (y0 x0 : nat) (ch0 : Z) :
  uniformRGB w h c data → length dst = (w * h * 4)%nat →
  (x0 < w)%nat → (y0 < h)%nat → 0 <= ch0 < 3 →
  length (@Render.blurRows exact data w h radius dst) = (w * h * 4)%nat
  ∧ readZ (@Render.blurRows exact data w h radius dst)
      ((Z.of_nat y0 * Z.of_nat w + Z.of_nat x0) * 4 + ch0)
    = Some (channel c ch0).
Proof.
  intros Hu Hlen Hx0 Hy0 Hch0. rewrite blurRows_passes.
  set (j0 := (Z.of_nat y0 * Z.of_nat w + Z.of_nat x0) * 4 + ch0).
  set (I := fun d : list Z => length d = (w * h * 4)%nat).
  set (P := fun d : list Z => readZ d j0 = Some (channel c ch0)).
  assert (HI : ∀ (y : nat) (ch : Z) (d : list Z) (x : nat) (v : Z),
            (x < w)%nat → I d →
            I (<[Z.to_nat (Z.of_nat (y * w * 4) + Z.of_nat x * 4 + 3) := clamp8 255]>
                 (<[Z.to_nat (Z.of_nat (y * w * 4) + Z.of_nat x * 4 + ch) := v]> d))).
  { intros y ch d x v _ Hd. unfold I. rewrite !length_insert. exact Hd. }
  assert (HP : ∀ (y : nat) (ch : Z) (d : list Z) (x : nat) (v : Z),
            (x < w)%nat → 0 <= ch < 3 → (y, x, ch) ≠ (y0, x0, ch0) → P d →
            P (<[Z.to_nat (Z.of_nat (y * w * 4) + Z.of_nat x * 4 + 3) := clamp8 255]>
                 (<[Z.to_nat (Z.of_nat (y * w * 4) + Z.of_nat x * 4 + ch) := v]> d))).
  { intros y ch d x v Hx Hch Hne Hd. unfold P.
    rewrite !readZ_insert_ne; [exact Hd | lia | | lia |].
    - intros E. apply Hne.
      destruct (cell_index_inj w x y x0 y0 ch ch0 Hx Hx0 ltac:(lia) ltac:(lia))
        as (-> & -> & ->); [subst j0; lia | reflexivity].
    - intros E.
      destruct (cell_index_inj w x y x0 y0 3 ch0 Hx Hx0 ltac:(lia) ltac:(lia))
        as (_ & _ & E3); [subst j0; lia | lia]. }
  apply (fold_left_establish _ I P (seq 0 h) y0).
  - apply elem_of_seq. lia.
  - intros d y _ Hd. apply (fold_left_inv _ I); [exact Hd |].
    intros d' ch _ Hd'. apply (channelPass_keeps _ _ _ _ I); [| exact Hd'].
    intros d'' x v Hx Hd''. apply HI; assumption.
  - intros d Hd.
    apply (fold_left_establish _ I P [0; 1; 2] ch0).
    + apply channels_elem. exact Hch0.
    + intros d' ch _ Hd'. apply (channelPass_keeps _ _ _ _ I); [| exact Hd'].
      intros d'' x v Hx Hd''. apply HI; assumption.
    + intros d' Hd'.
      apply (channelPass_cell _ w radius (channel c ch0) Hradius) with (I := I) (x0 := x0).
      * intros p Hp.
        replace (Z.of_nat (y0 * w * 4) + p * 4 + ch0)
          with ((Z.of_nat y0 * Z.of_nat w + p) * 4 + ch0) by lia.
        apply byteAt_uniform; [exact Hu | nia | exact Hch0].
      * apply channel_byte.
      * exact Hx0.
      * intros d'' x v Hx Hd''. apply HI; assumption.
      * intros d'' Hd''. unfold P.
        rewrite readZ_insert_ne by (subst j0; lia).
        replace j0 with (Z.of_nat (y0 * w * 4) + Z.of_nat x0 * 4 + ch0)
          by (subst j0; lia).
        apply readZ_insert_eq. unfold I in Hd''. rewrite Hd''. nia.
      * intros d'' x v Hx Hne _ Hd''. apply HP; [exact Hx | exact Hch0 | | exact Hd''].
        congruence.
      * exact Hd'.
    + intros d' ch Hch Hne _ Hd'. apply (channelPass_keeps _ _ _ _ P); [| exact Hd'].
      intros d'' x v Hx Hd''. apply HP; [exact Hx | apply channels_range; exact Hch | | exact Hd''].
      congruence.
    + exact Hd.
  - intros d y _ Hne _ Hd. apply (fold_left_inv _ P); [exact Hd |].
    intros d' ch Hch Hd'. apply (channelPass_keeps _ _ _ _ P); [| exact Hd'].
    intros d'' x v Hx Hd''. apply HP; [exact Hx | apply channels_range; exact Hch | | exact Hd''].
    congruence.
  - exact Hlen.
Qed.

Lemma blurCols_cell (dst data : list Z) (y0 x0 : nat) (ch0 : Z) :
  uniformRGB w h c dst → length data = (w * h * 4)%nat →
  (x0 < w)%nat → (y0 < h)%nat → 0 <= ch0 < 3 →
  length (@Render.blurCols exact dst w h radius data) = (w * h * 4)%nat
  ∧ readZ (@Render.blurCols exact dst w h radius data)
      ((Z.of_nat y0 * Z.of_nat w + Z.of_nat x0) * 4 + ch0)
    = Some (channel c ch0).
Proof.
  intros Hu Hlen Hx0 Hy0 Hch0. rewrite blurCols_passes.
  set (j0 := (Z.of_nat y0 * Z.of_nat w + Z.of_nat x0) * 4 + ch0).
  set (I := fun d : list Z => length d = (w * h * 4)%nat).
  set (P := fun d : list Z => readZ d j0 = Some (channel c ch0)).
  assert (HI : ∀ (x ch : Z) (d : list Z) (y : nat) (v : Z),
            (y < h)%nat → I d →
            I (<[Z.to_nat ((Z.of_nat y * Z.of_nat w + x) * 4 + ch) := v]> d)).
  { intros x ch d y v _ Hd. unfold I. rewrite length_insert. exact Hd. }
  assert (HP : ∀ (x : nat) (ch : Z) (d : list Z) (y : nat) (v : Z),
            (x < w)%nat → 0 <= ch < 3 → (y, x, ch) ≠ (y0, x0, ch0) → P d →
            P (<[Z.to_nat ((Z.of_nat y * Z.of_nat w + Z.of_nat x) * 4 + ch) := v]> d)).
  { intros x ch d y v Hx Hch Hne Hd. unfold P.
    rewrite readZ_insert_ne; [exact Hd | lia |].
    intros E. apply Hne.
    destruct (cell_index_inj w x y x0 y0 ch ch0 Hx Hx0 ltac:(lia) ltac:(lia))
      as (-> & -> & ->); [subst j0; lia | reflexivity]. }
  assert (Hcols : ∀ a, a ∈ Z.of_nat <$> seq 0 w → ∃ x, a = Z.of_nat x ∧ (x < w)%nat).
  { intros a Ha. apply list_elem_of_fmap in Ha as (x & -> & Hx).
    apply elem_of_seq in Hx. exists x. split; [reflexivity | lia]. }
  apply (fold_left_establish _ I P (Z.of_nat <$> seq 0 w) (Z.of_nat x0)).
  - apply list_elem_of_fmap. exists x0. split; [reflexivity |].
    apply elem_of_seq. lia.
  - intros d a _ Hd. apply (fold_left_inv _ I); [exact Hd |].
    intros d' ch _ Hd'. apply (channelPass_keeps _ _ _ _ I); [| exact Hd'].
    intros d'' y v Hy Hd''. apply HI; assumption.
  - intros d Hd.
    apply (fold_left_establish _ I P [0; 1; 2] ch0).
    + apply channels_elem. exact Hch0.
    + intros d' ch _ Hd'. apply (channelPass_keeps _ _ _ _ I); [| exact Hd'].
      intros d'' y v Hy Hd''. apply HI; assumption.
    + intros d' Hd'.
      apply (channelPass_cell _ h radius (channel c ch0) Hradius) with (I := I) (x0 := y0).
      * intros p Hp. apply byteAt_uniform; [exact Hu | nia | exact Hch0].
      * apply channel_byte.
      * exact Hy0.
      * intros d'' y v Hy Hd''. apply HI; assumption.
      * intros d'' Hd''. unfold P. subst j0.
        apply readZ_insert_eq. unfold I in Hd''. rewrite Hd''. nia.
      * intros d'' y v Hy Hne _ Hd''. apply HP; [exact Hx0 | exact Hch0 | | exact Hd''].
        congruence.
      * exact Hd'.
    + intros d' ch Hch Hne _ Hd'. apply (channelPass_keeps _ _ _ _ P); [| exact Hd'].
      intros d'' y v Hy Hd''.
      apply HP; [exact Hx0 | apply channels_range; exact Hch | | exact Hd''].
      congruence.
    + exact Hd.
  - intros d a Ha Hne _ Hd. destruct (Hcols a Ha) as (x & -> & Hx).
    apply (fold_left_inv _ P); [exact Hd |].
    intros d' ch Hch Hd'. apply (channelPass_keeps _ _ _ _ P); [| exact Hd'].
    intros d'' y v Hy Hd''.
    apply HP; [exact Hx | apply channels_range; exact Hch | | exact Hd''].
    congruence.
  - exact Hlen.
Qed.

Lemma uniformRGB_cells (d : list Z) :
  length d = (w * h * 4)%nat →
  (∀ (y0 x0 : nat) (ch0 : Z), (x0 < w)%nat → (y0 < h)%nat → 0 <= ch0 < 3 →
     readZ d ((Z.of_nat y0 * Z.of_nat w + Z.of_nat x0) * 4 + ch0)
     = Some (channel c ch0)) →
  uniformRGB w h c d.
Proof.
  intros Hlen Hcells. split; [exact Hlen |]. intros p ch Hp Hch.
  assert (Hw : (0 < w)%nat) by (destruct w; lia).
  pose proof (Nat.div_mod_eq (Z.to_nat p) w) as Hdm.
  assert (Hx : (Z.to_nat p mod w < w)%nat) by (apply Nat.mod_upper_bound; lia).
  assert (Hy : (Z.to_nat p / w < h)%nat)
    by (apply Nat.Div0.div_lt_upper_bound; lia).
  replace p with (Z.of_nat (Z.to_nat p / w) * Z.of_nat w
                  + Z.of_nat (Z.to_nat p mod w)) by lia.
  apply Hcells; assumption.
Qed.

(** One pass of the blur on a buffer of one colour. *)
Lemma blur_pass_uniform (data dst : list Z) :
  uniformRGB w h c data → length dst = (w * h * 4)%nat →
  @Render.blurCols exact (@Render.blurRows exact data w h radius dst) w h radius data
  = data
  ∧ length (@Render.blurRows exact data w h radius dst) = (w * h * 4)%nat.
Proof.
  intros Hu Hlen.
  assert (Hrows : uniformRGB w h c (@Render.blurRows exact data w h radius dst)).
  { destruct (decide (0 < w * h)%nat) as [Hpos | Hzero].
    - apply uniformRGB_cells.
      + assert (Hw : (0 < w)%nat) by (destruct w; lia).
        assert (Hh : (0 < h)%nat) by (destruct h; lia).
        exact (proj1 (blurRows_cell data dst 0 0 0 Hu Hlen Hw Hh ltac:(lia))).
      + intros y0 x0 ch0 Hx Hy Hch.
        exact (proj2 (blurRows_cell data dst y0 x0 ch0 Hu Hlen Hx Hy Hch)).
    - split; [| intros p ch Hp; lia].
      rewrite blurRows_passes.
      apply (fold_left_inv _ (fun d : list Z => length d = (w * h * 4)%nat));
        [exact Hlen |].
      intros d y _ Hd.
      apply (fold_left_inv _ (fun d : list Z => length d = (w * h * 4)%nat));
        [exact Hd |].
      intros d' ch _ Hd'.
      apply (channelPass_keeps _ _ _ _ (fun d : list Z => length d = (w * h * 4)%nat));
        [| exact Hd'].
      intros d'' x v _ Hd''. rewrite !length_insert. exact Hd''. }
  split; [| exact (proj1 Hrows)].
  pose proof (blurCols_sameAlpha (@Render.blurRows exact data w h radius dst)
                data w h radius) as [Hl Halpha].
  apply list_eq. intros j.
  destruct (decide (j mod 4 = 3)%nat) as [H3 | H3]; [apply Halpha; exact H3 |].
  destruct (decide (j < w * h * 4)%nat) as [Hj | Hj].
  - pose proof (Nat.div_mod_eq j 4) as Hdm.
    pose proof (Nat.mod_upper_bound j 4 ltac:(lia)) as Hm.
    pose proof (Nat.div_mod_eq (j / 4) w) as Hdw.
    assert (Hw : (0 < w)%nat) by (destruct w; lia).
    assert (Hx : ((j / 4) mod w < w)%nat) by (apply Nat.mod_upper_bound; lia).
    assert (Hy : (j / 4 / w < h)%nat)
      by (apply Nat.Div0.div_lt_upper_bound; lia).
    assert (Hch : 0 <= Z.of_nat (j mod 4) < 3) by lia.
    pose proof (proj2 (blurCols_cell _ data (j / 4 / w) ((j / 4) mod w)
                         (Z.of_nat (j mod 4)) Hrows (proj1 Hu) Hx Hy Hch)) as Hnew.
    pose proof (proj2 Hu (Z.of_nat (j / 4)) (Z.of_nat (j mod 4)) ltac:(lia) Hch)
      as Hold.
    replace ((Z.of_nat (j / 4 / w) * Z.of_nat w + Z.of_nat ((j / 4) mod w)) * 4
             + Z.of_nat (j mod 4)) with (Z.of_nat j) in Hnew by lia.
    replace (Z.of_nat (j / 4) * 4 + Z.of_nat (j mod 4)) with (Z.of_nat j) in Hold
      by lia.
    unfold readZ in Hnew, Hold.
    destruct (Z.ltb_spec (Z.of_nat j) 0); [lia |].
    rewrite Nat2Z.id in Hnew, Hold. congruence.
  - rewrite !lookup_ge_None_2; [reflexivity | | ].
    + rewrite (proj1 Hu). lia.
    + rewrite Hl, (proj1 Hu). lia.
Qed.

End BlurPasses.

Lemma blur_passes_uniform (data : list Z) (w h : nat) (radius : Z) (passes : nat)
    (c : rgb) (dst0 : list Z) :
  uniformRGB w h c data → byteColor c → 0 <= radius →
  length dst0 = (w * h * 4)%nat →
  ∃ dst, Nat.iter passes
           (fun '(data, dst) =>
              let dst := @Render.blurRows exact data w h radius dst in
              let data := @Render.blurCols exact dst w h radius data in
              (data, dst)) (data, dst0) = (data, dst)
         ∧ length dst = (w * h * 4)%nat.
Proof.
  intros Hu Hc Hradius Hdst0. induction passes as [| n IH].
  - exists dst0. split; [reflexivity | exact Hdst0].
  - rewrite Nat.iter_succ. destruct IH as (dst & -> & Hdst).
    destruct (blur_pass_uniform w h radius c Hradius Hc data dst Hu Hdst)
      as [Hdata Hrows].
    eexists. split; [| exact Hrows]. cbv beta iota zeta. f_equal. exact Hdata.
Qed.

(** X13 -- in exact arithmetic, [boxBlur] leaves a frame of one colour as it
    is, for every radius that is not negative and any number of passes:
    the mean over a window is taken over the positions inside the frame
    only, so the edges of a frame are not darkened. *)
Theorem boxBlur_uniform (data : list Z) (w h : nat) (radius : Z) (passes : nat)
    (c : rgb) :
  uniformRGB w h c data → byteColor c → 0 <= radius →
  @Render.boxBlur exact data w h radius passes = data.
Proof.
  intros Hu Hc Hradius. unfold Render.boxBlur.
  destruct (blur_passes_uniform data w h radius passes c
              (replicate (length data) 0) Hu Hc Hradius) as (dst & E & _).
  { rewrite length_replicate. exact (proj1 Hu). }
  etransitivity; [apply (f_equal fst); exact E | reflexivity].
Qed.

Lemma boxBlur_uniform_witness :
  uniformRGB 2 1 (255, 230, 47) [255; 230; 47; 255; 255; 230; 47; 255]
  ∧ byteColor (255, 230, 47) ∧ 0 <= 2
  ∧ @Render.boxBlur exact [255; 230; 47; 255; 255; 230; 47; 255] 2 1 2 3
    = [255; 230; 47; 255; 255; 230; 47; 255].
Proof.
  assert (Hu : uniformRGB 2 1 (255, 230, 47) [255; 230; 47; 255; 255; 230; 47; 255]).
  { split; [reflexivity |]. intros p ch Hp Hch.
    assert (p = 0 ∨ p = 1) as [-> | ->] by lia;
      (assert (ch = 0 ∨ ch = 1 ∨ ch = 2) as [-> | [-> | ->]] by lia); reflexivity. }
  assert (Hc : byteColor (255, 230, 47)) by (unfold byteColor, isByte; cbn; lia).
  assert (Hr : 0 <= 2) by lia.
  split; [exact Hu |]. split; [exact Hc |]. split; [exact Hr |].
  exact (boxBlur_uniform _ 2 1 2 3 (255, 230, 47) Hu Hc Hr).
Defined.

(** ** Frames of one colour *)

Lemma pixel_decompose (w h i : nat) :
  (i < w * h)%nat → ∃ x y, (x < w)%nat ∧ (y < h)%nat ∧ i = (y * w + x)%nat.
Proof.
  intros Hi. assert (Hw : (0 < w)%nat) by (destruct w; lia).
  exists (i mod w)%nat, (i / w)%nat.
  split; [apply Nat.mod_upper_bound; lia |].
  split; [apply Nat.Div0.div_lt_upper_bound; lia |].
  pose proof (Nat.div_mod_eq i w). lia.
Qed.

Lemma readZ_of_nat {A} (a : list A) (n : nat) : readZ a (Z.of_nat n) = a !! n.
Proof.
  unfold readZ. destruct (Z.ltb_spec (Z.of_nat n) 0); [lia |].
  rewrite Nat2Z.id. reflexivity.
Qed.

Lemma restamp_no_ocean (oceanMask data : list Z) :
  (∀ i m, oceanMask !! i = Some m → m = 0) →
  Render.restamp oceanMask data = data.
Proof.
  intros H. unfold Render.restamp.
  apply (fold_left_inv _ (fun d => d = data)); [reflexivity |].
  intros d i _ ->. destruct (oceanMask !! i) as [m |] eqn:E; [| reflexivity].
  rewrite (H i m E). reflexivity.
Qed.

Lemma pixels_uniformRGB (w h : nat) (data : list Z) (r g b : Z) :
  length data = (w * h * 4)%nat →
  (∀ x y, (x < w)%nat → (y < h)%nat → pixelIs data (y * w + x) r g b 255) →
  uniformRGB w h (r, g, b) data.
Proof.
  intros Hlen Hpix. apply uniformRGB_cells; [exact Hlen |].
  intros y0 x0 ch0 Hx Hy Hch. destruct (Hpix x0 y0 Hx Hy) as (P0 & P1 & P2 & _).
  assert (ch0 = 0 ∨ ch0 = 1 ∨ ch0 = 2) as [-> | [-> | ->]] by lia.
  - replace ((Z.of_nat y0 * Z.of_nat w + Z.of_nat x0) * 4 + 0)
      with (Z.of_nat ((y0 * w + x0) * 4)) by lia.
    rewrite readZ_of_nat. exact P0.
  - replace ((Z.of_nat y0 * Z.of_nat w + Z.of_nat x0) * 4 + 1)
      with (Z.of_nat ((y0 * w + x0) * 4 + 1)) by lia.
    rewrite readZ_of_nat. exact P1.
  - replace ((Z.of_nat y0 * Z.of_nat w + Z.of_nat x0) * 4 + 2)
      with (Z.of_nat ((y0 * w + x0) * 4 + 2)) by lia.
    rewrite readZ_of_nat. exact P2.
Qed.

Section OneColour.
#[local] Existing Instance exact.

(** A frame without ocean on which [tempToRGB] gives one colour has that
    colour at every pixel, whatever the blur. *)
Lemma render_uniform_pixels (temps : list (@num exact)) (opts : @RenderOpts exact)
    (w h : nat) (r g b : Z) :
  (∀ x y, (x < w)%nat → (y < h)%nat →
     @oceanAt exact temps w h x y = false
     ∧ @pixelColor exact temps (Render.stopsOf opts) w h x y = Some (r, g, b)) →
  ∃ data, @Render.renderPixelData exact temps opts (Some w) (Some h) = Some data
    ∧ ∀ x y, (x < w)%nat → (y < h)%nat →
        pixelIs data (y * w + x) (clamp8 r) (clamp8 g) (clamp8 b) 255.
Proof.
  intros Hall. unfold Render.renderPixelData. cbn [default from_option id]. cbv zeta.
  destruct (@Render.renderRows exact temps (Render.stopsOf opts) w h)
    as [[raster oceanMask] |] eqn:Hrows.
  - destruct (renderRows_inv _ _ _ _ _ Hrows) as (Hld & Hlm & Hpix).
    cbn [fst snd] in *.
    assert (Hraster : ∀ x y, (x < w)%nat → (y < h)%nat →
              pixelIs raster (y * w + x) (clamp8 r) (clamp8 g) (clamp8 b) 255
              ∧ oceanMask !! (y * w + x)%nat = Some 0).
    { intros x y Hx Hy. destruct (Hall x y Hx Hy) as [Ho Hc].
      destruct (Hpix x y Hx Hy ltac:(nia)) as (Hm & r' & g' & b' & Hc' & Hp).
      rewrite Ho in Hm.
      assert (E : Some (r', g', b') = Some (r, g, b))
        by exact (eq_trans (eq_sym Hc') Hc).
      injection E as -> -> ->. split; [exact Hp | exact Hm]. }
    destruct (@gtb exact (blurRadius opts) (of_Z 0)).
    + eexists. split; [reflexivity |].
      set (radius := Z.max 1 _).
      assert (Hu : uniformRGB w h (clamp8 r, clamp8 g, clamp8 b) raster).
      { apply pixels_uniformRGB; [exact Hld |].
        intros x y Hx Hy. exact (proj1 (Hraster x y Hx Hy)). }
      assert (Hblur : @Render.boxBlur exact raster w h radius 3 = raster).
      { unfold Render.boxBlur.
        destruct (blur_passes_uniform raster w h radius 3
                    (clamp8 r, clamp8 g, clamp8 b) (replicate (length raster) 0) Hu)
          as (dst & E & _).
        - repeat split; apply clamp8_byte.
        - subst radius. lia.
        - rewrite length_replicate. exact Hld.
        - etransitivity; [apply (f_equal fst); exact E | reflexivity]. }
      rewrite Hblur, restamp_no_ocean.
      * intros x y Hx Hy. exact (proj1 (Hraster x y Hx Hy)).
      * intros i m Hm. pose proof (lookup_lt_Some _ _ _ Hm) as Hi.
        rewrite Hlm in Hi.
        destruct (pixel_decompose w h i Hi) as (x & y & Hx & Hy & ->).
        rewrite (proj2 (Hraster x y Hx Hy)) in Hm. congruence.
    + exists raster. split; [reflexivity |].
      intros x y Hx Hy. exact (proj1 (Hraster x y Hx Hy)).
  - exfalso. apply renderRows_throws in Hrows as (y & Hy & x & Hx & Hc).
    apply elem_of_seq in Hy. apply elem_of_seq in Hx.
    destruct (Hall x y ltac:(lia) ltac:(lia)) as [_ Hc'].
    rewrite Hc' in Hc. discriminate Hc.
Qed.

(** X14 -- in exact arithmetic, a grid of full size whose cells all hold the
    number [V] renders to a frame in which every pixel has the colour that
    [tempToRGB] gives for [V], opaque, for every size and every blur
    radius: the blur and the re-stamp change nothing. *)
Theorem uniform_grid_frame (temps : list (@num exact)) (V : Q)
    (opts : @RenderOpts exact) (w h : nat) (r g b : Z) :
  @uniformGrid exact temps (XFin V) →
  @Render.tempToRGB exact (Some (XFin V)) (Render.stopsOf opts) = Some (r, g, b) →
  ∃ data, @Render.renderPixelData exact temps opts (Some w) (Some h) = Some data
    ∧ length data = (w * h * 4)%nat
    ∧ ∀ x y, (x < w)%nat → (y < h)%nat →
        pixelIs data (y * w + x) (clamp8 r) (clamp8 g) (clamp8 b) 255.
Proof.
  intros Hu Hc.
  destruct (render_uniform_pixels temps opts w h r g b) as (data & Hd & Hpix).
  { intros x y Hx Hy.
    destruct (pixelColor_uniform_exact temps V (Render.stopsOf opts) w h x y Hu Hx Hy)
      as [Ho Hp].
    split; [exact Ho |]. etransitivity; [exact Hp | exact Hc]. }
  exists data. split; [exact Hd |]. split; [| exact Hpix].
  exact (proj1 (renderPixelData_shape temps opts w h data Hd)).
Qed.

Lemma uniform_grid_frame_witness :
  let temps := @replicate (@num exact) (Z.to_nat Render.NUM_POINTS) (XFin 20) in
  @uniformGrid exact temps (XFin 20)
  ∧ @Render.tempToRGB exact (Some (XFin 20)) (Render.stopsOf blurredOpts)
    = Some (255, 231, 47)
  ∧ ∃ data, @Render.renderPixelData exact temps blurredOpts (Some 4%nat) (Some 2%nat)
            = Some data
      ∧ length data = (4 * 2 * 4)%nat
      ∧ ∀ x y, (x < 4)%nat → (y < 2)%nat →
          pixelIs data (y * 4 + x) (clamp8 255) (clamp8 231) (clamp8 47) 255.
Proof.
  intros temps.
  assert (Hu : @uniformGrid exact temps (XFin 20))
    by apply (@uniformGrid_replicate exact).
  assert (Hc : @Render.tempToRGB exact (Some (XFin 20)) (Render.stopsOf blurredOpts)
               = Some (255, 231, 47)) by (vm_compute; reflexivity).
  split; [exact Hu |]. split; [exact Hc |].
  exact (uniform_grid_frame temps 20 blurredOpts 4 2 255 231 47 Hu Hc).
Defined.

End OneColour.

(** ** Reads beyond the buffer *)

Section Undefined.
#[local] Existing Instance exact.

Lemma exact_add_NaN_r (x : @num exact) : (x + XNaN)%js = XNaN.
Proof. destruct x; reflexivity. Qed.

Lemma exact_mul_NaN_r (x : @num exact) : (x * XNaN)%js = XNaN.
Proof. destruct x; reflexivity. Qed.

(** Once a cell of the neighbourhood is [undefined], the sum is NaN and
    stays NaN, and the cell counts as valid. *)
Lemma gather_undefined (temps : list (@num exact)) (latBase lngBase : Z) (k0 : nat) :
  (k0 < 16)%nat → neighbour temps latBase lngBase k0 = None →
  ∃ cnt raw, Render.gather temps latBase lngBase = (XNaN, cnt, raw)
    ∧ 1 <= cnt ∧ length raw = 16%nat ∧ raw !! k0 = Some XNaN.
Proof.
  intros Hk0 Hnone. rewrite gather_steps.
  assert (H : (fun k (st : @num exact * Z * list (@num exact)) =>
                 length st.2 = 16%nat ∧ 0 <= st.1.2
                 ∧ ((k0 < k)%nat →
                      st.1.1 = XNaN ∧ 1 <= st.1.2 ∧ st.2 !! k0 = Some XNaN))
                (length gatherOrder)
                (fold_left (gatherStep temps latBase lngBase) gatherOrder
                   (of_Z 0, 0, replicate 16 (of_Z 0)))).
  { apply fold_left_indexed.
    - cbn [fst snd]. split; [apply length_replicate |]. split; [lia |]. lia.
    - intros k o [[s cnt] raw] Ho (Hlen & Hcnt & Hafter). cbn [fst snd] in *.
      destruct (gatherOrder_lookup _ _ Ho) as (Hk & -> & Hidx).
      unfold gatherStep. rewrite Hidx. cbn [fst snd].
      change (Render.getGridTemp temps (latBase + (Z.of_nat (k / 4) - 1))
                (lngBase + (Z.of_nat (k mod 4) - 1)))
        with (neighbour temps latBase lngBase k).
      destruct (decide (k = k0)) as [-> | Hne].
      + rewrite Hnone. cbn [selfEqual notSelfEqual negb toNumber fst snd].
        split; [rewrite length_insert; exact Hlen |]. split; [lia |].
        intros _. split; [apply exact_add_NaN_r |]. split; [lia |].
        apply list_lookup_insert_eq.
        exact (eq_ind_r (fun n => (k0 < n)%nat) Hk0 Hlen).
      + destruct (selfEqual (neighbour temps latBase lngBase k)); cbn [fst snd];
          (split; [rewrite length_insert; exact Hlen |]); (split; [lia |]);
          intros Hlt; destruct (Hafter ltac:(lia)) as (Hs & Hc & Hr);
          (split; [| split; [lia |]]).
        * rewrite Hs. reflexivity.
        * etransitivity; [apply list_lookup_insert_ne; exact Hne | exact Hr].
        * exact Hs.
        * etransitivity; [apply list_lookup_insert_ne; exact Hne | exact Hr]. }
  cbv beta in H.
  destruct (fold_left _ gatherOrder _) as [[s cnt] raw]. cbn [fst snd] in H.
  destruct H as (Hlen & _ & Hafter).
  destruct (Hafter Hk0) as (-> & Hcnt & Hr).
  exists cnt, raw. repeat split; assumption.
Qed.

Lemma fillMissing_keeps_NaN (cnt : Z) (raw : list (@num exact)) (k0 : nat) :
  length raw = 16%nat → raw !! k0 = Some XNaN →
  @Render.fillMissing exact XNaN cnt raw !! k0 = Some XNaN.
Proof.
  intros Hlen Hk0. unfold Render.fillMissing.
  destruct (cnt <? 16); [| exact Hk0]. cbv zeta.
  apply (fold_left_inv _ (fun r : list (@num exact) =>
                            length r = 16%nat ∧ r !! k0 = Some XNaN));
    [split; assumption |].
  intros r i _ [Hr Hk]. destruct (@isNaN exact (at_ r i)); [| split; assumption].
  split; [rewrite length_insert; exact Hr |].
  destruct (decide (i = k0)) as [-> | Hne].
  - apply list_lookup_insert_eq. apply lookup_lt_Some in Hk. exact Hk.
  - etransitivity; [apply list_lookup_insert_ne; exact Hne | exact Hk].
Qed.

Lemma convolve_NaN (wLat wLng raw : list (@num exact)) (k0 : nat) :
  (k0 < 16)%nat → raw !! k0 = Some XNaN →
  @Render.convolve exact wLat wLng raw = XNaN.
Proof.
  intros Hk0 Hraw. unfold Render.convolve.
  pose proof (Nat.div_mod_eq k0 4) as Hdm.
  pose proof (Nat.mod_upper_bound k0 4 ltac:(lia)) as Hm.
  apply (fold_left_establish _ (fun _ => True) (fun s : @num exact => s = XNaN)
           (seq 0 4) (k0 / 4)%nat).
  - apply elem_of_seq. lia.
  - auto.
  - intros s _.
    assert (Hrow : fold_left (fun (rowVal : @num exact) col =>
                      (rowVal + at_ wLng col * at_ raw (k0 / 4 * 4 + col))%js)
                     (seq 0 4) (of_Z 0) = XNaN).
    { apply (fold_left_establish _ (fun _ => True) (fun s : @num exact => s = XNaN)
               (seq 0 4) (k0 mod 4)%nat).
      - apply elem_of_seq. lia.
      - auto.
      - intros rowVal _. replace (k0 / 4 * 4 + k0 mod 4)%nat with k0 by lia.
        assert (Hat : @at_ exact raw k0 = XNaN).
        { unfold at_. etransitivity; [apply (f_equal toNumber); exact Hraw |].
          reflexivity. }
        etransitivity;
          [apply (f_equal (fun v : @num exact =>
                             (rowVal + at_ wLng (k0 mod 4) * v)%js)); exact Hat |].
        etransitivity; [apply f_equal; apply exact_mul_NaN_r |].
        apply exact_add_NaN_r.
      - intros rowVal col _ _ _ ->. reflexivity.
      - exact I. }
    cbv zeta.
    etransitivity;
      [apply (f_equal (fun v : @num exact => (s + at_ wLat (k0 / 4) * v)%js));
       exact Hrow |].
    etransitivity; [apply f_equal; apply exact_mul_NaN_r |].
    apply exact_add_NaN_r.
  - intros s row _ _ _ ->. reflexivity.
  - exact I.
Qed.

(** A sum that is NaN with a count that is not zero gives a sample that is
    NaN. *)
Lemma bicubicSample_poisoned (temps : list (@num exact)) (lat lng : @num exact)
    (cnt : Z) (raw : list (@num exact)) (k : nat) :
  Render.gather temps (@sampleBase exact lat lng).1 (@sampleBase exact lat lng).2
  = (XNaN, cnt, raw) →
  1 <= cnt → length raw = 16%nat → (k < 16)%nat → raw !! k = Some XNaN →
  @Render.bicubicSample exact temps lat lng = XNaN.
Proof.
  intros E Hcnt Hlen Hk Hraw. rewrite bicubicSample_base.
  destruct (Render.gather temps (sampleBase lat lng).1 (sampleBase lat lng).2)
    as [[s cnt'] raw'].
  injection E as -> -> ->.
  destruct (Z.eqb_spec cnt 0) as [Hz | _]; [lia |].
  apply (convolve_NaN _ _ _ k Hk).
  apply fillMissing_keeps_NaN; assumption.
Qed.

(** X15 -- in exact arithmetic, when one of the sixteen reads of
    [bicubicSample] falls outside the buffer (the grid is shorter than
    the index), the sample is NaN, whatever the other cells hold: the
    [undefined] passes the [v === v] test, is added to the sum and is
    never filled in. *)
Theorem bicubicSample_undefined (temps : list (@num exact)) (lat lng : @num exact)
    (k : nat) :
  (k < 16)%nat →
  neighbour temps (@sampleBase exact lat lng).1 (@sampleBase exact lat lng).2 k = None →
  @Render.bicubicSample exact temps lat lng = XNaN.
Proof.
  intros Hk Hnone.
  destruct (gather_undefined temps _ _ k Hk Hnone)
    as (cnt & raw & E & Hcnt & Hlen & Hraw).
  exact (bicubicSample_poisoned temps lat lng cnt raw k E Hcnt Hlen Hk Hraw).
Qed.

Lemma bicubicSample_undefined_witness :
  (0 < 16)%nat
  ∧ neighbour ([XFin 1; XFin 2] : list (@num exact))
      (@sampleBase exact (XFin 0) (XFin 0)).1 (@sampleBase exact (XFin 0) (XFin 0)).2 0
    = None
  ∧ @Render.bicubicSample exact [XFin 1; XFin 2] (XFin 0) (XFin 0) = XNaN.
Proof.
  assert (Hk : (0 < 16)%nat) by lia.
  assert (Hn : neighbour ([XFin 1; XFin 2] : list (@num exact))
                 (@sampleBase exact (XFin 0) (XFin 0)).1
                 (@sampleBase exact (XFin 0) (XFin 0)).2 0 = None)
    by (vm_compute; reflexivity).
  split; [exact Hk |]. split; [exact Hn |].
  exact (bicubicSample_undefined [XFin 1; XFin 2] (XFin 0) (XFin 0) 0 Hk Hn).
Defined.

(** On a grid without cells no pixel is ocean and every pixel is white. *)
Lemma empty_grid_pixel (stops : option (list (@ColorStop exact))) (w h x y : nat) :
  @oceanAt exact [] w h x y = false
  ∧ @pixelColor exact [] stops w h x y = Some (255, 255, 255).
Proof.
  assert (Ho : @oceanAt exact [] w h x y = false).
  { unfold oceanAt, Render.isOceanNearest, readZ.
    destruct (_ <? 0); reflexivity. }
  split; [exact Ho |]. unfold pixelColor.
  etransitivity; [apply (f_equal (fun o : bool => if o then _ else _)); exact Ho |].
  cbv beta iota zeta.
  assert (Hs : @Render.bicubicSample exact [] (Render.pixelLat y h)
                 (Render.pixelLng x w) = XNaN).
  { destruct (gather_undefined [] (@sampleBase exact (Render.pixelLat y h)
                                     (Render.pixelLng x w)).1
                (@sampleBase exact (Render.pixelLat y h) (Render.pixelLng x w)).2
                0 ltac:(lia)) as (cnt & raw & E & Hcnt & Hlen & Hraw).
    - unfold neighbour, Render.getGridTemp, readZ. destruct (_ <? 0); reflexivity.
    - exact (bicubicSample_poisoned [] _ _ cnt raw 0 E Hcnt Hlen ltac:(lia) Hraw). }
  etransitivity;
    [apply (f_equal (fun t : @num exact =>
                       Render.tempToRGB (if isNaN t then None else Some t) stops));
     exact Hs |].
  reflexivity.
Qed.

(** X16 -- in exact arithmetic, a grid without cells (what a day beyond
    the end of the buffer gets from [subarray]) renders, for every size
    and all options, to the frame that is white everywhere: no pixel is
    ocean by the nearest-cell test, every sample is NaN, and the colour
    table is never consulted. *)
Theorem empty_grid_white (opts : @RenderOpts exact) (w h : nat) :
  @Render.renderPixelData exact [] opts (Some w) (Some h)
  = Some (replicate (w * h * 4) 255).
Proof.
  destruct (render_uniform_pixels [] opts w h 255 255 255) as (data & Hd & Hpix).
  { intros x y _ _. apply empty_grid_pixel. }
  rewrite Hd. f_equal. apply all_pixels_white.
  - exact (proj1 (renderPixelData_shape [] opts w h data Hd)).
  - exact Hpix.
Qed.

(** X18 -- in exact arithmetic, the days of a job that lie beyond the end
    of its buffer are drawn as white tiles: whatever the events after the
    start request, a tile [d] on the canvas with
    [length temps <= d * NUM_POINTS] is white everywhere.  Nothing tells
    such a job from one with data. *)
Theorem days_beyond_buffer_white (temps : list (@num exact)) (n : nat)
    (opts : @RenderOpts exact) (events : list (@Worker.Event exact))
    (j : @Worker.Job exact) (d : nat) (tile : nat * nat * list Z) :
  Forall (fun e => ¬ isStart e) events →
  Worker.jobs (Worker.run (Worker.Receive (Worker.Start temps n opts) :: events)
                 Worker.initial) = [j] →
  Worker.drawn j !! d = Some tile →
  (length temps <= d * Z.to_nat Worker.NUM_POINTS)%nat →
  tile.2 = replicate (Worker.FRAME_W * Worker.FRAME_H * 4) 255.
Proof.
  intros Hev Hj Hd Hshort.
  assert (Hinv : tilesInv temps n opts
                   (Worker.run (Worker.Receive (Worker.Start temps n opts) :: events)
                      Worker.initial)).
  { rewrite run_cons.
    apply (run_inv (tilesInv temps n opts)); [| exact Hev | apply tilesInv_start].
    intros t e. apply tilesInv_step. }
  destruct Hinv as (j' & Hj' & _ & _ & _ & Hok & _).
  assert (j' = j) by congruence. subst j'.
  destruct (Hok d tile Hd) as [_ Hr].
  assert (Hslice : daySlice temps d = []).
  { unfold daySlice, subarray. rewrite drop_ge by exact Hshort. apply take_nil. }
  rewrite Hslice in Hr.
  pose proof (eq_trans
                (eq_sym (renderPixelData_copies [] opts Worker.FRAME_W Worker.FRAME_H))
                Hr) as Hr'.
  destruct (render_uniform_pixels [] opts Worker.FRAME_W Worker.FRAME_H 255 255 255)
    as (data & Hdata & Hpix).
  { intros x y _ _. apply empty_grid_pixel. }
  assert (data = tile.2) by congruence. subst data.
  apply all_pixels_white.
  - exact (proj1 (renderPixelData_shape [] opts _ _ _ Hr')).
  - exact Hpix.
Qed.

Lemma days_beyond_buffer_white_witness :
  Forall (fun e : @Worker.Event exact => ¬ isStart e) [Worker.Resume 0]
  ∧ (@length (@num exact) [] <= 0 * Z.to_nat Worker.NUM_POINTS)%nat
  ∧ ∀ j tile,
      Worker.jobs (Worker.run (Worker.Receive (Worker.Start [] 2 thermalOpts)
                               :: [Worker.Resume 0]) Worker.initial) = [j] →
      Worker.drawn j !! 0%nat = Some tile →
      tile.2 = replicate (Worker.FRAME_W * Worker.FRAME_H * 4) 255.
Proof.
  assert (Hev : Forall (fun e : @Worker.Event exact => ¬ isStart e) [Worker.Resume 0])
    by (repeat constructor; intros []).
  assert (Hs : (@length (@num exact) [] <= 0 * Z.to_nat Worker.NUM_POINTS)%nat)
    by (cbn [length Nat.mul]; lia).
  split; [exact Hev |]. split; [exact Hs |]. intros j tile Hj Hd.
  exact (days_beyond_buffer_white [] 2 thermalOpts [Worker.Resume 0] j 0 tile
           Hev Hj Hd Hs).
Defined.

End Undefined.

(** ** Land pixels *)

Section Land.
#[local] Existing Instance exact.

Lemma round_floor (g : Q) :
  Qfloor (g + (1 # 2)) = Qfloor g ∨ Qfloor (g + (1 # 2)) = Qfloor g + 1.
Proof.
  pose proof (Qfloor_le g) as Hlo. pose proof (Qlt_floor g) as Hhi.
  rewrite inject_Z_plus in Hhi. change (inject_Z 1) with 1%Q in Hhi.
  assert (H : Qfloor g <= Qfloor (g + (1 # 2)) < Qfloor g + 2); [| lia].
  apply Qfloor_range.
  - lra.
  - rewrite inject_Z_plus. change (inject_Z 2) with 2%Q. lra.
Qed.

Lemma nearestIndex_exact (la lo : Q) :
  @Render.nearestIndex exact (XFin la) (XFin lo)
  = Render.gridIndex (Qfloor (gridLat la + (1 # 2))) (Qfloor (gridLng lo + (1 # 2))).
Proof.
  rewrite nearestIndex_gridIndex.
  cbn [add sub mul neg of_Z exact Exact.lift2 Exact.neg].
  rewrite !exact_div_const by (vm_compute; discriminate).
  reflexivity.
Qed.

(** The cell of the ocean test is one of the four middle cells of the
    neighbourhood of the sample. *)
Lemma nearest_is_neighbour (temps : list (@num exact)) (la lo : Q) :
  ∃ k, (k < 16)%nat
    ∧ neighbour temps (Qfloor (gridLat la)) (Qfloor (gridLng lo)) k
      = readZ temps (@Render.nearestIndex exact (XFin la) (XFin lo)).
Proof.
  rewrite nearestIndex_exact.
  destruct (round_floor (gridLat la)) as [-> | ->];
    destruct (round_floor (gridLng lo)) as [-> | ->].
  - exists 5%nat. split; [lia |]. unfold neighbour, Render.getGridTemp.
    do 2 f_equal; cbn; lia.
  - exists 6%nat. split; [lia |]. unfold neighbour, Render.getGridTemp.
    do 2 f_equal; cbn; lia.
  - exists 9%nat. split; [lia |]. unfold neighbour, Render.getGridTemp.
    do 2 f_equal; cbn; lia.
  - exists 10%nat. split; [lia |]. unfold neighbour, Render.getGridTemp.
    do 2 f_equal; cbn; lia.
Qed.

(** X17 -- in exact arithmetic, on a grid of full size, a position that the
    nearest-cell test does not take for ocean has a sample that is a
    number: the cell of the test is one of the sixteen cells of the sample.
    So a land pixel always gets a colour of the ramp, never the white of a
    missing value. *)
Theorem land_has_sample (temps : list (@num exact)) (la lo : Q) :
  Z.of_nat (length temps) = Render.NUM_POINTS →
  (inject_Z (-180) <= lo)%Q → (lo < inject_Z 180)%Q →
  @Render.isOceanNearest exact temps (XFin la) (XFin lo) = false →
  @isNaN exact (Render.bicubicSample temps (XFin la) (XFin lo)) = false.
Proof.
  intros Hlen Hlo Hhi Hland.
  pose proof (sampleBase_lng_range la lo Hlo Hhi) as Hb.
  rewrite sampleBase_exact in Hb. cbn [snd] in Hb.
  destruct (nearest_is_neighbour temps la lo) as (k & Hk & Hnear).
  destruct (neighbour_in_range temps (Qfloor (gridLat la)) (Qfloor (gridLng lo)) k
              Hlen ltac:(lia) Hk) as [v Hv].
  assert (Hfin : ∃ q, v = XFin q).
  { unfold Render.isOceanNearest in Hland.
    assert (E : readZ temps (@Render.nearestIndex exact (XFin la) (XFin lo)) = Some v)
      by exact (eq_trans (eq_sym Hnear) Hv).
    assert (Hn : @notSelfEqual exact (Some v) = false).
    { etransitivity; [| exact Hland]. apply (f_equal (@notSelfEqual exact)).
      symmetry. exact E. }
    destruct v as [| q]; [discriminate Hn | exists q; reflexivity]. }
  destruct Hfin as [q ->].
  destruct (bicubicSample_filled temps la lo Hlen ltac:(lia))
    as [[Hnan _] | (_ & qs & _ & E)].
  - discriminate (eq_trans (eq_sym Hv) (Hnan k Hk)).
  - etransitivity; [apply (f_equal (@isNaN exact)); exact E |].
    rewrite !catmullRomWeights_exact.
    etransitivity; [apply (f_equal (@isNaN exact)); apply convolve_fin |].
    reflexivity.
Qed.

Lemma land_has_sample_witness :
  let temps := @replicate (@num exact) (Z.to_nat Render.NUM_POINTS) (XFin 20) in
  Z.of_nat (length temps) = Render.NUM_POINTS
  ∧ (inject_Z (-180) <= 14 # 10)%Q ∧ (14 # 10 < inject_Z 180)%Q
  ∧ @Render.isOceanNearest exact temps (XFin (894 # 10)) (XFin (14 # 10)) = false
  ∧ @isNaN exact (Render.bicubicSample temps (XFin (894 # 10)) (XFin (14 # 10)))
    = false.
Proof.
  intros temps.
  assert (Hlen : Z.of_nat (length temps) = Render.NUM_POINTS)
    by apply (@uniformGrid_replicate exact).
  assert (H3 : (inject_Z (-180) <= 14 # 10)%Q) by (vm_compute; discriminate).
  assert (H4 : (14 # 10 < inject_Z 180)%Q) by (vm_compute; reflexivity).
  assert (Hland : @Render.isOceanNearest exact temps (XFin (894 # 10))
                    (XFin (14 # 10)) = false) by (vm_compute; reflexivity).
  split; [exact Hlen |]. split; [exact H3 |]. split; [exact H4 |].
  split; [exact Hland |].
  exact (land_has_sample temps (894 # 10) (14 # 10) Hlen H3 H4 Hland).
Defined.

End Land.

(** ** Data that is affine in the grid position *)

Section Affine.
#[local] Existing Instance exact.

Lemma gridIndex_inside (row col : Z) :
  0 <= row <= 90 → 0 <= col <= 180 →
  Render.gridIndex row col = row * Render.NUM_LNG + col.
Proof.
  intros Hr Hc. unfold Render.gridIndex. rewrite NUM_LAT_eq, NUM_LNG_eq.
  destruct (Z.ltb_spec col 0); [lia |].
  destruct (Z.leb_spec 181 col); lia.
Qed.

Lemma affine_neighbour (temps : list (@num exact)) (A B C : Q) (a b : Z)
    (k : nat) (dy dx : Z) :
  affineGrid temps A B C → 1 <= a <= 88 → 1 <= b <= 178 → (k < 16)%nat →
  dy = Z.of_nat (k / 4) - 1 → dx = Z.of_nat (k mod 4) - 1 →
  ∃ v, neighbour temps a b k = Some (XFin v)
       ∧ (v == A * inject_Z (a + dy) + B * inject_Z (b + dx) + C)%Q.
Proof.
  intros [_ Hgrid] Ha Hb Hk -> ->. unfold neighbour, Render.getGridTemp.
  pose proof (Nat.mod_upper_bound k 4 ltac:(lia)) as Hm.
  assert (Hd : (k / 4 < 4)%nat) by (apply Nat.Div0.div_lt_upper_bound; lia).
  rewrite gridIndex_inside by lia. apply Hgrid; lia.
Qed.

Lemma convolve_affine (ta tb ia ib A B C : Q) (q : nat → Q) :
  (∀ (k : nat) (dy dx : Z), (k < 16)%nat →
     dy = Z.of_nat (k / 4) - 1 → dx = Z.of_nat (k mod 4) - 1 →
     (q k == A * (ia + inject_Z dy) + B * (ib + inject_Z dx) + C)%Q) →
  (inject_Z 0
   + (- (ta * ta * ta) + inject_Z 2 * (ta * ta) - ta) / inject_Z 2
     * (inject_Z 0
        + (- (tb * tb * tb) + inject_Z 2 * (tb * tb) - tb) / inject_Z 2 * q 0%nat
        + (inject_Z 3 * (tb * tb * tb) - inject_Z 5 * (tb * tb) + inject_Z 2) / inject_Z 2 * q 1%nat
        + (inject_Z (-3) * (tb * tb * tb) + inject_Z 4 * (tb * tb) + tb) / inject_Z 2 * q 2%nat
        + (tb * tb * tb - tb * tb) / inject_Z 2 * q 3%nat)
   + (inject_Z 3 * (ta * ta * ta) - inject_Z 5 * (ta * ta) + inject_Z 2) / inject_Z 2
     * (inject_Z 0
        + (- (tb * tb * tb) + inject_Z 2 * (tb * tb) - tb) / inject_Z 2 * q 4%nat
        + (inject_Z 3 * (tb * tb * tb) - inject_Z 5 * (tb * tb) + inject_Z 2) / inject_Z 2 * q 5%nat
        + (inject_Z (-3) * (tb * tb * tb) + inject_Z 4 * (tb * tb) + tb) / inject_Z 2 * q 6%nat
        + (tb * tb * tb - tb * tb) / inject_Z 2 * q 7%nat)
   + (inject_Z (-3) * (ta * ta * ta) + inject_Z 4 * (ta * ta) + ta) / inject_Z 2
     * (inject_Z 0
        + (- (tb * tb * tb) + inject_Z 2 * (tb * tb) - tb) / inject_Z 2 * q 8%nat
        + (inject_Z 3 * (tb * tb * tb) - inject_Z 5 * (tb * tb) + inject_Z 2) / inject_Z 2 * q 9%nat
        + (inject_Z (-3) * (tb * tb * tb) + inject_Z 4 * (tb * tb) + tb) / inject_Z 2 * q 10%nat
        + (tb * tb * tb - tb * tb) / inject_Z 2 * q 11%nat)
   + (ta * ta * ta - ta * ta) / inject_Z 2
     * (inject_Z 0
        + (- (tb * tb * tb) + inject_Z 2 * (tb * tb) - tb) / inject_Z 2 * q 12%nat
        + (inject_Z 3 * (tb * tb * tb) - inject_Z 5 * (tb * tb) + inject_Z 2) / inject_Z 2 * q 13%nat
        + (inject_Z (-3) * (tb * tb * tb) + inject_Z 4 * (tb * tb) + tb) / inject_Z 2 * q 14%nat
        + (tb * tb * tb - tb * tb) / inject_Z 2 * q 15%nat)
   == A * (ia + ta) + B * (ib + tb) + C)%Q.
Proof.
  intros Hq.
  rewrite (Hq 0%nat (-1) (-1)), (Hq 1%nat (-1) 0), (Hq 2%nat (-1) 1),
    (Hq 3%nat (-1) 2), (Hq 4%nat 0 (-1)), (Hq 5%nat 0 0), (Hq 6%nat 0 1),
    (Hq 7%nat 0 2), (Hq 8%nat 1 (-1)), (Hq 9%nat 1 0), (Hq 10%nat 1 1),
    (Hq 11%nat 1 2), (Hq 12%nat 2 (-1)), (Hq 13%nat 2 0), (Hq 14%nat 2 1),
    (Hq 15%nat 2 2) by (lia || reflexivity).
  change (inject_Z (-1)) with (- (1))%Q. change (inject_Z 0) with 0%Q.
  change (inject_Z 1) with 1%Q. change (inject_Z 2) with 2%Q.
  change (inject_Z 3) with 3%Q. change (inject_Z 4) with 4%Q.
  change (inject_Z 5) with 5%Q. change (inject_Z (-3)) with (- (3))%Q.
  field.
Qed.

(** X19 -- in exact arithmetic, on a grid whose values are affine in the
    row and the column, [bicubicSample] returns the affine function of the
    position itself wherever the neighbourhood touches neither a pole nor
    the seam (latitude in (-88, 88], longitude in [-178, 178)): the
    interpolation is exact on linear gradients, not only on constants. *)
Theorem bicubicSample_affine (temps : list (@num exact)) (A B C la lo : Q) :
  affineGrid temps A B C →
  (inject_Z (-88) < la)%Q → (la <= inject_Z 88)%Q →
  (inject_Z (-178) <= lo)%Q → (lo < inject_Z 178)%Q →
  Exact.same (@Render.bicubicSample exact temps (XFin la) (XFin lo))
    (XFin (A * ((inject_Z Render.LAT_MAX - la) / inject_Z Render.GRID_STEP)
           + B * ((lo - inject_Z Render.LNG_MIN) / inject_Z Render.GRID_STEP) + C)).
Proof.
  intros Hgrid Hla1 Hla2 Hlo1 Hlo2.
  fold (gridLat la). fold (gridLng lo).
  assert (Ha : 1 <= Qfloor (gridLat la) < 89).
  { apply Qfloor_range; unfold gridLat, Render.LAT_MAX, Render.GRID_STEP.
    - apply Qle_shift_div_l; [reflexivity |].
      change (inject_Z 88) with 88%Q in Hla2. change (inject_Z 90) with 90%Q.
      change (inject_Z 1) with 1%Q. change (inject_Z 2) with 2%Q. lra.
    - apply Qlt_shift_div_r; [reflexivity |].
      change (inject_Z (-88)) with (- (88))%Q in Hla1. change (inject_Z 90) with 90%Q.
      change (inject_Z 89) with 89%Q. change (inject_Z 2) with 2%Q. lra. }
  assert (Hb : 1 <= Qfloor (gridLng lo) < 179).
  { apply Qfloor_range; unfold gridLng, Render.LNG_MIN, Render.GRID_STEP.
    - apply Qle_shift_div_l; [reflexivity |].
      change (inject_Z (-178)) with (- (178))%Q in Hlo1.
      change (inject_Z (-180)) with (- (180))%Q.
      change (inject_Z 1) with 1%Q. change (inject_Z 2) with 2%Q. lra.
    - apply Qlt_shift_div_r; [reflexivity |].
      change (inject_Z 178) with 178%Q in Hlo2.
      change (inject_Z (-180)) with (- (180))%Q.
      change (inject_Z 179) with 179%Q. change (inject_Z 2) with 2%Q. lra. }
  destruct (bicubicSample_filled temps la lo (proj1 Hgrid) ltac:(lia))
    as [[Hnan _] | (_ & q & Hq & E)].
  - destruct (affine_neighbour temps A B C (Qfloor (gridLat la))
                (Qfloor (gridLng lo)) 5 0 0 Hgrid ltac:(lia) ltac:(lia)
                ltac:(lia) eq_refl eq_refl) as (v & H5 & _).
    discriminate (eq_trans (eq_sym H5) (Hnan 5%nat ltac:(lia))).
  - assert (E' : ∃ r, @Render.bicubicSample exact temps (XFin la) (XFin lo) = XFin r
                      ∧ (r == A * (inject_Z (Qfloor (gridLat la)) + frac (gridLat la))
                              + B * (inject_Z (Qfloor (gridLng lo)) + frac (gridLng lo))
                              + C)%Q).
    { revert E. rewrite !catmullRomWeights_exact. intros E.
      eexists. split; [etransitivity; [exact E | apply convolve_fin] |].
      cbn beta. apply convolve_affine.
      intros k dy dx Hk Edy Edx. rewrite <- !inject_Z_plus.
      destruct (affine_neighbour temps A B C (Qfloor (gridLat la))
                  (Qfloor (gridLng lo)) k dy dx Hgrid ltac:(lia) ltac:(lia) Hk Edy Edx)
        as (v & Hv & Ev).
      rewrite (Hq k v Hk Hv). exact Ev. }
    destruct E' as (r & -> & Hr). cbn [Exact.same]. rewrite Hr. unfold frac. ring.
Qed.

Lemma bicubicSample_affine_witness :
  affineGrid (@rampGrid exact) 181 1 0
  ∧ (inject_Z (-88) < 333 # 10)%Q ∧ (333 # 10 <= inject_Z 88)%Q
  ∧ (inject_Z (-178) <= 14 # 10)%Q ∧ (14 # 10 < inject_Z 178)%Q
  ∧ Exact.same
      (@Render.bicubicSample exact rampGrid (XFin (333 # 10)) (XFin (14 # 10)))
      (XFin (181 * ((inject_Z Render.LAT_MAX - (333 # 10)) / inject_Z Render.GRID_STEP)
             + 1 * (((14 # 10) - inject_Z Render.LNG_MIN) / inject_Z Render.GRID_STEP)
             + 0)).
Proof.
  assert (Hg : affineGrid (@rampGrid exact) 181 1 0).
  { split; [apply (@rampGrid_length exact) |]. intros row col Hr Hc.
    eexists. split;
      [apply (@rampGrid_read exact); rewrite NUM_POINTS_eq, NUM_LNG_eq; lia |].
    rewrite NUM_LNG_eq, inject_Z_plus, inject_Z_mult.
    change (inject_Z 181) with 181%Q. ring. }
  assert (H1 : (inject_Z (-88) < 333 # 10)%Q) by (vm_compute; reflexivity).
  assert (H2 : (333 # 10 <= inject_Z 88)%Q) by (vm_compute; discriminate).
  assert (H3 : (inject_Z (-178) <= 14 # 10)%Q) by (vm_compute; discriminate).
  assert (H4 : (14 # 10 < inject_Z 178)%Q) by (vm_compute; reflexivity).
  split; [exact Hg |]. split; [exact H1 |]. split; [exact H2 |].
  split; [exact H3 |]. split; [exact H4 |].
  exact (bicubicSample_affine rampGrid 181 1 0 (333 # 10) (14 # 10) Hg H1 H2 H3 H4).
Defined.

End Affine.

(** ** The built-in colour tables *)

Section Colorways.
#[local] Existing Instance exact.

Lemma table_bytes (stops : list (@ColorStop exact)) :
  forallb (fun s => let '(r, g, b) := Stop.c s in
             (0 <=? r) && (r <=? 255) && (0 <=? g) && (g <=? 255)
             && (0 <=? b) && (b <=? 255)) stops = true →
  Forall (fun s => byteColor (Stop.c s)) stops.
Proof.
  intros H. apply Forall_forall. intros s Hs.
  rewrite forallb_forall in H. specialize (H s (proj1 (list_elem_of_In _ _) Hs)).
  destruct (Stop.c s) as [[r g] b]. unfold byteColor, isByte. cbn [fst snd].
  repeat (apply andb_true_iff in H as [H ?]). lia.
Qed.

(** X20 -- each of the four tables of [COLORWAY_MAP] (thermal, classic,
    earth, vivid) has two stops or more, thresholds that increase strictly
    and colours that are bytes: the built-in tables meet what the ramp of
    [tempToRGB] relies on, and no other name has a table. *)
Theorem builtin_colorways (name : string) (stops : list (@ColorStop exact)) :
  property (@Render.COLORWAY_MAP exact) name = Some stops →
  (name = "thermal" ∨ name = "classic" ∨ name = "earth" ∨ name = "vivid")%string
  ∧ (2 <= length stops)%nat
  ∧ @strictlyIncreasing exact stops = true
  ∧ Forall (fun s => byteColor (Stop.c s)) stops.
Proof.
  unfold Render.COLORWAY_MAP. cbn [property].
  destruct (String.eqb_spec "thermal" name) as [<- | _].
  { intros E. injection E as <-. split; [auto |].
    split; [cbn; lia |]. split; [vm_compute; reflexivity |].
    apply table_bytes. vm_compute. reflexivity. }
  destruct (String.eqb_spec "classic" name) as [<- | _].
  { intros E. injection E as <-. split; [auto |].
    split; [cbn; lia |]. split; [vm_compute; reflexivity |].
    apply table_bytes. vm_compute. reflexivity. }
  destruct (String.eqb_spec "earth" name) as [<- | _].
  { intros E. injection E as <-. split; [auto |].
    split; [cbn; lia |]. split; [vm_compute; reflexivity |].
    apply table_bytes. vm_compute. reflexivity. }
  destruct (String.eqb_spec "vivid" name) as [<- | _].
  { intros E. injection E as <-. split; [auto |].
    split; [cbn; lia |]. split; [vm_compute; reflexivity |].
    apply table_bytes. vm_compute. reflexivity. }
  intros E. discriminate E.
Qed.

Lemma builtin_colorways_witness :
  property (@Render.COLORWAY_MAP exact) "earth" = Some Render.EARTH_STOPS
  ∧ (2 <= length (@Render.EARTH_STOPS exact))%nat
  ∧ @strictlyIncreasing exact Render.EARTH_STOPS = true
  ∧ Forall (fun s => byteColor (Stop.c s)) (@Render.EARTH_STOPS exact).
Proof.
  assert (H : property (@Render.COLORWAY_MAP exact) "earth" = Some Render.EARTH_STOPS)
    by reflexivity.
  split; [exact H |].
  exact (proj2 (builtin_colorways "earth" Render.EARTH_STOPS H)).
Defined.

End Colorways.

(** ** Frames without pixels *)

Section NoPixels.
Context {N : JSNumber}.

(** X21 -- a frame of width 0 or height 0 is rendered as the empty buffer,
    for every grid and all options: no pixel is computed, so nothing is
    divided by the size and a missing colour table is not noticed. *)
Theorem renderPixelData_no_pixels (temps : list num) (opts : RenderOpts) (w h : nat) :
  w = 0%nat ∨ h = 0%nat →
  Render.renderPixelData temps opts (Some w) (Some h) = Some [].
Proof.
  intros Hzero.
  destruct (Render.renderPixelData temps opts (Some w) (Some h)) as [data |] eqn:Hd.
  - f_equal. apply length_zero_iff_nil.
    rewrite (proj1 (renderPixelData_shape temps opts w h data Hd)).
    destruct Hzero as [-> | ->]; lia.
  - exfalso. revert Hd. unfold Render.renderPixelData.
    cbn [default from_option id]. cbv zeta.
    destruct (Render.renderRows temps (Render.stopsOf opts) w h)
      as [[raster oceanMask] |] eqn:Hrows.
    + destruct (gtb (blurRadius opts) (of_Z 0)); intros E; discriminate E.
    + intros _. apply renderRows_throws in Hrows as (y & Hy & x & Hx & _).
      apply elem_of_seq in Hy. apply elem_of_seq in Hx.
      destruct Hzero as [-> | ->]; lia.
Qed.

End NoPixels.

Lemma renderPixelData_no_pixels_witness :
  (0%nat = 0%nat ∨ 7%nat = 0%nat)
  ∧ @Render.renderPixelData ieee [] (Build_RenderOpts None "none" (of_Z 3))
      (Some 0%nat) (Some 7%nat) = Some [].
Proof.
  assert (H : 0%nat = 0%nat ∨ 7%nat = 0%nat) by (left; reflexivity).
  split; [exact H |].
  exact (@renderPixelData_no_pixels ieee [] (Build_RenderOpts None "none" (of_Z 3))
           0 7 H).
Defined.

(** ** The value that stands in for a missing cell *)

Section Mean.
#[local] Existing Instance exact.

Lemma sumQ_snoc (l : list Q) (x : Q) : (sumQ (l ++ [x]) == sumQ l + x)%Q.
Proof.
  induction l as [| y l IH]; cbn [sumQ foldr app].
  - ring.
  - fold (sumQ (l ++ [x])). fold (sumQ l). rewrite IH. ring.
Qed.

Lemma finiteValues_snoc (cells : list (@cell exact)) (c : @cell exact) :
  finiteValues (cells ++ [c])
  = finiteValues cells
    ++ match c with Some (XFin q) => [q] | _ => [] end.
Proof.
  unfold finiteValues. rewrite omap_app. f_equal.
  destruct c as [[| q] |]; reflexivity.
Qed.

Lemma finiteValues_nil (cells : list (@cell exact)) :
  Forall (fun c => c = Some XNaN) cells → finiteValues cells = [].
Proof.
  induction 1 as [| c cells -> _ IH]; [reflexivity |].
  unfold finiteValues in *. cbn. exact IH.
Qed.

(** The sum and the count of the gathering loop are those of the numbers
    of the neighbourhood. *)
Lemma gather_sum (temps : list (@num exact)) (latBase lngBase : Z) :
  (∀ k, (k < 16)%nat → is_Some (neighbour temps latBase lngBase k)) →
  ∃ s cnt raw, Render.gather temps latBase lngBase = (XFin s, cnt, raw)
    ∧ (s == sumQ (finiteValues (neighbourhood temps latBase lngBase)))%Q
    ∧ cnt = Z.of_nat (length (finiteValues (neighbourhood temps latBase lngBase))).
Proof.
  intros Hsome. rewrite gather_steps.
  assert (H : (fun m (st : @num exact * Z * list (@num exact)) =>
                 ∃ s, st.1.1 = XFin s
                   ∧ (s == sumQ (finiteValues
                                   (neighbour temps latBase lngBase <$> seq 0 m)))%Q
                   ∧ st.1.2 = Z.of_nat (length (finiteValues
                                   (neighbour temps latBase lngBase <$> seq 0 m))))
                (length gatherOrder)
                (fold_left (gatherStep temps latBase lngBase) gatherOrder
                   (of_Z 0, 0, replicate 16 (of_Z 0)))).
  { apply fold_left_indexed.
    - exists (inject_Z 0). cbn. repeat split; reflexivity.
    - intros k o [[s' cnt] raw] Ho (s & Es & Hs & Hc). cbn [fst snd] in *. subst s'.
      destruct (gatherOrder_lookup _ _ Ho) as (Hk & -> & Hidx).
      unfold gatherStep. rewrite Hidx. cbn [fst snd].
      change (Render.getGridTemp temps (latBase + (Z.of_nat (k / 4) - 1))
                (lngBase + (Z.of_nat (k mod 4) - 1)))
        with (neighbour temps latBase lngBase k).
      rewrite seq_S, fmap_app.
      change (neighbour temps latBase lngBase <$> [(0 + k)%nat])
        with [neighbour temps latBase lngBase k].
      rewrite finiteValues_snoc.
      destruct (Hsome k Hk) as [v Hv]. rewrite Hv.
      destruct v as [| q];
        cbn [selfEqual notSelfEqual isNaN exact Exact.isNaN negb toNumber fst snd].
      + exists s. rewrite app_nil_r. repeat split; assumption.
      + exists (s + q)%Q. split; [reflexivity |]. split.
        * rewrite sumQ_snoc, Hs. reflexivity.
        * rewrite length_app. cbn [length]. lia. }
  cbv beta in H. destruct (fold_left _ gatherOrder _) as [[s' cnt] raw].
  destruct H as (s & Es & Hs & Hc). cbn [fst snd] in *. subst s'.
  exists s, cnt, raw. split; [reflexivity |]. split; [exact Hs | exact Hc].
Qed.

(** X22 -- in exact arithmetic, on a grid of full size, when the
    neighbourhood of a sample holds a number, [bicubicSample] is the
    Catmull-Rom sum over sixteen values that are the cells themselves where
    they hold a number and, where a cell is missing, the arithmetic mean of
    the numbers of the neighbourhood. *)
Theorem bicubicSample_fills_mean (temps : list (@num exact)) (la lo : Q) :
  Z.of_nat (length temps) = Render.NUM_POINTS →
  (inject_Z (-180) <= lo)%Q → (lo < inject_Z 180)%Q →
  finiteValues (neighbourhood temps (@sampleBase exact (XFin la) (XFin lo)).1
                  (@sampleBase exact (XFin la) (XFin lo)).2) ≠ [] →
  ∃ q : nat → Q,
    (∀ k v, (k < 16)%nat →
       neighbour temps (@sampleBase exact (XFin la) (XFin lo)).1
         (@sampleBase exact (XFin la) (XFin lo)).2 k = Some (XFin v) → q k = v)
    ∧ (∀ k, (k < 16)%nat →
         neighbour temps (@sampleBase exact (XFin la) (XFin lo)).1
           (@sampleBase exact (XFin la) (XFin lo)).2 k = Some XNaN →
         (q k ==
          sumQ (finiteValues
                  (neighbourhood temps (@sampleBase exact (XFin la) (XFin lo)).1
                     (@sampleBase exact (XFin la) (XFin lo)).2))
          / inject_Z (Z.of_nat (length (finiteValues
                  (neighbourhood temps (@sampleBase exact (XFin la) (XFin lo)).1
                     (@sampleBase exact (XFin la) (XFin lo)).2)))))%Q)
    ∧ @Render.bicubicSample exact temps (XFin la) (XFin lo)
      = Render.convolve
          (Render.catmullRomWeights
             ((of_Z Render.LAT_MAX - XFin la) / of_Z Render.GRID_STEP
              - of_Z (@sampleBase exact (XFin la) (XFin lo)).1)%js)
          (Render.catmullRomWeights
             ((XFin lo - of_Z Render.LNG_MIN) / of_Z Render.GRID_STEP
              - of_Z (@sampleBase exact (XFin la) (XFin lo)).2)%js)
          ((fun k => XFin (q k)) <$> seq 0 16).
Proof.
  intros Hlen Hlo Hhi.
  pose proof (sampleBase_lng_range la lo Hlo Hhi) as Hb.
  assert (Hw : ∀ (g : Q) (z : Z),
            ((XFin g : @num exact) / of_Z Render.GRID_STEP - of_Z z)%js
            = XFin (g / inject_Z Render.GRID_STEP - inject_Z z)).
  { intros g z. cbn [add sub mul neg of_Z exact Exact.lift2 Exact.neg].
    rewrite exact_div_const by (vm_compute; discriminate). reflexivity. }
  cbn [add sub mul neg of_Z exact Exact.lift2 Exact.neg].
  rewrite !exact_div_const by (vm_compute; discriminate).
  rewrite sampleBase_exact in *. cbn [fst snd] in *.
  cbn [sub exact Exact.lift2].
  fold (gridLat la). fold (gridLng lo).
  fold (frac (gridLat la)). fold (frac (gridLng lo)).
  intros Hvals.
  set (a := Qfloor (gridLat la)) in *. set (b := Qfloor (gridLng lo)) in *.
  assert (Hsome : ∀ k, (k < 16)%nat → is_Some (neighbour temps a b k))
    by (intros k Hk; apply neighbour_in_range; [exact Hlen | lia | exact Hk]).
  destruct (bicubicSample_filled_mean temps la lo Hlen ltac:(subst b; lia))
    as [[Hnan _] | (_ & q & Hq & E & s & cnt & raw & Eg & Hcnt & Hmean)].
  - exfalso. apply Hvals. apply finiteValues_nil. unfold neighbourhood.
    apply Forall_forall. intros c Hc.
    apply list_elem_of_fmap in Hc as (k & -> & Hk). apply elem_of_seq in Hk.
    apply Hnan. lia.
  - exists q. split; [exact Hq |]. split; [| exact E].
    intros k Hk Hv. rewrite (Hmean k Hk Hv).
    destruct (gather_sum temps a b Hsome) as (s' & cnt' & raw' & Eg' & Hs & Hc).
    assert (Epair : (XFin s, cnt, raw) = (XFin s', cnt', raw'))
      by exact (eq_trans (eq_sym Eg) Eg').
    injection Epair as -> -> ->.
    rewrite Hs, Hc. reflexivity.
Qed.

Lemma bicubicSample_fills_mean_witness :
  let temps := <[0%nat := XNaN]>
                 (@replicate (@num exact) (Z.to_nat Render.NUM_POINTS) (XFin 20)) in
  Z.of_nat (length temps) = Render.NUM_POINTS
  ∧ (inject_Z (-180) <= - (1795 # 10))%Q ∧ (- (1795 # 10) < inject_Z 180)%Q
  ∧ finiteValues (neighbourhood temps
                    (@sampleBase exact (XFin (895 # 10)) (XFin (- (1795 # 10)))).1
                    (@sampleBase exact (XFin (895 # 10)) (XFin (- (1795 # 10)))).2)
    ≠ []
  ∧ ∃ q : nat → Q,
      (∀ k, (k < 16)%nat →
         neighbour temps
           (@sampleBase exact (XFin (895 # 10)) (XFin (- (1795 # 10)))).1
           (@sampleBase exact (XFin (895 # 10)) (XFin (- (1795 # 10)))).2 k
         = Some XNaN →
         (q k ==
          sumQ (finiteValues
                  (neighbourhood temps
                     (@sampleBase exact (XFin (895 # 10)) (XFin (- (1795 # 10)))).1
                     (@sampleBase exact (XFin (895 # 10)) (XFin (- (1795 # 10)))).2))
          / inject_Z (Z.of_nat (length (finiteValues
                  (neighbourhood temps
                     (@sampleBase exact (XFin (895 # 10)) (XFin (- (1795 # 10)))).1
                     (@sampleBase exact (XFin (895 # 10))
                        (XFin (- (1795 # 10)))).2)))))%Q).
Proof.
  intros temps.
  assert (Hlen : Z.of_nat (length temps) = Render.NUM_POINTS).
  { subst temps. rewrite length_insert. apply (@uniformGrid_replicate exact). }
  assert (H3 : (inject_Z (-180) <= - (1795 # 10))%Q) by (vm_compute; discriminate).
  assert (H4 : (- (1795 # 10) < inject_Z 180)%Q) by (vm_compute; reflexivity).
  assert (Hv : finiteValues
                 (neighbourhood temps
                    (@sampleBase exact (XFin (895 # 10)) (XFin (- (1795 # 10)))).1
                    (@sampleBase exact (XFin (895 # 10)) (XFin (- (1795 # 10)))).2)
               ≠ []) by (vm_compute; discriminate).
  split; [exact Hlen |]. split; [exact H3 |]. split; [exact H4 |].
  split; [exact Hv |].
  destruct (bicubicSample_fills_mean temps (895 # 10) (- (1795 # 10)) Hlen H3 H4 Hv)
    as (q & _ & Hmean & _).
  exists q. exact Hmean.
Defined.

End Mean.
